(** * hello_asm: the multi-language "Hello World" orchestration scripts

    A shallow embedding of the write / compile / run engines of the five
    front ends of the repository

      - [multi_lang_hello.py]   (plain console),
      - [educational_hello.py]  (rich terminal dashboard),
      - [web_hello.py]          (browser UI, one request per language),
      - [graphical_hello.py]    (desktop GUI, one thread per language),
      - [animated_hello.py]     (server-sent event stream),

    together with the properties of the specification that concern them.

    Conventions.
    - Python [str] values are sequences of Unicode code points ([text]).
    - Wall-clock durations ([time.time()] differences, Python floats) are
      counted in microseconds ([time]); only sums, comparisons with zero and
      with the 30 second limit are ever taken of them.
    - The operating system (child processes, the file system, the clock) is
      an oracle [OS]; every function of the scripts that touches it is a
      computation in the monad [M], which threads the state of the world,
      records the calls made and the user-interface events emitted, and
      distinguishes a normal return from an uncaught exception and from a
      call that never returns. *)

From Stdlib Require Import List String Ascii Bool Arith NArith ZArith QArith Lia.
From Stdlib Require Import DecimalString PrimFloat Uint63 FloatOps SpecFloat.
Import ListNotations.
Close Scope Q_scope.

Set Implicit Arguments.

(* ================================================================== *)
(** * Python strings                                                    *)
(* ================================================================== *)

Definition char := N.
Definition text := list char.

(** Decoding of the UTF-8 bytes of a literal of this file into code points. *)
Fixpoint decode_utf8 (bs : list N) : text :=
  match bs with
  | [] => []
  | b0 :: r0 =>
      if (b0 <? 128)%N then b0 :: decode_utf8 r0
      else if (b0 <? 224)%N then
        match r0 with
        | b1 :: r1 => ((b0 - 192) * 64 + (b1 - 128))%N :: decode_utf8 r1
        | _ => []
        end
      else if (b0 <? 240)%N then
        match r0 with
        | b1 :: b2 :: r2 =>
            ((b0 - 224) * 4096 + (b1 - 128) * 64 + (b2 - 128))%N :: decode_utf8 r2
        | _ => []
        end
      else
        match r0 with
        | b1 :: b2 :: b3 :: r3 =>
            ((b0 - 240) * 262144 + (b1 - 128) * 4096 + (b2 - 128) * 64 + (b3 - 128))%N
              :: decode_utf8 r3
        | _ => []
        end
  end.

Definition utf8 (s : string) : text :=
  decode_utf8 (map N_of_ascii (list_ascii_of_string s)).

(** [str.isspace] on one code point: the characters removed by [str.strip()]. *)
Definition isspace (c : char) : bool :=
  ((9 <=? c) && (c <=? 13) || (28 <=? c) && (c <=? 32)
   || (c =? 133) || (c =? 160) || (c =? 5760)
   || (8192 <=? c) && (c <=? 8202)
   || (c =? 8232) || (c =? 8233) || (c =? 8239) || (c =? 8287) || (c =? 12288))%N.

Fixpoint lstrip (s : text) : text :=
  match s with
  | [] => []
  | c :: r => if isspace c then lstrip r else s
  end.

Definition rstrip (s : text) : text := rev (lstrip (rev s)).

(** [s.strip()] *)
Definition strip (s : text) : text := rstrip (lstrip s).

(** Truth value of a string: [bool(s)]. *)
Definition truthy (s : text) : bool :=
  match s with [] => false | _ :: _ => true end.

(** [a or b] on strings. *)
Definition por (a b : text) : text := if truthy a then a else b.

(** [s[:n]] *)
Definition upto (n : nat) (s : text) : text := firstn n s.

(** [sep.join(parts)] *)
Fixpoint join (sep : text) (parts : list text) : text :=
  match parts with
  | [] => []
  | [p] => p
  | p :: rest => p ++ sep ++ join sep rest
  end.

Fixpoint text_eqb (a b : text) : bool :=
  match a, b with
  | [], [] => true
  | x :: a', y :: b' => (x =? y)%N && text_eqb a' b'
  | _, _ => false
  end.

(** [seq[i]] with Python's negative indices; [None] stands for [IndexError]. *)
Definition py_index {A : Type} (l : list A) (i : Z) : option A :=
  if (0 <=? i)%Z then nth_error l (Z.to_nat i)
  else if (- Z.of_nat (List.length l) <=? i)%Z
       then nth_error l (Z.to_nat (Z.of_nat (List.length l) + i))
       else None.

(* ================================================================== *)
(** * The operating system                                             *)
(* ================================================================== *)

(** Durations and clock readings, in microseconds. *)
Definition time := N.
Bind Scope N_scope with time.
Definition seconds (n : N) : time := (n * 1000000)%N.

Definition cmd := list text.
Definition path := text.

(** [PurePath.is_absolute] of a name on a POSIX system: it starts with a
    slash (code 47). *)
Definition is_absolute (name : text) : bool :=
  match name with
  | 47%N :: _ => true
  | _ => false
  end.

(** [dir / name] of [pathlib]: an absolute [name] replaces [dir], any other
    name is appended to it after a slash.  The path is kept as it is written;
    [pathlib] also drops [.] components and doubled or trailing slashes from
    the text, which does not change the file that the path names. *)
Definition path_join (dir : path) (name : text) : path :=
  if is_absolute name then name else dir ++ utf8 "/" ++ name.

(** What a child process launched by [subprocess.run] does when it is left
    alone: it exits after [d] with a return code and what it wrote to its two
    pipes; its program cannot be found; the launch fails for another reason
    (for instance a file without execute permission); or it never ends. *)
Inductive behaviour :=
| Exits (rc : Z) (out err : text) (d : time)
| NotFound (msg : text) (d : time)
| LaunchError (msg : text)
| Hangs.

(** The requests a script makes to the operating system. *)
Inductive req :=
| RSpawn (c : cmd) (cwd : path) (limit : option time)
    (** launching [c] in directory [cwd] under an optional time limit *)
| RWriteText (p : path) (content : text)
    (** [p.write_text(content, encoding="utf-8")] *)
| RExists (p : path)
    (** [p.exists()] *)
| RRmtree (p : path)
    (** [shutil.rmtree(p)] *)
| RMkdir (p : path)
    (** [p.mkdir(parents=True, exist_ok=True)] *)
| RNow.
    (** [time.time()] *)

(** What each request gives back.  For the three calls that can raise
    [OSError], [Some msg] is the exception, [msg] its [str]; a write also
    tells how long it took. *)
Definition resp (r : req) : Type :=
  match r with
  | RSpawn _ _ _ => behaviour
  | RWriteText _ _ => (option text * time)%type
  | RExists _ => bool
  | RRmtree _ => option text
  | RMkdir _ => option text
  | RNow => time
  end.

Record OS := {
  world : Type;
  perform : forall r : req, world -> resp r * world
}.

(** The calls that change something, with what they gave. *)
Inductive oscall :=
| Spawn (c : cmd) (cwd : path) (limit : option time) (b : behaviour)
| WriteText (p : path) (content : text) (r : option text)
| Rmtree (p : path) (r : option text)
| Mkdir (p : path) (r : option text).

(** An entry of the record of a run: a system call or an event of the
    front end's user interface. *)
Inductive event (U : Type) :=
| Os (c : oscall)
| Ui (u : U).
Arguments Os {U} c.
Arguments Ui {U} u.

Definition record_of {U : Type} (r : req) : resp r -> list (event U) :=
  match r with
  | RSpawn c cwd limit => fun b => [Os (Spawn c cwd limit b)]
  | RWriteText p content => fun x => [Os (WriteText p content (fst x))]
  | RExists _ => fun _ => []
  | RRmtree p => fun x => [Os (Rmtree p x)]
  | RMkdir p => fun x => [Os (Mkdir p x)]
  | RNow => fun _ => []
  end.

Inductive exn :=
| IndexError
| ValueError
| OSError (msg : text)
| UncaughtTimeoutExpired.

(** ** Programs

    A script is a tree of requests and user-interface events that ends with a
    value, with an uncaught exception, or in a call that never returns. *)
Inductive prog (U A : Type) :=
| PRet (a : A)
| PRaise (e : exn)
| PBlock
| PCall (r : req) (k : resp r -> prog U A)
| PEmit (u : U) (k : prog U A).
Arguments PRet {U A} a.
Arguments PRaise {U A} e.
Arguments PBlock {U A}.
Arguments PCall {U A} r k.
Arguments PEmit {U A} u k.

Section Programs.
Context {U : Type}.

Definition ret {A} (a : A) : prog U A := PRet a.

Fixpoint bind {A B} (m : prog U A) (f : A -> prog U B) : prog U B :=
  match m with
  | PRet a => f a
  | PRaise e => PRaise e
  | PBlock => PBlock
  | PCall r k => PCall r (fun x => bind (k x) f)
  | PEmit u k => PEmit u (bind k f)
  end.

Definition raise {A} (e : exn) : prog U A := PRaise e.

Definition call (r : req) : prog U (resp r) := PCall r (fun x => PRet x).

(** Recording a user-interface event. *)
Definition emit (u : U) : prog U unit := PEmit u (PRet tt).

(** [try: body  finally: fin] *)
Fixpoint try_finally {A} (body : prog U A) (fin : prog U unit) : prog U A :=
  match body with
  | PRet a => bind fin (fun _ => PRet a)
  | PRaise e => bind fin (fun _ => PRaise e)
  | PBlock => PBlock
  | PCall r k => PCall r (fun x => try_finally (k x) fin)
  | PEmit u k => PEmit u (try_finally k fin)
  end.

(** The outcome of [subprocess.run(..., check=True)] as the callers see it:
    a normal return or one of the three exceptions they catch. *)
Inductive run_outcome :=
| Completed (out err : text) (d : time)
| CalledProcessError (rc : Z) (out err : text) (d : time)
| FileNotFoundError (msg : text) (d : time)
| TimeoutExpired (d : time).

Definition expired (limit : option time) (d : time) : bool :=
  match limit with
  | Some l => (l <? d)%N
  | None => false
  end.

(** [subprocess.run(cmd, cwd=cwd, stdout=PIPE, stderr=PIPE, text=True,
    check=True, timeout=limit)].  With a limit the child is killed when it
    has not ended by then; without one the call waits for the child.  The
    behaviours are those of a command with a program name whose child writes
    text: the [IndexError] of an empty command and the [UnicodeDecodeError]
    of output that is not text, which no caller catches, are left out. *)
Definition subprocess_run (c : cmd) (cwd : path) (limit : option time)
  : prog U run_outcome :=
  PCall (RSpawn c cwd limit) (fun b : behaviour =>
    match b with
    | Exits rc out err d =>
        if expired limit d
        then PRet (TimeoutExpired (match limit with Some l => l | None => d end))
        else if (rc =? 0)%Z
             then PRet (Completed out err d)
             else PRet (CalledProcessError rc out err d)
    | NotFound msg d => PRet (FileNotFoundError msg d)
    | LaunchError msg => PRaise (OSError msg)
    | Hangs =>
        match limit with
        | Some l => PRet (TimeoutExpired l)
        | None => PBlock
        end
    end).

(** [path.write_text(content, encoding="utf-8")]: the [OSError], if any,
    and the time the call took. *)
Definition path_write_text (p : path) (content : text)
  : prog U (option text * time) :=
  call (RWriteText p content).

Definition path_exists (p : path) : prog U bool := call (RExists p).

(** [shutil.rmtree(p)], the exception as a value. *)
Definition shutil_rmtree (p : path) : prog U (option text) := call (RRmtree p).

(** [p.mkdir(parents=True, exist_ok=True)]; no caller catches its [OSError]. *)
Definition path_mkdir (p : path) : prog U unit :=
  PCall (RMkdir p) (fun x : option text =>
    match x with
    | None => PRet tt
    | Some msg => PRaise (OSError msg)
    end).

Definition time_time : prog U time := call RNow.

End Programs.

Notation "x <- m ;; k" := (bind m (fun x => k))
  (at level 61, m at next level, right associativity).
Notation "' pat <- m ;; k" := (bind m (fun x => match x with pat => k end))
  (at level 61, pat pattern, m at next level, right associativity).
Notation "m ;;; k" := (bind m (fun _ => k))
  (at level 61, right associativity).

(** ** Running a program on its own

    The result of a run: how it ended, the state of the world afterwards and
    the record of the calls and events, oldest first. *)
Inductive res (A : Type) :=
| Ret (a : A)
| Raise (e : exn)
| Block.
Arguments Ret {A} a.
Arguments Raise {A} e.
Arguments Block {A}.

Fixpoint run {os : OS} {U A : Type} (p : prog U A) (w : world os)
  : res A * world os * list (event U) :=
  match p with
  | PRet a => (Ret a, w, [])
  | PRaise e => (Raise e, w, [])
  | PBlock => (Block, w, [])
  | PCall r k =>
      let '(x, w1) := perform os r w in
      let '(out, w2, l) := run (k x) w1 in
      (out, w2, record_of r x ++ l)
  | PEmit u k =>
      let '(out, w1, l) := run k w in
      (out, w1, Ui u :: l)
  end.

(** ** Running threads side by side

    One step of a thread: a request is performed, or an event recorded.  A
    thread that has returned, has raised or is blocked takes no step. *)
Definition thread_step {os : OS} {U : Type} (p : prog U unit) (w : world os)
  : option (prog U unit * world os * list (event U)) :=
  match p with
  | PCall r k => let '(x, w1) := perform os r w in Some (k x, w1, record_of r x)
  | PEmit u k => Some (k, w, [Ui u])
  | _ => None
  end.

Fixpoint set_nth {A : Type} (l : list A) (i : nat) (x : A) : list A :=
  match l, i with
  | [], _ => []
  | _ :: rest, O => x :: rest
  | y :: rest, S j => y :: set_nth rest j x
  end.

(** The threads of [pool] running together: [sched] names the thread that
    takes each successive step. *)
Fixpoint run_pool {os : OS} {U : Type} (sched : list nat)
    (pool : list (prog U unit)) (w : world os)
  : list (prog U unit) * world os * list (event U) :=
  match sched with
  | [] => (pool, w, [])
  | i :: rest =>
      match nth_error pool i with
      | Some p =>
          match thread_step p w with
          | Some (p', w1, l) =>
              let '(pool2, w2, l2) := run_pool rest (set_nth pool i p') w1 in
              (pool2, w2, l ++ l2)
          | None => run_pool rest pool w
          end
      | None => run_pool rest pool w
      end
  end.

(** [for t in threads: t.join()]: what is left of each thread runs to its
    end.  A thread that has raised has ended; a blocked thread blocks the
    caller. *)
Fixpoint join_all {os : OS} {U : Type} (pool : list (prog U unit)) (w : world os)
  : res unit * world os * list (event U) :=
  match pool with
  | [] => (Ret tt, w, [])
  | p :: rest =>
      let '(out, w1, l1) := run p w in
      match out with
      | Block => (Block, w1, l1)
      | _ => let '(out2, w2, l2) := join_all rest w1 in (out2, w2, l1 ++ l2)
      end
  end.

(** [run] follows the tree of the program. *)
Fixpoint traces {U A : Type} (p : prog U A) (l : list (event U)) (out : res A) : Prop :=
  match p with
  | PRet a => l = [] /\ out = Ret a
  | PRaise e => l = [] /\ out = Raise e
  | PBlock => l = [] /\ out = Block
  | PCall r k => exists (x : resp r) (l' : list (event U)),
      l = record_of r x ++ l' /\ traces (k x) l' out
  | PEmit u k => exists l' : list (event U), l = Ui u :: l' /\ traces k l' out
  end.

(** ** Reading the record of a run *)

Definition spawned {U : Type} (l : list (event U)) : list (cmd * behaviour) :=
  flat_map (fun e => match e with Os (Spawn c _ _ b) => [(c, b)] | _ => [] end) l.

Definition launched {U : Type} (l : list (event U)) : list cmd := map fst (spawned l).

Definition removals {U : Type} (l : list (event U)) : list (path * option text) :=
  flat_map (fun e => match e with Os (Rmtree p r) => [(p, r)] | _ => [] end) l.

Definition written {U : Type} (l : list (event U)) : list (path * option text) :=
  flat_map (fun e => match e with Os (WriteText p _ r) => [(p, r)] | _ => [] end) l.

Definition ui_events {U : Type} (l : list (event U)) : list U :=
  flat_map (fun e => match e with Ui u => [u] | _ => [] end) l.

(** ** A small machine, to run the scripts on examples *)

Record machine := {
  (** what launching a command does, and the files it leaves in the
      directory it runs in *)
  tool : cmd -> behaviour * list text;
  (** the [OSError] of every write, if writing fails *)
  write_error : option text;
  (** the [OSError] of every removal, if removing fails *)
  rmtree_error : option text;
  (** the paths that exist *)
  files : list path;
  clock : time
}.

Definition tick (d : time) (m : machine) : machine :=
  {| tool := tool m; write_error := write_error m; rmtree_error := rmtree_error m;
     files := files m; clock := (clock m + d)%N |}.

Definition with_files (fs : list path) (m : machine) : machine :=
  {| tool := tool m; write_error := write_error m; rmtree_error := rmtree_error m;
     files := fs; clock := clock m |}.

Fixpoint starts_with (p s : text) : bool :=
  match p, s with
  | [], _ => true
  | x :: p', y :: s' => (x =? y)%N && starts_with p' s'
  | _ :: _, [] => false
  end.

Definition present (m : machine) (p : path) : bool := existsb (text_eqb p) (files m).

Definition duration (b : behaviour) : time :=
  match b with
  | Exits _ _ _ d => d
  | NotFound _ d => d
  | _ => 0%N
  end.

Definition machine_perform (r : req) : machine -> resp r * machine :=
  match r with
  | RSpawn c cwd limit => fun m =>
      let '(b, made) := tool m c in
      (b, with_files (map (path_join cwd) made ++ files m) (tick (duration b) m))
  | RWriteText p content => fun m =>
      match write_error m with
      | Some e => ((Some e, 40%N), tick 40 m)
      | None => ((None, 40%N), with_files (p :: files m) (tick 40 m))
      end
  | RExists p => fun m => (present m p, m)
  | RRmtree p => fun m =>
      if negb (present m p) then (Some (utf8 "[Errno 2] No such file or directory"), m)
      else match rmtree_error m with
           | Some e => (Some e, m)
           | None => (None, with_files (filter (fun f => negb (starts_with p f)) (files m)) m)
           end
  | RMkdir p => fun m => (None, with_files (p :: files m) m)
  | RNow => fun m => (clock m, m)
  end.

Definition machine_os : OS := {| world := machine; perform := machine_perform |}.

(** Whether a launch counts as a success for a caller using [limit]. *)
Definition spawn_ok (limit : option time) (b : behaviour) : bool :=
  match b with
  | Exits rc _ _ d => negb (expired limit d) && (rc =? 0)%Z
  | _ => false
  end.

Definition limit_30s : option time := Some (seconds 30).

(** Whether a launch is reported to the pipeline as a failed stage: the
    command ended with a status other than 0, could not be found, or was
    killed at the limit.  (A launch that raises another error, or a child that
    never ends when there is no limit, reports nothing.) *)
Definition reports_failure (limit : option time) (b : behaviour) : bool :=
  match b with
  | Exits rc _ _ d => expired limit d || negb (rc =? 0)%Z
  | NotFound _ _ => true
  | LaunchError _ => false
  | Hangs => match limit with Some _ => true | None => false end
  end.

(** Whether a recorded call is a stage of a pipeline that failed: a write
    that raised, or a launch that did not end with status 0 in time. *)
Definition call_failed {U : Type} (e : event U) : bool :=
  match e with
  | Os (WriteText _ _ (Some _)) => true
  | Os (Spawn _ _ limit b) => negb (spawn_ok limit b)
  | _ => false
  end.

Definition stage_failed {U : Type} (l : list (event U)) : bool := existsb call_failed l.


Definition newline : text := [10%N].

(** The double quote character. *)
Definition dq : text := [34%N].


(* ================================================================== *)
(** * web_hello.py                                                     *)
(* ================================================================== *)

Module Web.

Record LanguageSpec := {
  name : text;
  filename : text;
  color : text;
  code : text;
  compile_cmds : list cmd;
  run_cmd : cmd;
  syntax : text
}.

(** The dictionary [result] of [execute_language]. *)
Record Result := {
  status : text;
  progress : Z;
  output : text;
  error : text;
  write_time : time;
  compile_time : time;
  run_time : time;
  total_time : time;
  failed : bool
}.

Definition set_status (v : text) (r : Result) : Result :=
  {| status := v; progress := progress r; output := output r; error := error r;
     write_time := write_time r; compile_time := compile_time r;
     run_time := run_time r; total_time := total_time r; failed := failed r |}.
Definition set_progress (v : Z) (r : Result) : Result :=
  {| status := status r; progress := v; output := output r; error := error r;
     write_time := write_time r; compile_time := compile_time r;
     run_time := run_time r; total_time := total_time r; failed := failed r |}.
Definition set_output (v : text) (r : Result) : Result :=
  {| status := status r; progress := progress r; output := v; error := error r;
     write_time := write_time r; compile_time := compile_time r;
     run_time := run_time r; total_time := total_time r; failed := failed r |}.
Definition set_error (v : text) (r : Result) : Result :=
  {| status := status r; progress := progress r; output := output r; error := v;
     write_time := write_time r; compile_time := compile_time r;
     run_time := run_time r; total_time := total_time r; failed := failed r |}.
Definition set_write_time (v : time) (r : Result) : Result :=
  {| status := status r; progress := progress r; output := output r; error := error r;
     write_time := v; compile_time := compile_time r;
     run_time := run_time r; total_time := total_time r; failed := failed r |}.
Definition set_compile_time (v : time) (r : Result) : Result :=
  {| status := status r; progress := progress r; output := output r; error := error r;
     write_time := write_time r; compile_time := v;
     run_time := run_time r; total_time := total_time r; failed := failed r |}.
Definition set_run_time (v : time) (r : Result) : Result :=
  {| status := status r; progress := progress r; output := output r; error := error r;
     write_time := write_time r; compile_time := compile_time r;
     run_time := v; total_time := total_time r; failed := failed r |}.
Definition set_total_time (v : time) (r : Result) : Result :=
  {| status := status r; progress := progress r; output := output r; error := error r;
     write_time := write_time r; compile_time := compile_time r;
     run_time := run_time r; total_time := v; failed := failed r |}.
Definition set_failed (v : bool) (r : Result) : Result :=
  {| status := status r; progress := progress r; output := output r; error := error r;
     write_time := write_time r; compile_time := compile_time r;
     run_time := run_time r; total_time := total_time r; failed := v |}.

(** The only thing recorded besides the system calls: each assignment
    [result["progress"] = p].  The caller of [execute_language] sees the
    returned dictionary only. *)
Inductive note := SetProgress (p : Z).

Section Engine.
(** [str(e)] of the [CalledProcessError] of a command and a return code. *)
Variable str_exc : cmd -> Z -> text.
Variable WORKSPACE : path.
Variable LANGUAGES : list LanguageSpec.

Definition run_subprocess (c : cmd) (cwd : path)
  : prog note (bool * time * text * text) :=
  r <- subprocess_run c cwd limit_30s ;;
  ret match r with
      | Completed out err elapsed => (true, elapsed, strip out, strip err)
      | CalledProcessError rc out err elapsed =>
          (false, elapsed, por out [], por err (str_exc c rc))
      | FileNotFoundError _ elapsed =>
          (false, elapsed, [], utf8 "명령어를 찾을 수 없음: " ++ hd [] c)
      | TimeoutExpired elapsed =>
          (false, elapsed, [], utf8 "타임아웃 (30초 초과)")
      end.

Definition set_progress_m (p : Z) (r : Result) : prog note Result :=
  emit (SetProgress p) ;;; ret (set_progress p r).

(** The loop [for cmd in spec.compile_cmds] of [execute_language].  It gives
    [inl result] when a step failed and the function returned [result] from
    inside the loop, [inr compile_total] when the loop ran to its end. *)
Fixpoint compile_loop (result : Result) (compile_total : time) (cmds : list cmd)
  : prog note (Result + time) :=
  match cmds with
  | [] => ret (inr compile_total)
  | c :: rest =>
      '(success, elapsed, stdout, stderr) <- run_subprocess c WORKSPACE ;;
      let compile_total := (compile_total + elapsed)%N in
      if negb success then
        let result := set_status (utf8 "컴파일 실패") result in
        let result := set_error (por stderr stdout) result in
        let result := set_failed true result in
        let result := set_compile_time compile_total result in
        let result :=
          set_total_time (write_time result + compile_time result)%N result in
        result <- set_progress_m 100 result ;;
        ret (inl result)
      else compile_loop result compile_total rest
  end.

Definition initial_result : Result :=
  {| status := utf8 "대기 중"; progress := 0%Z; output := []; error := [];
     write_time := 0; compile_time := 0; run_time := 0; total_time := 0;
     failed := false |}.

(** Step 3 of [execute_language]: the run command. *)
Definition run_stage (spec : LanguageSpec) (result : Result) : prog note Result :=
  let result := set_status (utf8 "실행 중...") result in
  '(success, elapsed, stdout, stderr) <- run_subprocess (run_cmd spec) WORKSPACE ;;
  let result := set_run_time elapsed result in
  let result :=
    set_total_time (write_time result + compile_time result + run_time result)%N
                   result in
  if success then
    let result := set_status (utf8 "실행 완료") result in
    let result := set_output (por stdout (utf8 "(출력 없음)")) result in
    set_progress_m 100 result
  else
    let result := set_status (utf8 "실행 실패") result in
    let result := set_error (por stderr stdout) result in
    let result := set_failed true result in
    set_progress_m 100 result.

(** Steps 1 to 3 of [execute_language]: what it does for [spec] once the
    workspace is there. *)
Definition stages (spec : LanguageSpec) : prog note Result :=
  let result := initial_result in
  '(exc, elapsed) <-
    path_write_text (path_join WORKSPACE (filename spec)) (code spec) ;;
  match exc with
  | Some msg =>
      let result := set_status (utf8 "파일 작성 실패") result in
      let result := set_error msg result in
      let result := set_failed true result in
      set_progress_m 100 result
  | None =>
      let result := set_write_time elapsed result in
      result <- set_progress_m 25 result ;;
      match compile_cmds spec with
      | [] => run_stage spec result
      | _ :: _ =>
          let result := set_status (utf8 "컴파일 중...") result in
          r <- compile_loop result 0%N (compile_cmds spec) ;;
          match r with
          | inl result => ret result
          | inr compile_total =>
              let result := set_compile_time compile_total result in
              result <- set_progress_m 70 result ;;
              run_stage spec result
          end
      end
  end.

Definition execute_language (idx : Z) : prog note Result :=
  match py_index LANGUAGES idx with
  | None => raise IndexError
  | Some spec =>
      present <- path_exists WORKSPACE ;;
      (if negb present then path_mkdir WORKSPACE else ret tt) ;;;
      stages spec
  end.

End Engine.

(** The table of the script. *)
Definition LANGUAGES : list LanguageSpec :=
  [ {| name := utf8 "C";
       filename := utf8 "hello.c";
       color := utf8 "#00b4d8";
       code := join newline
         [utf8 "#include <stdio.h>";
          [];
          utf8 "int main(void) {";
          utf8 "    // 인사말 메시지 정의";
          utf8 "    const char *message = " ++ dq ++ utf8 "Hello World" ++ dq ++ utf8 ";";
          [];
          utf8 "    // 표준 출력으로 출력";
          utf8 "    puts(message);";
          [];
          utf8 "    return 0;  // 성공적 종료";
          utf8 "}"];
       compile_cmds := [[utf8 "gcc"; utf8 "hello.c"; utf8 "-o"; utf8 "hello_c"]];
       run_cmd := [utf8 "./hello_c"];
       syntax := utf8 "c" |};
    {| name := utf8 "C++";
       filename := utf8 "hello.cpp";
       color := utf8 "#9d4edd";
       code := join newline
         [utf8 "#include <iostream>";
          utf8 "#include <string>";
          [];
          utf8 "int main() {";
          utf8 "    // C++ 문자열 사용";
          utf8 "    std::string message = " ++ dq ++ utf8 "Hello World" ++ dq ++ utf8 ";";
          [];
          utf8 "    // cout으로 출력";
          utf8 "    std::cout << message << std::endl;";
          [];
          utf8 "    return 0;  // 성공적 종료";
          utf8 "}"];
       compile_cmds := [[utf8 "g++"; utf8 "hello.cpp"; utf8 "-o"; utf8 "hello_cpp"]];
       run_cmd := [utf8 "./hello_cpp"];
       syntax := utf8 "cpp" |};
    {| name := utf8 "Rust";
       filename := utf8 "hello.rs";
       color := utf8 "#ff6b35";
       code := join newline
         [utf8 "fn main() {";
          utf8 "    // 불변 문자열 슬라이스";
          utf8 "    let message = " ++ dq ++ utf8 "Hello World" ++ dq ++ utf8 ";";
          [];
          utf8 "    // println! 매크로로 출력";
          utf8 "    println!(" ++ dq ++ utf8 "{}" ++ dq ++ utf8 ", message);";
          utf8 "}"];
       compile_cmds := [[utf8 "rustc"; utf8 "hello.rs"; utf8 "-o"; utf8 "hello_rust"]];
       run_cmd := [utf8 "./hello_rust"];
       syntax := utf8 "rust" |};
    {| name := utf8 "Assembly";
       filename := utf8 "hello.asm";
       color := utf8 "#ffd60a";
       code := join newline
         [utf8 "section .data";
          utf8 "    msg db " ++ dq ++ utf8 "Hello World" ++ dq ++ utf8 ", 10";
          utf8 "    len equ $ - msg";
          [];
          utf8 "section .text";
          utf8 "    global _start";
          [];
          utf8 "_start:";
          utf8 "    ; write(1, msg, len)";
          utf8 "    mov rax, 1      ; syscall: write";
          utf8 "    mov rdi, 1      ; stdout";
          utf8 "    mov rsi, msg    ; buffer";
          utf8 "    mov rdx, len    ; length";
          utf8 "    syscall";
          [];
          utf8 "    ; exit(0)";
          utf8 "    mov rax, 60     ; syscall: exit";
          utf8 "    xor rdi, rdi    ; status: 0";
          utf8 "    syscall"];
       compile_cmds := [[utf8 "nasm"; utf8 "-f"; utf8 "elf64"; utf8 "hello.asm"; utf8 "-o"; utf8 "hello.o"]; [utf8 "ld"; utf8 "hello.o"; utf8 "-o"; utf8 "hello_asm"]];
       run_cmd := [utf8 "./hello_asm"];
       syntax := utf8 "nasm" |} ].

End Web.


(* ================================================================== *)
(** * Python dictionaries with string keys                             *)
(* ================================================================== *)

(** A [Dict[str, float]] as the list of its items in insertion order. *)
Definition dict := list (text * time).

Fixpoint dict_get (d : dict) (k : text) : option time :=
  match d with
  | [] => None
  | (k', v) :: rest => if text_eqb k' k then Some v else dict_get rest k
  end.

(** [d[k] = v] *)
Fixpoint dict_set (d : dict) (k : text) (v : time) : dict :=
  match d with
  | [] => [(k, v)]
  | (k', v') :: rest =>
      if text_eqb k' k then (k', v) :: rest else (k', v') :: dict_set rest k v
  end.

(** [d.get(k, default)] *)
Definition dict_get_default (d : dict) (k : text) (default : time) : time :=
  match dict_get d k with Some v => v | None => default end.

(** [k in d] *)
Definition dict_mem (d : dict) (k : text) : bool :=
  match dict_get d k with Some _ => true | None => false end.

(** [sum(d.values())] *)
Definition dict_sum (d : dict) : time :=
  fold_left (fun acc kv => (acc + snd kv)%N) d 0%N.

(** [str(n)] for a natural number. *)
Definition str_of_nat (n : nat) : text :=
  utf8 (DecimalString.NilZero.string_of_uint (Nat.to_uint n)).


(* ================================================================== *)
(** * educational_hello.py                                             *)
(* ================================================================== *)

Module Educational.

Record LanguageSpec := {
  name : text;
  filename : text;
  syntax : text;
  code_lines : list text;
  compile_cmds : list cmd;
  run_cmd : cmd
}.

Record LanguageState := {
  visible_lines : list text;
  status : text;
  stdout : text;
  stderr : text;
  failed : bool;
  timings : dict
}.

Definition set_visible_lines (v : list text) (s : LanguageState) : LanguageState :=
  {| visible_lines := v; status := status s; stdout := stdout s;
     stderr := stderr s; failed := failed s; timings := timings s |}.
Definition set_status (v : text) (s : LanguageState) : LanguageState :=
  {| visible_lines := visible_lines s; status := v; stdout := stdout s;
     stderr := stderr s; failed := failed s; timings := timings s |}.
Definition set_stdout (v : text) (s : LanguageState) : LanguageState :=
  {| visible_lines := visible_lines s; status := status s; stdout := v;
     stderr := stderr s; failed := failed s; timings := timings s |}.
Definition set_stderr (v : text) (s : LanguageState) : LanguageState :=
  {| visible_lines := visible_lines s; status := status s; stdout := stdout s;
     stderr := v; failed := failed s; timings := timings s |}.
Definition set_failed (v : bool) (s : LanguageState) : LanguageState :=
  {| visible_lines := visible_lines s; status := status s; stdout := stdout s;
     stderr := stderr s; failed := v; timings := timings s |}.
Definition set_timing (k : text) (v : time) (s : LanguageState) : LanguageState :=
  {| visible_lines := visible_lines s; status := status s; stdout := stdout s;
     stderr := stderr s; failed := failed s; timings := dict_set (timings s) k v |}.

(** [LanguageState()] *)
Definition new_state : LanguageState :=
  {| visible_lines := []; status := utf8 "⏳ Waiting"; stdout := []; stderr := [];
     failed := false; timings := [] |}.

(** What the script shows besides the dashboard, which [live.update]
    re-renders from the states without changing them: the operations on the
    progress bar of a language and the lines printed at the end. *)
Inductive ui :=
| AddTask (index : nat) (total : nat)
| Advance (index : nat)
| SetCompleted (index : nat) (completed : nat)
| PrintTotal (total_elapsed : time)
| PrintCleanup (cleaned : bool).

Section Engine.
Variable WORKSPACE : path.
Variable LANGUAGES : list LanguageSpec.

Definition run_subprocess (c : cmd) (cwd : path)
  : prog ui (bool * time * text * text) :=
  r <- subprocess_run c cwd None ;;
  match r with
  | Completed out err elapsed => ret (true, elapsed, strip out, strip err)
  | FileNotFoundError msg elapsed => ret (false, elapsed, [], msg)
  | CalledProcessError rc out err elapsed =>
      ret (false, elapsed, strip (por out []), strip (por err []))
  | TimeoutExpired _ => raise UncaughtTimeoutExpired
  end.

Definition write_source_file (spec : LanguageSpec) (workspace : path)
  : prog ui (bool * time * text) :=
  let p := path_join workspace (filename spec) in
  let source := join newline (code_lines spec) ++ newline in
  '(exc, elapsed) <- path_write_text p source ;;
  ret match exc with
      | None => (true, elapsed, [])
      | Some msg => (false, elapsed, msg)
      end.

Definition cleanup_workspace (workspace : path) : prog ui bool :=
  present <- path_exists workspace ;;
  if negb present then ret true
  else
    exc <- shutil_rmtree workspace ;;
    ret match exc with None => true | Some _ => false end.

(** Step 1: one pass of the reveal loop over the languages, for one line. *)
Fixpoint reveal_line (line_index : nat) (specs : list LanguageSpec)
    (states : list LanguageState) : list LanguageState :=
  match specs, states with
  | spec :: specs', state :: states' =>
      match nth_error (code_lines spec) line_index with
      | Some line =>
          set_status (utf8 "📝 Revealed line " ++ str_of_nat (line_index + 1)
                        ++ utf8 " / " ++ str_of_nat (List.length (code_lines spec)))
            (set_visible_lines (visible_lines state ++ [line]) state)
      | None => state
      end :: reveal_line line_index specs' states'
  | _, _ => states
  end.

Definition max_lines : nat :=
  fold_right Nat.max 0 (map (fun spec => List.length (code_lines spec)) LANGUAGES).

Definition step1 (states : list LanguageState) : list LanguageState :=
  map (set_status (utf8 "✅ Source ready"))
      (fold_left (fun sts line_index => reveal_line line_index LANGUAGES sts)
                 (seq 0 max_lines) states).

(** Step 2, the loop over the compile commands of one language. *)
Fixpoint compile_loop (index total_steps n_cmds cmd_index : nat)
    (state : LanguageState) (compile_time : time) (cmds : list cmd)
  : prog ui (LanguageState * time) :=
  match cmds with
  | [] => ret (state, compile_time)
  | c :: rest =>
      let state :=
        set_status (utf8 "⚙️ Compiling (" ++ str_of_nat cmd_index ++ utf8 "/"
                      ++ str_of_nat n_cmds ++ utf8 ")") state in
      '(ok, elapsed, stdout_text, stderr_text) <- run_subprocess c WORKSPACE ;;
      let compile_time := (compile_time + elapsed)%N in
      if negb ok then
        let state := set_status (utf8 "❌ Compilation error") state in
        let state := set_stderr (por stderr_text stdout_text) state in
        let state := set_failed true state in
        emit (SetCompleted index total_steps) ;;;
        ret (state, compile_time)
      else
        emit (Advance index) ;;;
        let state := if truthy stdout_text then set_stdout stdout_text state else state in
        let state := if truthy stderr_text then set_stderr stderr_text state else state in
        compile_loop index total_steps n_cmds (S cmd_index) state compile_time rest
  end.

(** Step 2, the body of the loop over the languages. *)
Definition step2_body (index : nat) (spec : LanguageSpec) (state : LanguageState)
  : prog ui LanguageState :=
  let total_steps := 1 + List.length (compile_cmds spec) in
  let state := set_status (utf8 "🗂️ Writing source file") state in
  '(ok, elapsed, error_message) <- write_source_file spec WORKSPACE ;;
  let state := set_timing (utf8 "write") elapsed state in
  emit (Advance index) ;;;
  if negb ok then
    let state := set_status (utf8 "❌ Write failed: " ++ error_message) state in
    let state := set_stderr error_message state in
    let state := set_failed true state in
    emit (SetCompleted index total_steps) ;;;
    ret state
  else
    match compile_cmds spec with
    | [] =>
        let state := set_timing (utf8 "compile") 0%N state in
        let state := set_status (utf8 "✅ Ready to interpret") state in
        emit (SetCompleted index total_steps) ;;;
        ret state
    | _ :: _ =>
        '(state, compile_time) <-
          compile_loop index total_steps (List.length (compile_cmds spec)) 1
                       state 0%N (compile_cmds spec) ;;
        if failed state then
          ret (set_timing (utf8 "compile") compile_time state)
        else
          let state := set_timing (utf8 "compile") compile_time state in
          let state := set_status (utf8 "✅ Compilation complete") state in
          emit (SetCompleted index total_steps) ;;;
          ret state
    end.

(** Step 3, the body of the loop over the languages. *)
Definition step3_body (index : nat) (spec : LanguageSpec) (state : LanguageState)
  : prog ui LanguageState :=
  if failed state then
    ret (set_status (utf8 "⛔ Skipped due to earlier error") state)
  else
    let state := set_status (utf8 "🚀 Executing binary") state in
    '(ok, elapsed, stdout_text, stderr_text) <- run_subprocess (run_cmd spec) WORKSPACE ;;
    let state := set_timing (utf8 "run") elapsed state in
    if ok then
      let state := set_status (utf8 "✅ Execution succeeded") state in
      let state := set_stdout (por stdout_text (utf8 "<no output>")) state in
      ret (set_stderr stderr_text state)
    else
      let state := set_status (utf8 "❌ Execution error") state in
      let state :=
        set_stderr (por stderr_text (por stdout_text (utf8 "Execution failed"))) state in
      ret (set_failed true state).

(** Step 4, the body of the loop over the states. *)
Definition step4_body (state : LanguageState) : LanguageState :=
  let total := dict_sum (timings state) in
  let state := if (total =? 0)%N then state else set_timing (utf8 "total") total state in
  if negb (failed state) && negb (dict_mem (timings state) (utf8 "compile"))
  then set_timing (utf8 "compile") 0%N state
  else state.

(** [for index, spec in enumerate(LANGUAGES): state = states[index]; body] *)
Fixpoint for_languages (body : nat -> LanguageSpec -> LanguageState -> prog ui LanguageState)
    (index : nat) (specs : list LanguageSpec) (states : list LanguageState)
  : prog ui (list LanguageState) :=
  match specs, states with
  | spec :: specs', state :: states' =>
      state' <- body index spec state ;;
      rest <- for_languages body (S index) specs' states' ;;
      ret (state' :: rest)
  | _, _ => ret states
  end.

Fixpoint add_tasks (index : nat) (specs : list LanguageSpec) : prog ui unit :=
  match specs with
  | [] => ret tt
  | spec :: rest =>
      emit (AddTask index (1 + List.length (compile_cmds spec))) ;;;
      add_tasks (S index) rest
  end.

(** [main].  The script returns 0; the model returns the states the
    dashboard ends with. *)
Definition main : prog ui (list LanguageState) :=
  total_start <- time_time ;;
  let states := map (fun _ => new_state) LANGUAGES in
  cleanup_workspace WORKSPACE ;;;
  path_mkdir WORKSPACE ;;;
  (* [render_layout] reads [LANGUAGES[0]] to [LANGUAGES[3]] *)
  (if (List.length LANGUAGES <? 4)%nat then raise IndexError else ret tt) ;;;
  (* [max(...)] of an empty sequence *)
  (match LANGUAGES with [] => raise ValueError | _ :: _ => ret tt end) ;;;
  let states := step1 states in
  add_tasks 0 LANGUAGES ;;;
  states <- for_languages step2_body 0 LANGUAGES states ;;
  states <- for_languages step3_body 0 LANGUAGES states ;;
  let states := map step4_body states in
  t <- time_time ;;
  let total_elapsed := (t - total_start)%N in
  cleaned <- cleanup_workspace WORKSPACE ;;
  emit (PrintTotal total_elapsed) ;;;
  emit (PrintCleanup cleaned) ;;;
  ret states.

End Engine.

(** The table of the script. *)
Definition LANGUAGES : list LanguageSpec :=
  [ {| name := utf8 "C";
       filename := utf8 "hello.c";
       syntax := utf8 "c";
       code_lines := [utf8 "#include <stdio.h>  // Bring in standard I/O declarations";
        [];
        utf8 "int main(void) {  // Program entry point";
        utf8 "    const char *message = " ++ dq ++ utf8 "Hello World" ++ dq ++ utf8 ";  // Immutable greeting text";
        utf8 "    puts(message);  // Print the message with a newline";
        utf8 "    return 0;  // Signal successful completion to the OS";
        utf8 "}  // End of main"];
       compile_cmds := [[utf8 "gcc"; utf8 "hello.c"; utf8 "-o"; utf8 "hello_c"]];
       run_cmd := [utf8 "./hello_c"] |};
    {| name := utf8 "C++";
       filename := utf8 "hello.cpp";
       syntax := utf8 "cpp";
       code_lines := [utf8 "#include <iostream>  // Access std::cout for output";
        utf8 "#include <string>   // Use std::string for readable text";
        [];
        utf8 "int main() {  // Program entry point";
        utf8 "    std::string message = " ++ dq ++ utf8 "Hello World" ++ dq ++ utf8 ";  // Store the greeting";
        utf8 "    std::cout << message << std::endl;  // Print with newline";
        utf8 "    return 0;  // Indicate successful completion";
        utf8 "}  // End of main"];
       compile_cmds := [[utf8 "g++"; utf8 "hello.cpp"; utf8 "-o"; utf8 "hello_cpp"]];
       run_cmd := [utf8 "./hello_cpp"] |};
    {| name := utf8 "Rust";
       filename := utf8 "hello.rs";
       syntax := utf8 "rust";
       code_lines := [utf8 "fn main() {  // Rust entry point";
        utf8 "    let message = " ++ dq ++ utf8 "Hello World" ++ dq ++ utf8 ";  // Immutable string slice";
        utf8 "    println!(" ++ dq ++ utf8 "{message}" ++ dq ++ utf8 ");  // Macro prints with newline";
        utf8 "}  // End of main"];
       compile_cmds := [[utf8 "rustc"; utf8 "hello.rs"; utf8 "-o"; utf8 "hello_rust"]];
       run_cmd := [utf8 "./hello_rust"] |};
    {| name := utf8 "Assembly";
       filename := utf8 "hello.asm";
       syntax := utf8 "nasm";
       code_lines := [utf8 "section .data                  ; Define the data segment";
        utf8 "    msg db " ++ dq ++ utf8 "Hello World" ++ dq ++ utf8 ", 10    ; Greeting followed by newline";
        utf8 "    len equ $ - msg            ; Compute the message length";
        [];
        utf8 "section .text                  ; Begin the code segment";
        utf8 "    global _start              ; Declare the entry symbol";
        [];
        utf8 "_start:                        ; Program entry point";
        utf8 "    mov rax, 1                 ; syscall: write";
        utf8 "    mov rdi, 1                 ; file descriptor: stdout";
        utf8 "    mov rsi, msg               ; pointer to message";
        utf8 "    mov rdx, len               ; number of bytes to write";
        utf8 "    syscall                    ; perform the write";
        [];
        utf8 "    mov rax, 60                ; syscall: exit";
        utf8 "    xor rdi, rdi               ; return code 0";
        utf8 "    syscall                    ; terminate program"];
       compile_cmds := [[utf8 "nasm"; utf8 "-f"; utf8 "elf64"; utf8 "hello.asm"; utf8 "-o"; utf8 "hello.o"]; [utf8 "ld"; utf8 "hello.o"; utf8 "-o"; utf8 "hello_asm"]];
       run_cmd := [utf8 "./hello_asm"] |} ].

End Educational.


(* ================================================================== *)
(** * multi_lang_hello.py                                              *)
(* ================================================================== *)

Module MultiLang.

(** An entry of [LANGUAGES]. *)
Record Language := {
  name : text;
  filename : text;
  source : text;
  compile_cmds : list cmd;
  run_cmd : cmd
}.

(** The lines printed on the console. *)
Inductive ui :=
| PrintCommand (label : text) (ok : bool) (c : cmd) (elapsed : time)
| PrintStream (label : text) (data : text)
| PrintError (msg : text)
| PrintCreate (filename : text) (ok : bool) (elapsed : time)
| PrintBanner (name : text)
| PrintRunSkipped
| PrintCompileNotRequired
| PrintHeader (workspace : path)
| PrintTotal (total_elapsed : time)
| PrintCleanupError (p : path) (msg : text)
| PrintCleanup (workspace : path) (cleaned : bool).

Section Engine.
Variable workspace : path.
Variable LANGUAGES : list Language.

Definition print_stream (label : text) (data : text) : prog ui unit :=
  emit (PrintStream label data).

Definition when (b : bool) (p : prog ui unit) : prog ui unit :=
  if b then p else ret tt.

Definition run_command (label : text) (c : cmd) (cwd : path) (show_output : bool)
  : prog ui (bool * time) :=
  let cmd_list := c in
  r <- subprocess_run cmd_list cwd None ;;
  match r with
  | Completed out err elapsed =>
      emit (PrintCommand label true cmd_list elapsed) ;;;
      when (show_output || truthy out) (print_stream (utf8 "stdout") out) ;;;
      when (truthy err) (print_stream (utf8 "stderr") err) ;;;
      ret (true, elapsed)
  | FileNotFoundError msg elapsed =>
      emit (PrintCommand label false cmd_list elapsed) ;;;
      emit (PrintError msg) ;;;
      ret (false, elapsed)
  | CalledProcessError rc out err elapsed =>
      emit (PrintCommand label false cmd_list elapsed) ;;;
      when (truthy out) (print_stream (utf8 "stdout") out) ;;;
      when (truthy err) (print_stream (utf8 "stderr") err) ;;;
      ret (false, elapsed)
  | TimeoutExpired _ => raise UncaughtTimeoutExpired
  end.

Definition write_source_file (lang : Language) (workspace : path) : prog ui bool :=
  '(exc, elapsed) <- path_write_text (path_join workspace (filename lang)) (source lang) ;;
  match exc with
  | None =>
      emit (PrintCreate (filename lang) true elapsed) ;;;
      ret true
  | Some msg =>
      emit (PrintCreate (filename lang) false elapsed) ;;;
      emit (PrintError msg) ;;;
      ret false
  end.

(** [run_compile_steps]: the loop, which [break]s at the first failure. *)
Fixpoint compile_loop (cmds : list cmd) (workspace : path) : prog ui bool :=
  match cmds with
  | [] => ret true
  | c :: rest =>
      '(ok, _) <- run_command (utf8 "compile") c workspace false ;;
      if negb ok then ret false else compile_loop rest workspace
  end.

Definition run_compile_steps (lang : Language) (workspace : path) : prog ui bool :=
  compile_loop (compile_cmds lang) workspace.

Definition run_execution (lang : Language) (workspace : path) : prog ui unit :=
  run_command (utf8 "run") (run_cmd lang) workspace true ;;; ret tt.

Definition cleanup_workspace (p : path) (silent : bool) : prog ui bool :=
  present <- path_exists p ;;
  if negb present then ret true
  else
    exc <- shutil_rmtree p ;;
    match exc with
    | None => ret true
    | Some msg =>
        when (negb silent) (emit (PrintCleanupError p msg)) ;;;
        ret false
    end.

Definition process_language (lang : Language) (workspace : path) : prog ui unit :=
  emit (PrintBanner (name lang)) ;;;
  written <- write_source_file lang workspace ;;
  if negb written then ret tt
  else
    match compile_cmds lang with
    | _ :: _ =>
        compiled <- run_compile_steps lang workspace ;;
        if negb compiled then emit PrintRunSkipped
        else run_execution lang workspace
    | [] =>
        emit PrintCompileNotRequired ;;;
        run_execution lang workspace
    end.

(** [for x in xs: body x] *)
Fixpoint for_each {A} (xs : list A) (body : A -> prog ui unit) : prog ui unit :=
  match xs with
  | [] => ret tt
  | x :: rest => body x ;;; for_each rest body
  end.

Definition main : prog ui Z :=
  cleanup_workspace workspace true ;;;
  path_mkdir workspace ;;;
  emit (PrintHeader workspace) ;;;
  total_start <- time_time ;;
  try_finally
    (for_each LANGUAGES (fun lang => process_language lang workspace))
    (t <- time_time ;;
     emit (PrintTotal (t - total_start)%N) ;;;
     cleaned <- cleanup_workspace workspace false ;;
     emit (PrintCleanup workspace cleaned)) ;;;
  ret 0%Z.

End Engine.

(** The table of the script. *)
Definition LANGUAGES : list Language :=
  [ {| name := utf8 "Python";
       filename := utf8 "hello.py";
       source := join newline
         [utf8 "print(" ++ dq ++ utf8 "Hello World" ++ dq ++ utf8 ")";
          []];
       compile_cmds := [];
       run_cmd := [utf8 "python3"; utf8 "hello.py"] |};
    {| name := utf8 "C";
       filename := utf8 "hello.c";
       source := join newline
         [utf8 "#include <stdio.h>";
          utf8 "int main(void){puts(" ++ dq ++ utf8 "Hello World" ++ dq ++ utf8 ");return 0;}";
          []];
       compile_cmds := [[utf8 "gcc"; utf8 "hello.c"; utf8 "-o"; utf8 "hello_c"]];
       run_cmd := [utf8 "./hello_c"] |};
    {| name := utf8 "C++";
       filename := utf8 "hello.cpp";
       source := join newline
         [utf8 "#include <iostream>";
          utf8 "int main(){std::cout<<" ++ dq ++ utf8 "Hello World\n" ++ dq ++ utf8 ";}";
          []];
       compile_cmds := [[utf8 "g++"; utf8 "hello.cpp"; utf8 "-o"; utf8 "hello_cpp"]];
       run_cmd := [utf8 "./hello_cpp"] |};
    {| name := utf8 "Rust";
       filename := utf8 "hello.rs";
       source := join newline
         [utf8 "fn main(){println!(" ++ dq ++ utf8 "Hello World" ++ dq ++ utf8 ");}";
          []];
       compile_cmds := [[utf8 "rustc"; utf8 "hello.rs"; utf8 "-o"; utf8 "hello_rust"]];
       run_cmd := [utf8 "./hello_rust"] |};
    {| name := utf8 "x86-64 Assembly";
       filename := utf8 "hello.asm";
       source := join newline
         [utf8 "section .data";
          utf8 "    msg db " ++ dq ++ utf8 "Hello World" ++ dq ++ utf8 ", 10";
          utf8 "    len equ $ - msg";
          [];
          utf8 "section .text";
          utf8 "    global _start";
          [];
          utf8 "_start:";
          utf8 "    mov rax, 1";
          utf8 "    mov rdi, 1";
          utf8 "    mov rsi, msg";
          utf8 "    mov rdx, len";
          utf8 "    syscall";
          [];
          utf8 "    mov rax, 60";
          utf8 "    xor rdi, rdi";
          utf8 "    syscall";
          []];
       compile_cmds := [[utf8 "nasm"; utf8 "-f"; utf8 "elf64"; utf8 "hello.asm"; utf8 "-o"; utf8 "hello.o"]; [utf8 "ld"; utf8 "hello.o"; utf8 "-o"; utf8 "hello_asm"]];
       run_cmd := [utf8 "./hello_asm"] |} ].

End MultiLang.


(* ================================================================== *)
(** * graphical_hello.py                                               *)
(* ================================================================== *)

Module Graphical.

Record LanguageSpec := {
  name : text;
  filename : text;
  color : text;
  code : text;
  compile_cmds : list cmd;
  run_cmd : cmd;
  keywords : list text
}.

(** [progress] is a Python number: the integers assigned to it and the
    quotient computed after each compile step, here as rationals. *)
Record LanguageState := {
  status : text;
  progress : Q;
  output : text;
  error : text;
  write_time : time;
  compile_time : time;
  run_time : time;
  total_time : time;
  failed : bool
}.

Definition set_status (v : text) (r : LanguageState) : LanguageState :=
  {| status := v; progress := progress r; output := output r; error := error r;
     write_time := write_time r; compile_time := compile_time r;
     run_time := run_time r; total_time := total_time r; failed := failed r |}.
Definition set_progress (v : Q) (r : LanguageState) : LanguageState :=
  {| status := status r; progress := v; output := output r; error := error r;
     write_time := write_time r; compile_time := compile_time r;
     run_time := run_time r; total_time := total_time r; failed := failed r |}.
Definition set_output (v : text) (r : LanguageState) : LanguageState :=
  {| status := status r; progress := progress r; output := v; error := error r;
     write_time := write_time r; compile_time := compile_time r;
     run_time := run_time r; total_time := total_time r; failed := failed r |}.
Definition set_error (v : text) (r : LanguageState) : LanguageState :=
  {| status := status r; progress := progress r; output := output r; error := v;
     write_time := write_time r; compile_time := compile_time r;
     run_time := run_time r; total_time := total_time r; failed := failed r |}.
Definition set_write_time (v : time) (r : LanguageState) : LanguageState :=
  {| status := status r; progress := progress r; output := output r; error := error r;
     write_time := v; compile_time := compile_time r;
     run_time := run_time r; total_time := total_time r; failed := failed r |}.
Definition set_compile_time (v : time) (r : LanguageState) : LanguageState :=
  {| status := status r; progress := progress r; output := output r; error := error r;
     write_time := write_time r; compile_time := v;
     run_time := run_time r; total_time := total_time r; failed := failed r |}.
Definition set_run_time (v : time) (r : LanguageState) : LanguageState :=
  {| status := status r; progress := progress r; output := output r; error := error r;
     write_time := write_time r; compile_time := compile_time r;
     run_time := v; total_time := total_time r; failed := failed r |}.
Definition set_total_time (v : time) (r : LanguageState) : LanguageState :=
  {| status := status r; progress := progress r; output := output r; error := error r;
     write_time := write_time r; compile_time := compile_time r;
     run_time := run_time r; total_time := v; failed := failed r |}.
Definition set_failed (v : bool) (r : LanguageState) : LanguageState :=
  {| status := status r; progress := progress r; output := output r; error := error r;
     write_time := write_time r; compile_time := compile_time r;
     run_time := run_time r; total_time := total_time r; failed := v |}.

(** [LanguageState()] *)
Definition new_state : LanguageState :=
  {| status := utf8 "대기 중"; progress := 0%Q; output := []; error := [];
     write_time := 0; compile_time := 0; run_time := 0; total_time := 0;
     failed := false |}.

(** What reaches the window.
    - [Update index state]: the state object of language [index] now holds
      [state], and [self.root.after(0, lambda: self._update_panel(index,
      state))] is called.  Every group of assignments to the object is
      followed by such a call before the thread makes its next request, so
      the object holds the state of its last [Update] whenever the thread is
      waiting, has returned or has died.  The panel shows the object as it is
      when the scheduled call runs, which is then or later.
    - [GlobalStatus]: the line set by [_finish_execution]. *)
Inductive ui :=
| Update (index : nat) (state : LanguageState)
| GlobalStatus (success_count fail_count : nat) (total_time : time) (cleaned : bool).

Section Engine.
Variable str_exc : cmd -> Z -> text.
Variable workspace : path.
Variable LANGUAGES : list LanguageSpec.

Definition run_subprocess (c : cmd) (cwd : path)
  : prog ui (bool * time * text * text) :=
  r <- subprocess_run c cwd limit_30s ;;
  ret match r with
      | Completed out err elapsed => (true, elapsed, strip out, strip err)
      | CalledProcessError rc out err elapsed =>
          (false, elapsed, por out [], por err (str_exc c rc))
      | FileNotFoundError msg elapsed => (false, elapsed, [], msg)
      | TimeoutExpired elapsed =>
          (false, elapsed, [], utf8 "타임아웃 (30초 초과)")
      end.

Definition update (index : nat) (state : LanguageState) : prog ui unit :=
  emit (Update index state).

(** The loop [for i, cmd in enumerate(spec.compile_cmds)].  It gives [inl tt]
    when a step failed and [_execute_language] returned from inside the loop,
    [inr (state, compile_total)] when the loop ran to its end. *)
Fixpoint compile_loop (index n_cmds i : nat) (state : LanguageState)
    (compile_total : time) (cmds : list cmd)
  : prog ui (unit + LanguageState * time) :=
  match cmds with
  | [] => ret (inr (state, compile_total))
  | c :: rest =>
      '(success, elapsed, stdout, stderr) <- run_subprocess c workspace ;;
      let compile_total := (compile_total + elapsed)%N in
      if negb success then
        let state := set_status (utf8 "컴파일 실패") state in
        let state := set_error (por stderr stdout) state in
        let state := set_failed true state in
        let state := set_compile_time compile_total state in
        let state := set_total_time (write_time state + compile_time state)%N state in
        update index state ;;;
        ret (inl tt)
      else
        let state :=
          set_progress (40 + inject_Z (30 * (Z.of_nat i + 1)) / inject_Z (Z.of_nat n_cmds))%Q
                       state in
        update index state ;;;
        compile_loop index n_cmds (S i) state compile_total rest
  end.

(** Step 3 of [_execute_language]. *)
Definition run_stage (index : nat) (spec : LanguageSpec) (state : LanguageState)
  : prog ui unit :=
  let state := set_status (utf8 "실행 중...") state in
  let state := set_progress 85%Q state in
  update index state ;;;
  '(success, elapsed, stdout, stderr) <- run_subprocess (run_cmd spec) workspace ;;
  let state := set_run_time elapsed state in
  let state :=
    set_total_time (write_time state + compile_time state + run_time state)%N state in
  let state :=
    if success then
      let state := set_status (utf8 "실행 완료") state in
      let state := set_output (por stdout (utf8 "(출력 없음)")) state in
      set_progress 100%Q state
    else
      let state := set_status (utf8 "실행 실패") state in
      let state := set_error (por stderr stdout) state in
      let state := set_failed true state in
      set_progress 100%Q state in
  update index state.

(** [_execute_language(index)], on the fresh state object of the language. *)
Definition execute_language (index : nat) : prog ui unit :=
  match nth_error LANGUAGES index with
  | None => raise IndexError
  | Some spec =>
      let state := new_state in
      let state := set_status (utf8 "소스 파일 작성 중...") state in
      let state := set_progress 10%Q state in
      update index state ;;;
      '(exc, elapsed) <-
        path_write_text (path_join workspace (filename spec)) (code spec) ;;
      match exc with
      | Some msg =>
          let state := set_status (utf8 "파일 작성 실패") state in
          let state := set_error msg state in
          let state := set_failed true state in
          update index state
      | None =>
          let state := set_write_time elapsed state in
          let state := set_progress 25%Q state in
          update index state ;;;
          match compile_cmds spec with
          | [] =>
              let state := set_progress 70%Q state in
              update index state ;;;
              run_stage index spec state
          | _ :: _ =>
              let state := set_status (utf8 "컴파일 중...") state in
              let state := set_progress 40%Q state in
              update index state ;;;
              r <- compile_loop index (List.length (compile_cmds spec)) 0 state 0%N
                                (compile_cmds spec) ;;
              match r with
              | inl _ => ret tt
              | inr (state, compile_total) =>
                  let state := set_compile_time compile_total state in
                  let state := set_progress 70%Q state in
                  update index state ;;;
                  run_stage index spec state
              end
          end
      end
  end.

(** The states given to the state object of language [index] by the events
    of [l], in order. *)
Definition updates_of (index : nat) (l : list (event ui)) : list LanguageState :=
  flat_map (fun e => match e with
                     | Ui (Update i s) => if Nat.eqb i index then [s] else []
                     | _ => []
                     end) l.

(** The state object of language [index] after the events of [l]. *)
Definition state_after (l : list (event ui)) (index : nat) : LanguageState :=
  last (updates_of index l) new_state.

Definition states_after (l : list (event ui)) : list LanguageState :=
  map (state_after l) (seq 0 (List.length LANGUAGES)).

(** Whether a state is the one a pipeline ends in when its run command
    succeeded. *)
Definition succeeded (s : LanguageState) : bool := text_eqb (status s) (utf8 "실행 완료").

(** [_finish_execution(total_time, cleanup_status)] *)
Definition finish_execution (states : list LanguageState) (total_time : time)
    (cleaned : bool) : ui :=
  let success_count := List.length (filter (fun s => negb (failed s)) states) in
  let fail_count := List.length states - success_count in
  GlobalStatus success_count fail_count total_time cleaned.

(** The threads of [run_all]: one per language, started in order, running
    together as [sched] tells, and joined. *)
Definition run_threads {os : OS} (sched : list nat) (w : world os)
  : res unit * world os * list (event ui) :=
  let threads := map execute_language (seq 0 (List.length LANGUAGES)) in
  let '(pool, w, l1) := run_pool sched threads w in
  let '(out, w, l2) := join_all pool w in
  (out, w, l1 ++ l2).

(** The thread [run_all] of [_start_execution]: the threads of the
    languages, and then the clean-up and the summary. *)
Definition run_all {os : OS} (sched : list nat) (w : world os)
  : res unit * world os * list (event ui) :=
  let '(total_start, w) := perform os RNow w in
  let '(out, w, l) := run_threads sched w in
  match out with
  | Ret _ =>
      let '(t, w) := perform os RNow w in
      let total_elapsed := (t - total_start)%N in
      let '(exc, w) := perform os (RRmtree workspace) w in
      let cleaned := match exc with None => true | Some _ => false end in
      (Ret tt, w,
       l ++ [Os (Rmtree workspace exc);
             Ui (finish_execution (states_after l) total_elapsed cleaned)])
  | Raise e => (Raise e, w, l)
  | Block => (Block, w, l)
  end.

(** [_start_execution], when no run is under way. *)
Definition start_execution {os : OS} (sched : list nat) (w : world os)
  : res unit * world os * list (event ui) :=
  let init : prog ui unit :=
    present <- path_exists workspace ;;
    (if present
     then exc <- shutil_rmtree workspace ;;
          match exc with None => ret tt | Some msg => raise (OSError msg) end
     else ret tt) ;;;
    path_mkdir workspace in
  let '(out, w, l0) := run init w in
  match out with
  | Ret _ => let '(out, w, l) := run_all sched w in (out, w, l0 ++ l)
  | _ => (out, w, l0)
  end.

End Engine.

(** The table of the script. *)
Definition LANGUAGES : list LanguageSpec :=
  [ {| name := utf8 "C";
       filename := utf8 "hello.c";
       color := utf8 "#00b4d8";
       code := join newline
         [utf8 "#include <stdio.h>";
          [];
          utf8 "int main(void) {";
          utf8 "    // 인사말 메시지 정의";
          utf8 "    const char *message = " ++ dq ++ utf8 "Hello World" ++ dq ++ utf8 ";";
          [];
          utf8 "    // 표준 출력으로 출력";
          utf8 "    puts(message);";
          [];
          utf8 "    return 0;  // 성공적 종료";
          utf8 "}"];
       compile_cmds := [[utf8 "gcc"; utf8 "hello.c"; utf8 "-o"; utf8 "hello_c"]];
       run_cmd := [utf8 "./hello_c"];
       keywords := [utf8 "int"; utf8 "void"; utf8 "const"; utf8 "char"; utf8 "return"; utf8 "#include"] |};
    {| name := utf8 "C++";
       filename := utf8 "hello.cpp";
       color := utf8 "#9d4edd";
       code := join newline
         [utf8 "#include <iostream>";
          utf8 "#include <string>";
          [];
          utf8 "int main() {";
          utf8 "    // C++ 문자열 사용";
          utf8 "    std::string message = " ++ dq ++ utf8 "Hello World" ++ dq ++ utf8 ";";
          [];
          utf8 "    // cout으로 출력";
          utf8 "    std::cout << message << std::endl;";
          [];
          utf8 "    return 0;  // 성공적 종료";
          utf8 "}"];
       compile_cmds := [[utf8 "g++"; utf8 "hello.cpp"; utf8 "-o"; utf8 "hello_cpp"]];
       run_cmd := [utf8 "./hello_cpp"];
       keywords := [utf8 "int"; utf8 "return"; utf8 "std"; utf8 "#include"] |};
    {| name := utf8 "Rust";
       filename := utf8 "hello.rs";
       color := utf8 "#ff6b35";
       code := join newline
         [utf8 "fn main() {";
          utf8 "    // 불변 문자열 슬라이스";
          utf8 "    let message = " ++ dq ++ utf8 "Hello World" ++ dq ++ utf8 ";";
          [];
          utf8 "    // println! 매크로로 출력";
          utf8 "    println!(" ++ dq ++ utf8 "{}" ++ dq ++ utf8 ", message);";
          utf8 "}"];
       compile_cmds := [[utf8 "rustc"; utf8 "hello.rs"; utf8 "-o"; utf8 "hello_rust"]];
       run_cmd := [utf8 "./hello_rust"];
       keywords := [utf8 "fn"; utf8 "let"; utf8 "println"] |};
    {| name := utf8 "Assembly";
       filename := utf8 "hello.asm";
       color := utf8 "#ffd60a";
       code := join newline
         [utf8 "section .data";
          utf8 "    msg db " ++ dq ++ utf8 "Hello World" ++ dq ++ utf8 ", 10";
          utf8 "    len equ $ - msg";
          [];
          utf8 "section .text";
          utf8 "    global _start";
          [];
          utf8 "_start:";
          utf8 "    ; write(1, msg, len)";
          utf8 "    mov rax, 1      ; syscall: write";
          utf8 "    mov rdi, 1      ; stdout";
          utf8 "    mov rsi, msg    ; buffer";
          utf8 "    mov rdx, len    ; length";
          utf8 "    syscall";
          [];
          utf8 "    ; exit(0)";
          utf8 "    mov rax, 60     ; syscall: exit";
          utf8 "    xor rdi, rdi    ; status: 0";
          utf8 "    syscall"];
       compile_cmds := [[utf8 "nasm"; utf8 "-f"; utf8 "elf64"; utf8 "hello.asm"; utf8 "-o"; utf8 "hello.o"]; [utf8 "ld"; utf8 "hello.o"; utf8 "-o"; utf8 "hello_asm"]];
       run_cmd := [utf8 "./hello_asm"];
       keywords := [utf8 "section"; utf8 "global"; utf8 "mov"; utf8 "syscall"; utf8 "db"; utf8 "equ"; utf8 "xor"] |} ].

End Graphical.


(* ================================================================== *)
(** * animated_hello.py                                                *)
(* ================================================================== *)

Module Animated.

(** An entry of [LANGUAGES]. *)
Record Language := {
  name : text;
  filename : text;
  color : text;
  code : text;
  compile_cmds : list cmd;
  run_cmd : cmd;
  syntax : text
}.

(** [send_event(event_type, lang_idx, payload)], one constructor for each
    event type.  The formatted numbers of the [timing] text and of the [done]
    message are kept as numbers. *)
Inductive ui :=
| EvStep (step : nat) (message : text)
| EvStatus (idx : nat) (txt : text)
| EvCursorShow (idx : nat)
| EvCursorHide (idx : nat)
| EvProgress (idx : nat) (percent : Z)
| EvCodeLine (idx : nat) (line : text)
| EvCompileStart (idx : nat) (cmd_str : text)
| EvCompileError (idx : nat) (cmd_str : text) (error : text)
| EvCompileDone (idx : nat) (cmd_str : text) (elapsed : time)
| EvRunStart (idx : nat) (cmd_str : text)
| EvRunDone (idx : nat) (cmd_str : text) (output : text) (elapsed : time)
| EvRunError (idx : nat) (cmd_str : text) (error : text)
| EvTiming (idx : nat) (write compile run total : time)
| EvDone (success_count total : nat).

(** [s.split('\n')] *)
Fixpoint split_aux (cur : text) (s : text) : list text :=
  match s with
  | [] => [rev cur]
  | c :: r => if (c =? 10)%N then rev cur :: split_aux [] r else split_aux (c :: cur) r
  end.
Definition split_newline (s : text) : list text := split_aux [] s.

(** [s.replace('./', '')] *)
Fixpoint remove_dot_slash (s : text) : text :=
  match s with
  | 46%N :: 47%N :: r => remove_dot_slash r
  | c :: r => c :: remove_dot_slash r
  | [] => []
  end.

Definition float_of_nat (n : nat) : float := PrimFloat.of_uint63 (Uint63.of_Z (Z.of_nat n)).

(** [int(x)] for a float that is finite and not negative. *)
Definition int_of_float (x : float) : Z :=
  match Prim2SF x with
  | S754_finite false m e =>
      if (0 <=? e)%Z then Z.shiftl (Zpos m) e else Z.shiftr (Zpos m) (- e)
  | _ => 0%Z
  end.

(** [int((line_num + 1) / len(lines) * 30)], in double precision. *)
Definition typing_progress (line_num n_lines : nat) : Z :=
  int_of_float
    (PrimFloat.mul (PrimFloat.div (float_of_nat (line_num + 1)) (float_of_nat n_lines))
                   (float_of_nat 30)).

Section Engine.
Variable str_exc : cmd -> Z -> text.
Variable WORKSPACE : path.
Variable LANGUAGES : list Language.

Definition send_event (u : ui) : prog ui unit := emit u.

Definition run_subprocess (c : cmd) (cwd : path)
  : prog ui (bool * time * text * text) :=
  r <- subprocess_run c cwd limit_30s ;;
  ret match r with
      | Completed out err elapsed => (true, elapsed, strip out, strip err)
      | CalledProcessError rc out err elapsed =>
          (false, elapsed, por out [], por err (str_exc c rc))
      | FileNotFoundError _ elapsed =>
          (false, elapsed, [], utf8 "명령어를 찾을 수 없음: " ++ hd [] c)
      | TimeoutExpired elapsed => (false, elapsed, [], utf8 "타임아웃")
      end.

(** [for idx, x in enumerate(xs): body idx x] *)
Fixpoint for_enumerate {A} (idx : nat) (xs : list A) (body : nat -> A -> prog ui unit)
  : prog ui unit :=
  match xs with
  | [] => ret tt
  | x :: rest => body idx x ;;; for_enumerate (S idx) rest body
  end.

(** [for x in xs: body x] *)
Fixpoint for_each {A} (xs : list A) (body : A -> prog ui unit) : prog ui unit :=
  match xs with
  | [] => ret tt
  | x :: rest => body x ;;; for_each rest body
  end.

(** Step 1: the typing animation. *)
Definition step1 : prog ui unit :=
  send_event (EvStep 1 (utf8 "📝 Step 1: 코드 작성 중...")) ;;;
  for_enumerate 0 LANGUAGES (fun idx _ =>
    send_event (EvStatus idx (utf8 "작성 중...")) ;;;
    send_event (EvCursorShow idx) ;;;
    send_event (EvProgress idx 0)) ;;;
  let code_lines := map (fun lang => split_newline (code lang)) LANGUAGES in
  (* [max(...)] of an empty sequence *)
  (match code_lines with [] => raise ValueError | _ :: _ => ret tt end) ;;;
  let max_lines := fold_right Nat.max 0 (map (@List.length text) code_lines) in
  for_each (seq 0 max_lines) (fun line_num =>
    for_enumerate 0 code_lines (fun idx lines =>
      match nth_error lines line_num with
      | Some line =>
          send_event (EvCodeLine idx line) ;;;
          let progress := typing_progress line_num (List.length lines) in
          send_event (EvProgress idx progress)
      | None => ret tt
      end)) ;;;
  for_each (seq 0 (List.length LANGUAGES)) (fun idx =>
    send_event (EvCursorHide idx) ;;;
    send_event (EvStatus idx (utf8 "✅ 작성 완료"))).

(** Step 2, the loop over the compile commands of one language: the total
    time, whether a step failed, and the text of the last command started. *)
Fixpoint compile_loop (idx : nat) (compile_total : time) (last_cmd_str : text)
    (cmds : list cmd) : prog ui (time * bool * text) :=
  match cmds with
  | [] => ret (compile_total, false, last_cmd_str)
  | c :: rest =>
      let cmd_str := join (utf8 " ") c in
      let last_cmd_str := cmd_str in
      send_event (EvCompileStart idx cmd_str) ;;;
      '(success, elapsed, stdout, stderr) <- run_subprocess c WORKSPACE ;;
      let compile_total := (compile_total + elapsed)%N in
      if negb success then
        send_event (EvCompileError idx cmd_str (upto 100 stderr)) ;;;
        send_event (EvStatus idx (utf8 "❌ 컴파일 실패")) ;;;
        ret (compile_total, true, last_cmd_str)
      else compile_loop idx compile_total last_cmd_str rest
  end.

(** Step 2, the body of the loop over the languages; [timings] is
    [timings[idx]]. *)
Definition step2_body (idx : nat) (lang : Language) (timings : dict) : prog ui dict :=
  send_event (EvStatus idx (utf8 "컴파일 중...")) ;;;
  send_event (EvProgress idx 30) ;;;
  '(exc, elapsed) <- path_write_text (path_join WORKSPACE (filename lang)) (code lang) ;;
  match exc with
  | Some msg => raise (OSError msg)
  | None =>
      let timings := dict_set timings (utf8 "write") elapsed in
      '(compile_total, failed, last_cmd_str) <-
        compile_loop idx 0%N [] (compile_cmds lang) ;;
      let timings := dict_set timings (utf8 "compile") compile_total in
      (if negb failed then
         send_event (EvCompileDone idx last_cmd_str compile_total) ;;;
         send_event (EvStatus idx (utf8 "✅ 컴파일 완료")) ;;;
         send_event (EvProgress idx 70)
       else
         send_event (EvProgress idx 100)) ;;;
      ret timings
  end.

(** Step 3, the body of the loop over the languages. *)
Definition step3_body (idx : nat) (lang : Language) (timings : dict) : prog ui dict :=
  skip <-
    (if (dict_get_default timings (utf8 "compile") 0 =? 0)%N
     then
       (* [lang["run_cmd"][0]] *)
       match run_cmd lang with
       | [] => raise IndexError
       | program :: _ =>
           let binary := path_join WORKSPACE (remove_dot_slash program) in
           present <- path_exists binary ;; ret (negb present)
       end
     else ret false) ;;
  if skip then
    (* the comment of the script here: skip when compilation failed *)
    ret timings
  else
    let run_cmd_str := join (utf8 " ") (run_cmd lang) in
    send_event (EvStatus idx (utf8 "실행 중...")) ;;;
    send_event (EvRunStart idx run_cmd_str) ;;;
    send_event (EvProgress idx 85) ;;;
    '(success, elapsed, stdout, stderr) <- run_subprocess (run_cmd lang) WORKSPACE ;;
    let timings := dict_set timings (utf8 "run") elapsed in
    (if success then
       send_event (EvRunDone idx run_cmd_str stdout elapsed) ;;;
       send_event (EvStatus idx (utf8 "✅ 실행 완료"))
     else
       send_event (EvRunError idx run_cmd_str (upto 100 stderr)) ;;;
       send_event (EvStatus idx (utf8 "❌ 실행 실패"))) ;;;
    send_event (EvProgress idx 100) ;;;
    let total := dict_sum timings in
    send_event (EvTiming idx (dict_get_default timings (utf8 "write") 0)
                         (dict_get_default timings (utf8 "compile") 0)
                         (dict_get_default timings (utf8 "run") 0) total) ;;;
    ret timings.

(** [for idx, lang in enumerate(LANGUAGES): body on timings[idx]] *)
Fixpoint for_languages (body : nat -> Language -> dict -> prog ui dict)
    (idx : nat) (langs : list Language) (timings : list dict) : prog ui (list dict) :=
  match langs, timings with
  | lang :: langs', t :: timings' =>
      t' <- body idx lang t ;;
      rest <- for_languages body (S idx) langs' timings' ;;
      ret (t' :: rest)
  | _, _ => ret timings
  end.

(** [sum(1 for t in timings if t.get('run', 0) > 0)] *)
Definition success_count (timings : list dict) : nat :=
  List.length (filter (fun t => (0 <? dict_get_default t (utf8 "run") 0)%N) timings).

(** [run_animation].  The script returns nothing; the model returns the
    list [timings]. *)
Definition run_animation : prog ui (list dict) :=
  present <- path_exists WORKSPACE ;;
  (if present
   then exc <- shutil_rmtree WORKSPACE ;;
        match exc with None => ret tt | Some msg => raise (OSError msg) end
   else ret tt) ;;;
  path_mkdir WORKSPACE ;;;
  let timings := map (fun _ => ([] : dict)) LANGUAGES in
  step1 ;;;
  send_event (EvStep 2 (utf8 "⚙️ Step 2: 컴파일 중...")) ;;;
  timings <- for_languages step2_body 0 LANGUAGES timings ;;
  send_event (EvStep 3 (utf8 "🚀 Step 3: 실행 중...")) ;;;
  timings <- for_languages step3_body 0 LANGUAGES timings ;;
  send_event (EvStep 4 (utf8 "🏁 Step 4: 완료!")) ;;;
  shutil_rmtree WORKSPACE ;;;
  send_event (EvDone (success_count timings) (List.length LANGUAGES)) ;;;
  ret timings.

End Engine.

(** The table of the script. *)
Definition LANGUAGES : list Language :=
  [ {| name := utf8 "C";
       filename := utf8 "hello.c";
       color := utf8 "#00b4d8";
       code := join newline
         [utf8 "#include <stdio.h>";
          [];
          utf8 "int main(void) {";
          utf8 "    // 인사말 메시지 정의";
          utf8 "    const char *message = " ++ dq ++ utf8 "Hello World" ++ dq ++ utf8 ";";
          [];
          utf8 "    // 표준 출력으로 출력";
          utf8 "    puts(message);";
          [];
          utf8 "    return 0;";
          utf8 "}"];
       compile_cmds := [[utf8 "gcc"; utf8 "hello.c"; utf8 "-o"; utf8 "hello_c"]];
       run_cmd := [utf8 "./hello_c"];
       syntax := utf8 "c" |};
    {| name := utf8 "C++";
       filename := utf8 "hello.cpp";
       color := utf8 "#9d4edd";
       code := join newline
         [utf8 "#include <iostream>";
          utf8 "#include <string>";
          [];
          utf8 "int main() {";
          utf8 "    // C++ 문자열 사용";
          utf8 "    std::string message = " ++ dq ++ utf8 "Hello World" ++ dq ++ utf8 ";";
          [];
          utf8 "    // cout으로 출력";
          utf8 "    std::cout << message << std::endl;";
          [];
          utf8 "    return 0;";
          utf8 "}"];
       compile_cmds := [[utf8 "g++"; utf8 "hello.cpp"; utf8 "-o"; utf8 "hello_cpp"]];
       run_cmd := [utf8 "./hello_cpp"];
       syntax := utf8 "cpp" |};
    {| name := utf8 "Rust";
       filename := utf8 "hello.rs";
       color := utf8 "#ff6b35";
       code := join newline
         [utf8 "fn main() {";
          utf8 "    // 불변 문자열 슬라이스";
          utf8 "    let message = " ++ dq ++ utf8 "Hello World" ++ dq ++ utf8 ";";
          [];
          utf8 "    // println! 매크로로 출력";
          utf8 "    println!(" ++ dq ++ utf8 "{}" ++ dq ++ utf8 ", message);";
          utf8 "}"];
       compile_cmds := [[utf8 "rustc"; utf8 "hello.rs"; utf8 "-o"; utf8 "hello_rust"]];
       run_cmd := [utf8 "./hello_rust"];
       syntax := utf8 "rust" |};
    {| name := utf8 "Assembly";
       filename := utf8 "hello.asm";
       color := utf8 "#ffd60a";
       code := join newline
         [utf8 "section .data";
          utf8 "    msg db " ++ dq ++ utf8 "Hello World" ++ dq ++ utf8 ", 10";
          utf8 "    len equ $ - msg";
          [];
          utf8 "section .text";
          utf8 "    global _start";
          [];
          utf8 "_start:";
          utf8 "    mov rax, 1";
          utf8 "    mov rdi, 1";
          utf8 "    mov rsi, msg";
          utf8 "    mov rdx, len";
          utf8 "    syscall";
          [];
          utf8 "    mov rax, 60";
          utf8 "    xor rdi, rdi";
          utf8 "    syscall"];
       compile_cmds := [[utf8 "nasm"; utf8 "-f"; utf8 "elf64"; utf8 "hello.asm"; utf8 "-o"; utf8 "hello.o"]; [utf8 "ld"; utf8 "hello.o"; utf8 "-o"; utf8 "hello_asm"]];
       run_cmd := [utf8 "./hello_asm"];
       syntax := utf8 "nasm" |} ].

End Animated.


(* ================================================================== *)
(** * Reading the events of the front ends                             *)
(* ================================================================== *)

(** The error text the educational dashboard keeps for a failed launch. *)
Definition edu_error_text (b : behaviour) : text :=
  match b with
  | Exits _ out err _ => por (strip err) (strip out)
  | NotFound msg _ => msg
  | _ => []
  end.

(** The error text [run_subprocess] of the animated variant gives for a
    failed launch of [c]. *)
Definition anim_error_text (str_exc : cmd -> Z -> text) (c : cmd) (b : behaviour) : text :=
  match b with
  | Exits rc out err d =>
      if expired limit_30s d then utf8 "타임아웃" else por err (str_exc c rc)
  | NotFound _ _ => utf8 "명령어를 찾을 수 없음: " ++ hd [] c
  | Hangs => utf8 "타임아웃"
  | LaunchError _ => []
  end.

(** The [compile_done] events of language [idx]. *)
Definition compile_done_count (idx : nat) (us : list Animated.ui) : nat :=
  List.length (filter (fun u => match u with
                                | Animated.EvCompileDone i _ _ => Nat.eqb i idx
                                | _ => false
                                end) us).

(** The [compile_start] events of language [idx]. *)
Definition compile_start_count (idx : nat) (us : list Animated.ui) : nat :=
  List.length (filter (fun u => match u with
                                | Animated.EvCompileStart i _ => Nat.eqb i idx
                                | _ => false
                                end) us).

(** The [compile_error] events of language [idx]: command and error text. *)
Definition compile_errors (idx : nat) (us : list Animated.ui) : list (text * text) :=
  flat_map (fun u => match u with
                     | Animated.EvCompileError i c e => if Nat.eqb i idx then [(c, e)] else []
                     | _ => []
                     end) us.

(** Whether a [run_start] event of language [idx] was sent. *)
Definition run_started (idx : nat) (us : list Animated.ui) : bool :=
  existsb (fun u => match u with
                    | Animated.EvRunStart i _ => Nat.eqb i idx
                    | _ => false
                    end) us.

(** The percentages of the [progress] events of language [idx], in order. *)
Definition progress_of (idx : nat) (us : list Animated.ui) : list Z :=
  flat_map (fun u => match u with
                     | Animated.EvProgress i p => if Nat.eqb i idx then [p] else []
                     | _ => []
                     end) us.

(** The advances of the progress bar of language [index] in the
    educational dashboard. *)
Definition advance_count (index : nat) (us : list Educational.ui) : nat :=
  List.length (filter (fun u => match u with
                                | Educational.Advance i => Nat.eqb i index
                                | _ => false
                                end) us).

Fixpoint nondecreasing (l : list Z) : bool :=
  match l with
  | x :: ((y :: _) as rest) => (x <=? y)%Z && nondecreasing rest
  | _ => true
  end.


(* ================================================================== *)
(** * Example machines                                                 *)
(* ================================================================== *)

(** [str(e)] of a [CalledProcessError] for a command whose arguments need no
    escaping and a positive return code. *)
Definition str_called_process_error (c : cmd) (rc : Z) : text :=
  utf8 "Command '[" ++ join (utf8 ", ") (map (fun a => utf8 "'" ++ a ++ utf8 "'") c)
    ++ utf8 "]' returned non-zero exit status " ++ str_of_nat (Z.to_nat rc) ++ utf8 ".".

(** The file named after [-o] on a command line. *)
Fixpoint output_of (c : cmd) : list text :=
  match c with
  | a :: ((b :: _) as rest) => if text_eqb a (utf8 "-o") then [b] else output_of rest
  | _ => []
  end.

Definition hello_out : text := utf8 "Hello World" ++ newline.

(** Tools that work: a command with [-o] writes that file and prints
    nothing, any other command prints the greeting. *)
Definition working_tool (c : cmd) : behaviour * list text :=
  match output_of c with
  | [] => (Exits 0 hello_out [] 1500%N, [])
  | made => (Exits 0 [] [] 120000%N, made)
  end.

(** The same, except that launching the program [name] does [b]. *)
Definition broken_tool (name : text) (b : behaviour) (c : cmd) : behaviour * list text :=
  if text_eqb (hd [] c) name then (b, []) else working_tool c.

Definition machine_of (tool : cmd -> behaviour * list text) : machine :=
  {| tool := tool; write_error := None; rmtree_error := None; files := []; clock := 0 |}.

Definition example_workspace : path := utf8 "/home/demo/workspace".

(** The linker fails: [ld] exits with status 1 after 0.9 ms. *)
Definition ld_failure : behaviour :=
  Exits 1 [] (utf8 "ld: cannot find hello.o: No such file or directory" ++ newline) 900%N.

Definition machine_ld_fails : machine := machine_of (broken_tool (utf8 "ld") ld_failure).

(** [compile_start] events for the commands [cmds] of language [idx]. *)
Definition compile_starts (idx : nat) (cmds : list cmd) : list Animated.ui :=
  map (fun c => Animated.EvCompileStart idx (join (utf8 " ") c)) cmds.

(** The assembly entries of the tables, the ones with two compile steps. *)
Definition edu_assembly : Educational.LanguageSpec :=
  nth 3 Educational.LANGUAGES (Educational.Build_LanguageSpec [] [] [] [] [] []).

Definition anim_assembly : Animated.Language :=
  nth 3 Animated.LANGUAGES (Animated.Build_Language [] [] [] [] [] [] []).

(** The Python entry of the table of [multi_lang_hello.py], the one without
    compile commands. *)
Definition multilang_python : MultiLang.Language :=
  nth 0 MultiLang.LANGUAGES (MultiLang.Build_Language [] [] [] [] []).

Definition machine_working : machine := machine_of working_tool.

Definition gcc_cmd : cmd := [utf8 "gcc"; utf8 "hello.c"; utf8 "-o"; utf8 "hello_c"].

(** The compiler needs 45 seconds, and then exits with status 0. *)
Definition machine_slow_gcc : machine :=
  machine_of (broken_tool (utf8 "gcc") (Exits 0 [] [] (seconds 45))).

(** The compiler never ends. *)
Definition machine_gcc_hangs : machine := machine_of (broken_tool (utf8 "gcc") Hangs).

(** The compiler is not installed, and so the program it would have built
    is not there either. *)
Definition gcc_missing : behaviour :=
  NotFound (utf8 "[Errno 2] No such file or directory: 'gcc'") 700%N.

Definition hello_c_missing : behaviour :=
  NotFound (utf8 "[Errno 2] No such file or directory: './hello_c'") 300%N.

Definition machine_gcc_missing : machine :=
  machine_of (fun c => if text_eqb (hd [] c) (utf8 "./hello_c")
                       then (hello_c_missing, [])
                       else broken_tool (utf8 "gcc") gcc_missing c).

(** The compiler exits with status 1 and reports on its standard output. *)
Definition gcc_stdout_error : behaviour :=
  Exits 1 (utf8 "hello.c:5:5: error: expected ';' before 'return'" ++ newline) [] 52000%N.

Definition machine_gcc_stdout_error : machine :=
  machine_of (broken_tool (utf8 "gcc") gcc_stdout_error).

(** The compiler exits with status 1 and reports on its standard error. *)
Definition gcc_stderr_error : behaviour :=
  Exits 1 [] (utf8 "hello.c:5:5: error: expected ';' before 'return'" ++ newline) 52000%N.

Definition machine_gcc_stderr_error : machine :=
  machine_of (broken_tool (utf8 "gcc") gcc_stderr_error).

(** How a run ended. *)
Definition outcome {os : OS} {U A : Type} (x : res A * world os * list (event U)) : res A :=
  fst (fst x).

(** The state of the machine after a run. *)
Definition final {os : OS} {U A : Type} (x : res A * world os * list (event U)) : world os :=
  snd (fst x).

(** The record of a run. *)
Definition record {os : OS} {U A : Type} (x : res A * world os * list (event U))
  : list (event U) := snd x.

(** The percentages of the panel updates of language [index] in the
    graphical variant, in order. *)
Definition panel_progress (index : nat) (us : list Graphical.ui) : list Q :=
  flat_map (fun u => match u with
                     | Graphical.Update i s =>
                         if Nat.eqb i index then [Graphical.progress s] else []
                     | _ => []
                     end) us.

(** The C entries of the tables. *)
Definition edu_c : Educational.LanguageSpec :=
  nth 0 Educational.LANGUAGES (Educational.Build_LanguageSpec [] [] [] [] [] []).

(** The percentage the graphical variant shows after compile step [i]
    (counted from 0) of [n]: the exact value of [40 + 30 * (i + 1) / n].
    The script computes it in floating point, which gives this very number
    when it is a whole number, as it is for every step when [n] divides
    30, and a number next to it otherwise. *)
Definition band (n i : nat) : Q :=
  (40 + inject_Z (30 * (Z.of_nat i + 1)) / inject_Z (Z.of_nat n))%Q.



(** The successive percentages of a pipeline of the graphical variant with
    [n] compile commands: the write fails; there is nothing to compile; a
    compile step fails after [j] steps; all the steps succeed. *)
Definition graphical_shape (n : nat) (ps : list Q) : Prop :=
  ps = [10; 10]%Q
  \/ (n = 0 /\ ps = [10; 25; 70; 85; 100]%Q)
  \/ (exists j, j < n
        /\ ps = [10; 25; 40]%Q ++ map (band n) (seq 0 j)
                 ++ [last (map (band n) (seq 0 j)) 40%Q])
  \/ (0 < n /\ ps = [10; 25; 40]%Q ++ map (band n) (seq 0 n) ++ [70; 85; 100]%Q).

(** A launch that raised an error no front end catches. *)
Definition launch_raised {U : Type} (e : event U) : bool :=
  match e with
  | Os (Spawn _ _ _ (LaunchError _)) => true
  | _ => false
  end.



(* ================================================================== *)
(** * What a program may ask for                                       *)
(* ================================================================== *)

(** The request behind a recorded call. *)
Definition req_of (c : oscall) : req :=
  match c with
  | Spawn c cwd limit _ => RSpawn c cwd limit
  | WriteText p content _ => RWriteText p content
  | Rmtree p _ => RRmtree p
  | Mkdir p _ => RMkdir p
  end.

(** [confined rq ev may_block p]: every request of [p] satisfies [rq], every
    event it records satisfies [ev], and [p] has a call that never returns
    only if [may_block]. *)
Fixpoint confined {U A : Type} (rq : req -> Prop) (ev : U -> Prop) (may_block : Prop)
    (p : prog U A) : Prop :=
  match p with
  | PRet _ => True
  | PRaise _ => True
  | PBlock => may_block
  | PCall r k => rq r /\ forall x, confined rq ev may_block (k x)
  | PEmit u k => ev u /\ confined rq ev may_block k
  end.

Definition event_confined {U : Type} (rq : req -> Prop) (ev : U -> Prop)
    (e : event U) : Prop :=
  match e with
  | Os c => rq (req_of c)
  | Ui u => ev u
  end.

(** The requests of a pipeline: launching a command, writing a file. *)
Definition pipeline_request (r : req) : Prop :=
  match r with
  | RSpawn _ _ _ => True
  | RWriteText _ _ => True
  | _ => False
  end.

(** The events of the thread of language [index] in the graphical variant:
    updates of its own panel. *)
Definition panel_update (index : nat) (u : Graphical.ui) : Prop :=
  match u with
  | Graphical.Update i _ => i = index
  | _ => False
  end.

(** A thread of the graphical variant: it launches and writes, updates its
    own panel, and every call it makes returns. *)
Definition thread_ok (index : nat) (p : prog Graphical.ui unit) : Prop :=
  confined pipeline_request (panel_update index) False p.

(** The threads of a pool, numbered from [base]. *)
Definition pool_ok (base : nat) (pool : list (prog Graphical.ui unit)) : Prop :=
  forall i p, nth_error pool i = Some p -> thread_ok (base + i) p.

(** [p] becomes [p'] by making the calls and recording the events of [l]. *)
Definition advances {U A : Type} (p : prog U A) (l : list (event U)) (p' : prog U A)
  : Prop :=
  forall rest out, traces p' rest out -> traces p (l ++ rest) out.

(** Any request but a removal. *)
Definition not_a_removal (r : req) : Prop :=
  match r with
  | RRmtree _ => False
  | _ => True
  end.

(** The numbers of the [done] events of the animated variant. *)
Definition done_events (us : list Animated.ui) : list (nat * nat) :=
  flat_map (fun u => match u with
                     | Animated.EvDone n total => [(n, total)]
                     | _ => []
                     end) us.

(** The [run_error] events of language [idx]: the command and the error
    text. *)
Definition run_errors (idx : nat) (us : list Animated.ui) : list (text * text) :=
  flat_map (fun u => match u with
                     | Animated.EvRunError i c e => if Nat.eqb i idx then [(c, e)] else []
                     | _ => []
                     end) us.

(** What the claims on the clean-up ask of a file system: asking whether a
    path exists changes nothing, and a path whose removal succeeded does not
    exist afterwards. *)
Record removal_law (os : OS) : Prop := {
  exists_keeps : forall p w, snd (perform os (RExists p) w) = w;
  rmtree_removes : forall p w,
    fst (perform os (RRmtree p) w) = None ->
    fst (perform os (RExists p) (snd (perform os (RRmtree p) w))) = false
}.

(** A machine whose tools work and on which every removal fails. *)
Definition machine_rmtree_fails : machine :=
  {| tool := working_tool; write_error := None;
     rmtree_error := Some (utf8 "[Errno 16] Device or resource busy: '/home/demo/workspace'");
     files := []; clock := 0 |}.

(** What the last clean-up of the console variant leaves in the record,
    between the total time and its report: nothing when the directory was
    not there, the removal when it succeeded, the removal and the error
    message when it failed. *)
Definition cleanup_record (p : path) (cleaned : bool) (rm : list (event MultiLang.ui))
  : Prop :=
  (cleaned = true /\ (rm = [] \/ rm = [Os (Rmtree p None)]))
  \/ (cleaned = false
      /\ exists msg, rm = [Os (Rmtree p (Some msg)); Ui (MultiLang.PrintCleanupError p msg)]).

(* ================================================================== *)
(** * Reading the record of a pipeline                                 *)
(* ================================================================== *)

(** Whether an entry of the record is a stage of a pipeline: a launch or a
    write. *)
Definition is_stage {U : Type} (e : event U) : bool :=
  match e with
  | Os (Spawn _ _ _ _) => true
  | Os (WriteText _ _ _) => true
  | _ => false
  end.

(** No launch and no write follows a stage that failed. *)
Fixpoint stops_at_failure {U : Type} (l : list (event U)) : bool :=
  match l with
  | [] => true
  | e :: rest =>
      if call_failed e then negb (existsb is_stage rest) else stops_at_failure rest
  end.

(** After steps 2 and 3 the timings of a language are the time of the write,
    then the time of the compile stage unless the write failed, then the
    time of the run if there was one. *)
Definition edu_timings_shape (state : Educational.LanguageState) : Prop :=
  (exists e, Educational.timings state = [(utf8 "write", e)]
             /\ Educational.failed state = true)
  \/ (exists e c, Educational.timings state = [(utf8 "write", e); (utf8 "compile", c)])
  \/ (exists e c r,
        Educational.timings state
        = [(utf8 "write", e); (utf8 "compile", c); (utf8 "run", r)]).


(** What step 3 of the educational variant keeps of a launch that ended:
    the status and the texts of the two streams. *)
Definition edu_step3_texts (state state3 : Educational.LanguageState) (b : behaviour)
  : Prop :=
  match b with
  | Exits rc out err _ =>
      if (rc =? 0)%Z
      then Educational.status state3 = utf8 "✅ Execution succeeded"
           /\ Educational.stdout state3 = por (strip out) (utf8 "<no output>")
           /\ Educational.stderr state3 = strip err
      else Educational.status state3 = utf8 "❌ Execution error"
           /\ Educational.stdout state3 = Educational.stdout state
           /\ Educational.stderr state3
              = por (strip err) (por (strip out) (utf8 "Execution failed"))
  | NotFound msg _ =>
      Educational.status state3 = utf8 "❌ Execution error"
      /\ Educational.stdout state3 = Educational.stdout state
      /\ Educational.stderr state3 = por msg (utf8 "Execution failed")
  | LaunchError _ => False
  | Hangs => False
  end.

(** The banners printed by the console variant, in order: the names of the
    languages whose pipelines were started. *)
Definition banners (us : list MultiLang.ui) : list text :=
  flat_map (fun u => match u with
                     | MultiLang.PrintBanner n => [n]
                     | _ => []
                     end) us.

(** Whether the percentages shown by a progress bar never go back. *)
Fixpoint nondecreasingQ (l : list Q) : bool :=
  match l with
  | x :: ((y :: _) as rest) => Qle_bool x y && nondecreasingQ rest
  | _ => true
  end.

(** The lines of the [code_line] events sent for language [idx], in order. *)
Definition code_lines_of (idx : nat) (us : list Animated.ui) : list text :=
  flat_map (fun u => match u with
                     | Animated.EvCodeLine i line => if Nat.eqb i idx then [line] else []
                     | _ => []
                     end) us.

(** Any event of the animated variant but [done], the one at which the
    event stream of the browser is closed. *)
Definition not_done (u : Animated.ui) : Prop :=
  match u with
  | Animated.EvDone _ _ => False
  | _ => True
  end.

(** The requests of a script that works in the directory [ws] on the files
    [ws / name] for the names that [ok] allows: a command is launched with
    [ws] as its working directory, a file written or looked for is
    [ws / name], and no directory but [ws] is looked for, made or removed. *)
Definition works_in (ok : text -> Prop) (ws : path) (r : req) : Prop :=
  match r with
  | RSpawn _ cwd _ => cwd = ws
  | RWriteText p _ => exists name, ok name /\ p = path_join ws name
  | RExists p => p = ws \/ exists name, ok name /\ p = path_join ws name
  | RRmtree p => p = ws
  | RMkdir p => p = ws
  | RNow => True
  end.





(** The names that the animated variant joins to its workspace for a
    language: the name of the source file, and the program of the run
    command less its [./], which the guard of step 3 looks for. *)
Definition anim_names (lang : Animated.Language) : list text :=
  Animated.filename lang
  :: match Animated.run_cmd lang with
     | [] => []
     | program :: _ => [Animated.remove_dot_slash program]
     end.

(** The Python entry of the table of [multi_lang_hello.py], as an entry of
    the table of the animated variant would be written: a language without
    compile commands. *)
Definition anim_python : Animated.Language :=
  {| Animated.name := MultiLang.name multilang_python;
     Animated.filename := MultiLang.filename multilang_python;
     Animated.color := utf8 "#ffd43b";
     Animated.code := MultiLang.source multilang_python;
     Animated.compile_cmds := MultiLang.compile_cmds multilang_python;
     Animated.run_cmd := MultiLang.run_cmd multilang_python;
     Animated.syntax := utf8 "python" |}.

(** The Python entry of the table of [multi_lang_hello.py] as an entry of
    the tables of the web variant and of the educational variant would be
    written: a language without compile commands. *)
Definition web_python : Web.LanguageSpec :=
  {| Web.name := MultiLang.name multilang_python;
     Web.filename := MultiLang.filename multilang_python;
     Web.color := utf8 "#ffd43b";
     Web.code := MultiLang.source multilang_python;
     Web.compile_cmds := MultiLang.compile_cmds multilang_python;
     Web.run_cmd := MultiLang.run_cmd multilang_python;
     Web.syntax := utf8 "python" |}.

Definition edu_python : Educational.LanguageSpec :=
  {| Educational.name := MultiLang.name multilang_python;
     Educational.filename := MultiLang.filename multilang_python;
     Educational.syntax := utf8 "python";
     Educational.code_lines :=
       [utf8 "print(" ++ dq ++ utf8 "Hello World" ++ dq ++ utf8 ")"];
     Educational.compile_cmds := MultiLang.compile_cmds multilang_python;
     Educational.run_cmd := MultiLang.run_cmd multilang_python |}.


(* ================================================================== *)
(** * Programs and their runs                                          *)
(* ================================================================== *)

Section RunFacts.
Context {os : OS} {U : Type}.

Lemma run_traces {A} (p : prog U A) :
  forall (w w' : world os) out l, run p w = (out, w', l) -> traces p l out.
Proof.
  induction p as [a | e | | r k IH | u k IH]; simpl; intros w w' out l H.
  - inversion H; auto.
  - inversion H; auto.
  - inversion H; auto.
  - destruct (perform os r w) as [x w1] eqn:E.
    destruct (run (k x) w1) as [[o w2] l2] eqn:E2.
    inversion H; subst. exists x, l2. split; [reflexivity|]. eapply IH; eauto.
  - destruct (run k w) as [[o w1] l1] eqn:E.
    inversion H; subst. exists l1. split; [reflexivity|]. eapply IH; eauto.
Qed.

Lemma traces_bind {A B} (m : prog U A) (f : A -> prog U B) :
  forall l out,
    traces (bind m f) l out ->
    (exists a l1 l2, traces m l1 (Ret a) /\ traces (f a) l2 out /\ l = l1 ++ l2)
    \/ (exists e, traces m l (Raise e) /\ out = Raise e)
    \/ (traces m l Block /\ out = Block).
Proof.
  induction m as [a | e | | r k IH | u k IH]; simpl; intros l out H.
  - left. exists a, [], l. auto.
  - destruct H as [-> ->]. right; left. exists e. auto.
  - destruct H as [-> ->]. right; right. auto.
  - destruct H as (x & l' & -> & H). apply IH in H.
    destruct H as [(a & l1 & l2 & H1 & H2 & ->) | [(e & H1 & ->) | (H1 & ->)]].
    + left. exists a, (record_of r x ++ l1), l2. repeat split; auto.
      * exists x, l1. auto.
      * now rewrite app_assoc.
    + right; left. exists e. split; auto. exists x, l'. auto.
    + right; right. split; auto. exists x, l'. auto.
  - destruct H as (l' & -> & H). apply IH in H.
    destruct H as [(a & l1 & l2 & H1 & H2 & ->) | [(e & H1 & ->) | (H1 & ->)]].
    + left. exists a, (Ui u :: l1), l2. repeat split; auto. exists l1. auto.
    + right; left. exists e. split; auto. exists l'. auto.
    + right; right. split; auto. exists l'. auto.
Qed.

End RunFacts.

Lemma stage_failed_app {U} (l1 l2 : list (event U)) :
  stage_failed (l1 ++ l2) = stage_failed l1 || stage_failed l2.
Proof. apply existsb_app. Qed.

Lemma ui_events_app {U} (l1 l2 : list (event U)) :
  ui_events (l1 ++ l2) = ui_events l1 ++ ui_events l2.
Proof. apply flat_map_app. Qed.

Lemma spawned_app {U} (l1 l2 : list (event U)) :
  spawned (l1 ++ l2) = spawned l1 ++ spawned l2.
Proof. apply flat_map_app. Qed.

Lemma launched_app {U} (l1 l2 : list (event U)) :
  launched (l1 ++ l2) = launched l1 ++ launched l2.
Proof. unfold launched. now rewrite spawned_app, map_app. Qed.

Lemma written_app {U} (l1 l2 : list (event U)) :
  written (l1 ++ l2) = written l1 ++ written l2.
Proof. apply flat_map_app. Qed.

Lemma removals_app {U} (l1 l2 : list (event U)) :
  removals (l1 ++ l2) = removals l1 ++ removals l2.
Proof. apply flat_map_app. Qed.

Arguments expired : simpl never.
Arguments utf8 : simpl never.
Opaque utf8.
Arguments strip : simpl never.
Arguments por : simpl never.
Arguments upto : simpl never.
Arguments limit_30s : simpl never.
Arguments path_join : simpl never.
Arguments str_of_nat : simpl never.
Arguments MultiLang.run_command : simpl never.
Arguments MultiLang.cleanup_workspace : simpl never.
Arguments MultiLang.process_language : simpl never.
Arguments Web.run_stage : simpl never.
Arguments Web.stages : simpl never.

(** One step of the analysis of a hypothesis [H : traces p l out]. *)
Ltac step_traces H :=
  simpl in H;
  lazymatch type of H with
  | _ = _ /\ _ = _ => destruct H as [-> ->]
  | ex (fun a => ex (fun b => @?P a b)) =>
      let x := fresh "x" in
      let l' := fresh "l" in
      destruct H as (x & l' & -> & H); simpl in x
  | ex (fun a => @?P a) =>
      let l' := fresh "l" in
      destruct H as (l' & -> & H)
  end.

(** The same, without simplifying what follows the head of the program. *)
Ltac step_head H :=
  hnf in H;
  lazymatch type of H with
  | _ = _ /\ _ = _ => destruct H as [-> ->]
  | ex (fun a => ex (fun b => @?P a b)) =>
      let x := fresh "x" in
      let l' := fresh "l" in
      destruct H as (x & l' & -> & H); simpl in x
  | ex (fun a => @?P a) =>
      let l' := fresh "l" in
      destruct H as (l' & -> & H)
  end.

Tactic Notation "step_call" hyp(H) "as" ident(x) :=
  simpl in H;
  let l' := fresh "l" in
  destruct H as (x & l' & -> & H); simpl in x.

Section WebFacts.
Variable str_exc : cmd -> Z -> text.
Variable WORKSPACE : path.
Variable LANGUAGES : list Web.LanguageSpec.

Local Abbreviation compile_loop := (Web.compile_loop str_exc WORKSPACE).
Local Abbreviation run_stage := (Web.run_stage str_exc WORKSPACE).
Local Abbreviation stages := (Web.stages str_exc WORKSPACE).
Local Abbreviation execute_language := (Web.execute_language str_exc WORKSPACE LANGUAGES).

Lemma web_compile_loop_spec (cmds : list cmd) :
  forall result total l out,
    traces (compile_loop result total cmds) l out ->
    written l = [] /\
    match out with
    | Ret (inl r) =>
        Web.progress r = 100%Z /\ Web.failed r = true /\ stage_failed l = true
        /\ ui_events l = [Web.SetProgress 100]
    | Ret (inr t) =>
        stage_failed l = false /\ ui_events l = [] /\ launched l = cmds
    | Raise e => exists msg, e = OSError msg
    | Block => False
    end.
Proof.
  induction cmds as [| c rest IH]; intros result total l out H.
  - simpl in H. step_traces H. simpl. auto.
  - simpl in H. step_call H as x.
    destruct x as [rc o e d | msg d | msg | ]; simpl in H.
    + destruct (expired limit_30s d) eqn:Ex; simpl in H.
      * repeat step_traces H. simpl. rewrite Ex. simpl. auto.
      * destruct (rc =? 0)%Z eqn:Erc; simpl in H.
        -- apply IH in H. destruct H as [Hw H]. simpl. rewrite Hw. split; auto.
           destruct out as [[r | t] | e0 | ]; auto.
           ++ destruct H as (? & ? & ? & ?). simpl. rewrite Ex, Erc. simpl. auto.
           ++ destruct H as (? & ? & ?). simpl. rewrite Ex, Erc. simpl.
              unfold launched in *. simpl. repeat split; auto. congruence.
        -- repeat step_traces H. simpl. rewrite Ex, Erc. simpl. auto.
    + repeat step_traces H. simpl. auto.
    + repeat step_traces H. simpl. eauto.
    + repeat step_traces H. simpl. auto.
Qed.

Lemma web_run_stage_spec (spec : Web.LanguageSpec) (result : Web.Result) :
  forall l out,
    traces (run_stage spec result) l out ->
    written l = [] /\ launched l = [Web.run_cmd spec] /\
    match out with
    | Ret r =>
        Web.progress r = 100%Z
        /\ Web.failed r = Web.failed result || stage_failed l
        /\ ui_events l = [Web.SetProgress 100]
        /\ Web.compile_time r = Web.compile_time result
    | Raise e => exists msg, e = OSError msg
    | Block => False
    end.
Proof.
  intros l out H. unfold Web.run_stage in H. step_call H as x.
  destruct x as [rc o e d | msg d | msg | ]; simpl in H.
  - destruct (expired limit_30s d) eqn:Ex; simpl in H.
    + repeat step_traces H. simpl. rewrite Ex. simpl.
      repeat split; auto using orb_true_r.
    + destruct (rc =? 0)%Z eqn:Erc; simpl in H.
      * repeat step_traces H. simpl. rewrite Ex, Erc. simpl.
        repeat split; auto using orb_false_r.
      * repeat step_traces H. simpl. rewrite Ex, Erc. simpl.
        repeat split; auto using orb_true_r.
  - repeat step_traces H. simpl. repeat split; auto using orb_true_r.
  - repeat step_traces H. simpl. repeat split; eauto.
  - repeat step_traces H. simpl. repeat split; auto using orb_true_r.
Qed.

(** What the three steps give, whatever the system answers. *)
Lemma web_stages_spec (spec : Web.LanguageSpec) :
  forall l out,
    traces (stages spec) l out ->
    match out with
    | Ret r =>
        Web.progress r = 100%Z
        /\ Web.failed r = stage_failed l
        /\ (ui_events l = [Web.SetProgress 100]
            \/ ui_events l = [Web.SetProgress 25; Web.SetProgress 100]
            \/ ui_events l = [Web.SetProgress 25; Web.SetProgress 70; Web.SetProgress 100])
    | Raise e => exists msg, e = OSError msg
    | Block => False
    end.
Proof.
  intros l out H. unfold Web.stages in H.
  step_call H as x. destruct x as [[msg |] elapsed]; simpl in H.
  - repeat step_traces H. simpl. auto.
  - step_traces H. destruct (Web.compile_cmds spec) as [| c rest] eqn:Ecmds.
    + apply web_run_stage_spec in H. destruct H as (Hw & Hl & H).
      destruct out as [r | e | ]; auto.
      destruct H as (? & ? & Hu & ?). simpl. rewrite Hu. auto.
    + apply traces_bind in H.
      destruct H as [(a & l1 & l2 & H1 & H2 & ->) | [(e & H1 & ->) | (H1 & ->)]].
      * apply web_compile_loop_spec in H1. destruct H1 as (Hw1 & H1).
        destruct a as [r | t].
        -- step_traces H2. destruct H1 as (? & ? & Hs & Hu). simpl.
           rewrite app_nil_r, Hs, Hu. auto.
        -- destruct H1 as (Hs & Hu & Hl1). step_traces H2.
           apply web_run_stage_spec in H2. destruct H2 as (Hw2 & Hl2 & H2).
           destruct out as [r | e | ]; auto.
           destruct H2 as (? & Hf & Hu2 & ?). simpl in *.
           rewrite stage_failed_app, Hs, ui_events_app, Hu. simpl.
           rewrite Hu2. auto.
      * apply web_compile_loop_spec in H1. destruct H1 as (_ & msg & ->). eauto.
      * apply web_compile_loop_spec in H1. destruct H1 as (_ & []).
Qed.

(** The same for a language without compile commands whose source file
    could be written. *)
Lemma web_stages_interpreted (spec : Web.LanguageSpec) :
  forall l out,
    Web.compile_cmds spec = [] ->
    (exists p, written l = [(p, None)]) ->
    traces (stages spec) l out ->
    launched l = [Web.run_cmd spec]
    /\ match out with
       | Ret r =>
           Web.compile_time r = 0%N
           /\ ui_events l = [Web.SetProgress 25; Web.SetProgress 100]
       | Raise e => exists msg, e = OSError msg
       | Block => False
       end.
Proof.
  intros l out Hc Hw H. unfold Web.stages in H. rewrite Hc in H.
  step_call H as x. destruct x as [[msg |] elapsed]; simpl in H.
  - repeat step_traces H. destruct Hw as [p Hw]. simpl in Hw. discriminate.
  - step_traces H. apply web_run_stage_spec in H. destruct H as (_ & Hl & H).
    split; [exact Hl|].
    destruct out as [r | e | ]; auto.
    destruct H as (? & ? & Hu & Ht). simpl. rewrite Hu, Ht. auto.
Qed.

Lemma web_execute_language_traces (idx : Z) :
  forall l out,
    traces (execute_language idx) l out ->
    (py_index LANGUAGES idx = None /\ l = [] /\ out = Raise IndexError)
    \/ exists spec l0 l1,
         py_index LANGUAGES idx = Some spec /\ l = l0 ++ l1
         /\ (l0 = [] \/ exists r, l0 = [Os (Mkdir WORKSPACE r)])
         /\ ((l1 = [] /\ exists msg, out = Raise (OSError msg)) \/ traces (stages spec) l1 out).
Proof.
  intros l out H. unfold Web.execute_language in H.
  destruct (py_index LANGUAGES idx) as [spec |] eqn:Eidx.
  2:{ step_traces H. left. auto. }
  right. exists spec. step_call H as x. destruct x; simpl in H.
  - exists []. eexists. simpl. repeat split; eauto.
  - step_call H as x. destruct x as [msg |]; simpl in H.
    + step_traces H. exists [Os (Mkdir WORKSPACE (Some msg))], []. simpl.
      repeat split; eauto.
    + exists [Os (Mkdir WORKSPACE None)]. eexists. simpl. repeat split; eauto.
Qed.

End WebFacts.


Lemma por_nil_r (s : text) : por s [] = s.
Proof. destruct s; reflexivity. Qed.

Lemma text_eqb_eq (a b : text) : text_eqb a b = true <-> a = b.
Proof.
  revert b. induction a as [| x a IH]; destruct b as [| y b]; simpl;
    try (split; [discriminate | discriminate]); try tauto.
  rewrite andb_true_iff, N.eqb_eq, IH. split.
  - intros [-> ->]. reflexivity.
  - intros E. inversion E. auto.
Qed.

Lemma text_eqb_refl (a : text) : text_eqb a a = true.
Proof. now apply text_eqb_eq. Qed.

Lemma dict_get_set_same (d : dict) (k : text) (v : time) :
  dict_get (dict_set d k v) k = Some v.
Proof.
  induction d as [| [k' v'] d IH]; simpl.
  - now rewrite text_eqb_refl.
  - destruct (text_eqb k' k) eqn:E; simpl; rewrite E; auto.
Qed.

Lemma dict_get_set_other (d : dict) (k k' : text) (v : time) :
  text_eqb k k' = false ->
  dict_get (dict_set d k v) k' = dict_get d k'.
Proof.
  intros Hk. induction d as [| [k0 v0] d IH]; simpl.
  - now rewrite Hk.
  - destruct (text_eqb k0 k) eqn:E; simpl.
    + apply text_eqb_eq in E. subst k0. now rewrite Hk.
    + destruct (text_eqb k0 k'); auto.
Qed.

Lemma nth_error_nil_some {A} (k : nat) (x : A) : nth_error [] k = Some x -> False.
Proof. destruct k; discriminate. Qed.

(* ================================================================== *)
(** * educational_hello.py                                             *)
(* ================================================================== *)

Section EducationalFacts.
Variable WORKSPACE : path.

Local Abbreviation compile_loop := (Educational.compile_loop WORKSPACE).
Local Abbreviation step2_body := (Educational.step2_body WORKSPACE).
Local Abbreviation step3_body := (Educational.step3_body WORKSPACE).

(** The compile loop when launch number [k] (from 0) of the loop is reported
    as failed. *)
Lemma edu_compile_loop_fails (cmds : list cmd) :
  forall index total_steps n_cmds cmd_index state compile_time k c b l out,
    traces (compile_loop index total_steps n_cmds cmd_index state compile_time cmds) l out ->
    nth_error (spawned l) k = Some (c, b) ->
    reports_failure None b = true ->
    launched l = firstn (S k) cmds
    /\ List.length (spawned l) = S k
    /\ written l = []
    /\ ui_events l = repeat (Educational.Advance index) k
                       ++ [Educational.SetCompleted index total_steps]
    /\ exists state' t,
         out = Ret (state', t)
         /\ Educational.failed state' = true
         /\ Educational.stderr state' = edu_error_text b
         /\ Educational.timings state' = Educational.timings state.
Proof.
  induction cmds as [| c0 rest IH];
    intros index total_steps n_cmds cmd_index state compile_time k c b l out H Hk Hb.
  - step_traces H. simpl in Hk. now apply nth_error_nil_some in Hk.
  - step_call H as x.
    destruct x as [rc o e d | msg d | msg | ]; simpl in H.
    + unfold expired in H. destruct (rc =? 0)%Z eqn:Erc; simpl in H.
      * (* this launch succeeded: the failure is further on *)
        step_traces H. destruct k as [| k].
        { simpl in Hk. inversion Hk; subst. simpl in Hb. rewrite Erc in Hb. discriminate. }
        simpl in Hk. eapply IH in H; eauto.
        destruct H as (Hl & Hn & Hw & Hu & s' & t & -> & Hf & He & Ht).
        unfold launched in *. simpl. rewrite Hl, Hn, Hw, Hu.
        repeat split; auto. exists s', t. repeat split; auto.
        rewrite Ht. destruct (truthy (strip o)), (truthy (strip e)); reflexivity.
      * repeat step_traces H. destruct k as [| k].
        2:{ simpl in Hk. now apply nth_error_nil_some in Hk. }
        simpl in Hk. inversion Hk; subst. simpl.
        repeat split; auto. do 2 eexists. repeat split; auto.
        simpl. now rewrite !por_nil_r.
    + repeat step_traces H. destruct k as [| k].
      2:{ simpl in Hk. now apply nth_error_nil_some in Hk. }
      simpl in Hk. inversion Hk; subst. simpl.
      repeat split; auto. do 2 eexists. repeat split; auto.
      simpl. now rewrite por_nil_r.
    + repeat step_traces H. destruct k as [| k].
      2:{ simpl in Hk. now apply nth_error_nil_some in Hk. }
      simpl in Hk. inversion Hk; subst. simpl in Hb. discriminate.
    + repeat step_traces H. destruct k as [| k].
      2:{ simpl in Hk. now apply nth_error_nil_some in Hk. }
      simpl in Hk. inversion Hk; subst. simpl in Hb. discriminate.
Qed.

(** Step 2 for a language one of whose compile commands is reported as
    failed. *)
Lemma edu_step2_fails (index : nat) (spec : Educational.LanguageSpec)
    (state : Educational.LanguageState) :
  forall k c b l out,
    traces (step2_body index spec state) l out ->
    nth_error (spawned l) k = Some (c, b) ->
    reports_failure None b = true ->
    launched l = firstn (S k) (Educational.compile_cmds spec)
    /\ List.length (spawned l) = S k
    /\ ui_events l =
         Educational.Advance index :: repeat (Educational.Advance index) k
           ++ [Educational.SetCompleted index
                 (1 + List.length (Educational.compile_cmds spec))]
    /\ exists state',
         out = Ret state'
         /\ Educational.failed state' = true
         /\ Educational.stderr state' = edu_error_text b.
Proof.
  intros k c b l out H Hk Hb. unfold Educational.step2_body in H.
  step_call H as x. destruct x as [[msg |] elapsed]; simpl in H.
  - repeat step_traces H. simpl in Hk. now apply nth_error_nil_some in Hk.
  - step_traces H. destruct (Educational.compile_cmds spec) as [| c0 rest] eqn:Ec.
    + repeat step_traces H. simpl in Hk. now apply nth_error_nil_some in Hk.
    + rewrite <- Ec in *. apply traces_bind in H.
      destruct H as [(a & l1 & l2 & H1 & H2 & ->) | [(e & H1 & ->) | (H1 & ->)]].
      * destruct a as [s' t]. simpl in H2.
        assert (Hl2 : spawned l2 = []).
        { destruct (Educational.failed s'); repeat step_traces H2; reflexivity. }
        simpl in Hk. rewrite spawned_app, Hl2, app_nil_r in Hk.
        eapply edu_compile_loop_fails in H1; eauto.
        destruct H1 as (Hl & Hn & Hw & Hu & s'' & t' & E & Hf & He & Ht).
        inversion E; subst s'' t'. rewrite Hf in H2. step_traces H2.
        simpl. rewrite !app_nil_r. unfold launched in *. simpl.
        rewrite Hl, Hn, Hu. repeat split; auto. eexists. repeat split; auto.
      * simpl in Hk. eapply edu_compile_loop_fails in H1; eauto.
        destruct H1 as (_ & _ & _ & _ & s'' & t' & E & _). discriminate.
      * simpl in Hk. eapply edu_compile_loop_fails in H1; eauto.
        destruct H1 as (_ & _ & _ & _ & s'' & t' & E & _). discriminate.
Qed.

(** Step 3 does nothing for a language marked as failed. *)
Lemma edu_step3_skips (index : nat) (spec : Educational.LanguageSpec)
    (state : Educational.LanguageState) :
  forall l out,
    Educational.failed state = true ->
    traces (step3_body index spec state) l out ->
    l = []
    /\ exists state',
         out = Ret state'
         /\ Educational.failed state' = true
         /\ Educational.stderr state' = Educational.stderr state.
Proof.
  intros l out Hf H. unfold Educational.step3_body in H. rewrite Hf in H.
  step_traces H. split; auto. eexists. repeat split; auto.
Qed.

(** Step 2 for a language without compile commands whose source file could
    be written. *)
Lemma edu_step2_interpreted (index : nat) (spec : Educational.LanguageSpec)
    (state : Educational.LanguageState) :
  forall l out,
    Educational.compile_cmds spec = [] ->
    (exists p, written l = [(p, None)]) ->
    traces (step2_body index spec state) l out ->
    launched l = []
    /\ exists state',
         out = Ret state'
         /\ dict_get (Educational.timings state') (utf8 "compile") = Some 0%N
         /\ Educational.failed state' = Educational.failed state.
Proof.
  intros l out Hc Hs H. unfold Educational.step2_body in H. rewrite Hc in H.
  step_call H as x. destruct x as [[msg |] elapsed]; simpl in H.
  - repeat step_traces H. destruct Hs as [p Hs]. simpl in Hs. discriminate.
  - repeat step_traces H. split; auto. eexists. repeat split; auto.
    simpl. apply dict_get_set_same.
Qed.

(** Step 3 for a language that is not marked as failed: the run command is
    launched, and nothing else. *)
Lemma edu_step3_runs (index : nat) (spec : Educational.LanguageSpec)
    (state : Educational.LanguageState) :
  forall l out,
    Educational.failed state = false ->
    traces (step3_body index spec state) l out ->
    launched l = [Educational.run_cmd spec]
    /\ match out with
       | Ret state' =>
           dict_get (Educational.timings state') (utf8 "compile")
           = dict_get (Educational.timings state) (utf8 "compile")
       | _ => True
       end.
Proof.
  intros l out Hf H. unfold Educational.step3_body in H. rewrite Hf in H.
  step_call H as x. unfold expired in H.
  destruct x as [rc o e d | msg d | msg | ]; simpl in H.
  - destruct (rc =? 0)%Z; repeat step_traces H; split; auto;
      simpl; now apply dict_get_set_other.
  - repeat step_traces H. split; auto. simpl. now apply dict_get_set_other.
  - repeat step_traces H. split; auto.
  - repeat step_traces H. split; auto.
Qed.

(** Step 4 keeps a compile timing of 0. *)
Lemma edu_step4_keeps_compile (state : Educational.LanguageState) :
  dict_get (Educational.timings state) (utf8 "compile") = Some 0%N ->
  dict_get (Educational.timings (Educational.step4_body state)) (utf8 "compile")
  = Some 0%N.
Proof.
  intros H. unfold Educational.step4_body.
  assert (Ht : forall v s,
             dict_get (Educational.timings s) (utf8 "compile") = Some 0%N ->
             dict_get (Educational.timings (Educational.set_timing (utf8 "total") v s))
                      (utf8 "compile") = Some 0%N).
  { intros v s Hs. simpl. rewrite dict_get_set_other; auto. }
  set (s1 := if (dict_sum (Educational.timings state) =? 0)%N then state
             else Educational.set_timing (utf8 "total")
                    (dict_sum (Educational.timings state)) state).
  assert (H1 : dict_get (Educational.timings s1) (utf8 "compile") = Some 0%N).
  { subst s1. destruct (dict_sum (Educational.timings state) =? 0)%N; auto. }
  destruct (negb (Educational.failed s1)
            && negb (dict_mem (Educational.timings s1) (utf8 "compile"))); auto.
  simpl. apply dict_get_set_same.
Qed.

End EducationalFacts.

(* ================================================================== *)
(** * animated_hello.py                                                *)
(* ================================================================== *)

Section AnimatedFacts.
Variable str_exc : cmd -> Z -> text.
Variable WORKSPACE : path.

Local Abbreviation compile_loop := (Animated.compile_loop str_exc WORKSPACE).
Local Abbreviation step2_body := (Animated.step2_body str_exc WORKSPACE).

(** The compile loop when launch number [k] (from 0) of the loop is reported
    as failed. *)
Lemma anim_compile_loop_fails (cmds : list cmd) :
  forall idx compile_total last_cmd_str k c b l out,
    traces (compile_loop idx compile_total last_cmd_str cmds) l out ->
    nth_error (spawned l) k = Some (c, b) ->
    reports_failure limit_30s b = true ->
    launched l = firstn (S k) cmds
    /\ written l = []
    /\ ui_events l =
         compile_starts idx (firstn (S k) cmds)
           ++ [Animated.EvCompileError idx (join (utf8 " ") c)
                 (upto 100 (anim_error_text str_exc c b));
               Animated.EvStatus idx (utf8 "❌ 컴파일 실패")]
    /\ exists total, out = Ret (total, true, join (utf8 " ") c).
Proof.
  induction cmds as [| c0 rest IH];
    intros idx compile_total last_cmd_str k c b l out H Hk Hb.
  - step_traces H. simpl in Hk. now apply nth_error_nil_some in Hk.
  - step_traces H. step_call H as x.
    destruct x as [rc o e d | msg d | msg | ]; simpl in H.
    + destruct (expired limit_30s d) eqn:Ex; simpl in H.
      * repeat step_traces H. destruct k as [| k].
        2:{ simpl in Hk. now apply nth_error_nil_some in Hk. }
        simpl in Hk. inversion Hk; subst. simpl. rewrite Ex.
        repeat split; eauto.
      * destruct (rc =? 0)%Z eqn:Erc; simpl in H.
        -- destruct k as [| k].
           { simpl in Hk. inversion Hk; subst. simpl in Hb.
             rewrite Ex, Erc in Hb. discriminate. }
           simpl in Hk. eapply IH in H; eauto.
           destruct H as (Hl & Hw & Hu & total & ->).
           unfold launched in *. simpl. rewrite Hl, Hw, Hu.
           repeat split; eauto.
        -- repeat step_traces H. destruct k as [| k].
           2:{ simpl in Hk. now apply nth_error_nil_some in Hk. }
           simpl in Hk. inversion Hk; subst. simpl. rewrite Ex.
           repeat split; eauto.
    + repeat step_traces H. destruct k as [| k].
      2:{ simpl in Hk. now apply nth_error_nil_some in Hk. }
      simpl in Hk. inversion Hk; subst. simpl. repeat split; eauto.
    + repeat step_traces H. destruct k as [| k].
      2:{ simpl in Hk. now apply nth_error_nil_some in Hk. }
      simpl in Hk. inversion Hk; subst. simpl in Hb. discriminate.
    + repeat step_traces H. destruct k as [| k].
      2:{ simpl in Hk. now apply nth_error_nil_some in Hk. }
      simpl in Hk. inversion Hk; subst. simpl. repeat split; eauto.
Qed.

(** Step 2 for a language one of whose compile commands is reported as
    failed. *)
Lemma anim_step2_fails (idx : nat) (lang : Animated.Language) (timings : dict) :
  forall k c b l out,
    traces (step2_body idx lang timings) l out ->
    nth_error (spawned l) k = Some (c, b) ->
    reports_failure limit_30s b = true ->
    launched l = firstn (S k) (Animated.compile_cmds lang)
    /\ ui_events l =
         [Animated.EvStatus idx (utf8 "컴파일 중..."); Animated.EvProgress idx 30]
           ++ compile_starts idx (firstn (S k) (Animated.compile_cmds lang))
           ++ [Animated.EvCompileError idx (join (utf8 " ") c)
                 (upto 100 (anim_error_text str_exc c b));
               Animated.EvStatus idx (utf8 "❌ 컴파일 실패");
               Animated.EvProgress idx 100]
    /\ exists timings', out = Ret timings'.
Proof.
  intros k c b l out H Hk Hb. unfold Animated.step2_body in H.
  do 2 step_traces H. step_call H as x.
  destruct x as [[msg |] elapsed]; simpl in H.
  - step_traces H. simpl in Hk. now apply nth_error_nil_some in Hk.
  - apply traces_bind in H.
    destruct H as [(a & l1 & l2 & H1 & H2 & ->) | [(e & H1 & ->) | (H1 & ->)]].
    + destruct a as [[total failed] last].
      assert (Hl2 : spawned l2 = []).
      { simpl in H2. destruct failed; repeat step_traces H2; reflexivity. }
      simpl in Hk. rewrite spawned_app, Hl2, app_nil_r in Hk.
      eapply anim_compile_loop_fails in H1; eauto.
      destruct H1 as (Hl & Hw & Hu & total' & E). inversion E; subst.
      repeat step_traces H2.
      unfold launched, spawned, ui_events in *. simpl.
      rewrite !flat_map_app. simpl. rewrite app_nil_r, Hl, Hu.
      rewrite <- app_assoc. simpl. repeat split; eauto.
    + simpl in Hk. eapply anim_compile_loop_fails in H1; eauto.
      destruct H1 as (_ & _ & _ & total' & E). discriminate.
    + simpl in Hk. eapply anim_compile_loop_fails in H1; eauto.
      destruct H1 as (_ & _ & _ & total' & E). discriminate.
Qed.

Lemma compile_done_count_starts (idx i : nat) (cmds : list cmd) :
  compile_done_count i (compile_starts idx cmds) = 0.
Proof. induction cmds; simpl; auto. Qed.

Lemma compile_done_count_app (i : nat) (a b : list Animated.ui) :
  compile_done_count i (a ++ b) = compile_done_count i a + compile_done_count i b.
Proof. unfold compile_done_count. now rewrite filter_app, length_app. Qed.

Lemma compile_start_count_starts (idx : nat) (cmds : list cmd) :
  compile_start_count idx (compile_starts idx cmds) = List.length cmds.
Proof.
  induction cmds; simpl; auto. unfold compile_start_count in *. simpl.
  rewrite Nat.eqb_refl. simpl. now rewrite IHcmds.
Qed.

Lemma compile_start_count_app (i : nat) (a b : list Animated.ui) :
  compile_start_count i (a ++ b) = compile_start_count i a + compile_start_count i b.
Proof. unfold compile_start_count. now rewrite filter_app, length_app. Qed.

End AnimatedFacts.

(* ================================================================== *)
(** * multi_lang_hello.py                                              *)
(* ================================================================== *)

Section MultiLangFacts.

Lemma multilang_run_command_launches (label : text) (c : cmd) (cwd : path) (show : bool) :
  forall l out,
    traces (MultiLang.run_command label c cwd show) l out ->
    launched l = [c] /\ written l = [] /\ removals l = [].
Proof.
  intros l out H. unfold MultiLang.run_command in H. step_call H as x.
  unfold expired in H.
  destruct x as [rc o e d | msg d | msg | ]; simpl in H.
  - destruct (rc =? 0)%Z; simpl in H; step_traces H;
      destruct (truthy o), (truthy e), show; simpl in H;
      repeat step_traces H; auto.
  - repeat step_traces H. auto.
  - repeat step_traces H. auto.
  - repeat step_traces H. auto.
Qed.

Opaque MultiLang.run_command.

(** [process_language] for a language without compile commands whose source
    file could be written. *)
Lemma multilang_interpreted (lang : MultiLang.Language) (workspace : path) :
  forall l out,
    MultiLang.compile_cmds lang = [] ->
    (exists p, written l = [(p, None)]) ->
    traces (MultiLang.process_language lang workspace) l out ->
    launched l = [MultiLang.run_cmd lang]
    /\ In MultiLang.PrintCompileNotRequired (ui_events l).
Proof.
  intros l out Hc Hw H. unfold MultiLang.process_language in H. rewrite Hc in H.
  step_traces H. step_call H as x. destruct x as [[msg |] elapsed]; simpl in H.
  - repeat step_traces H. destruct Hw as [p Hw]. simpl in Hw. discriminate.
  - do 2 step_head H. unfold MultiLang.run_execution in H.
    apply traces_bind in H.
    destruct H as [(a & l1 & l2 & H1 & H2 & ->) | [(e & H1 & ->) | (H1 & ->)]];
      apply multilang_run_command_launches in H1; destruct H1 as (Hl & _).
    + step_traces H2. rewrite app_nil_r.
      unfold launched, spawned, ui_events in *. simpl. rewrite Hl. auto.
    + unfold launched, spawned, ui_events in *. simpl. rewrite Hl. auto.
    + unfold launched, spawned, ui_events in *. simpl. rewrite Hl. auto.
Qed.

End MultiLangFacts.

(** C9.  Every call of the web variant's [execute_language] that returns
    gives a result whose progress is 100, and whose [failed] flag is set
    exactly when one of its stages failed: the write of the source file
    raised, or a compile command or the run command did not end with status
    0 within the time limit.  The call never waits for ever; it raises only
    [IndexError], for an index outside the table, or an [OSError] that
    [mkdir] or the launch of a command raised. *)
Theorem web_execute_language_progress_and_failed :
  forall (os : OS) (str_exc : cmd -> Z -> text) (WORKSPACE : path)
         (LANGUAGES : list Web.LanguageSpec) (idx : Z) (w : world os),
    match run (Web.execute_language str_exc WORKSPACE LANGUAGES idx) w with
    | (Ret r, _, l) =>
        Web.progress r = 100%Z /\ (Web.failed r = true <-> stage_failed l = true)
    | (Raise IndexError, _, _) => py_index LANGUAGES idx = None
    | (Raise (OSError _), _, _) => True
    | (Raise _, _, _) => False
    | (Block, _, _) => False
    end.
Proof.
  intros os str_exc WORKSPACE LANGUAGES idx w.
  destruct (run _ w) as [[out w'] l] eqn:E.
  apply run_traces in E. apply web_execute_language_traces in E.
  destruct E as [(Hi & -> & ->) | (spec & l0 & l1 & Hi & -> & H0 & H1)]; auto.
  assert (Hs : stage_failed (l0 ++ l1) = stage_failed l1).
  { rewrite stage_failed_app. destruct H0 as [-> | [r ->]]; reflexivity. }
  destruct H1 as [(-> & msg & ->) | H1]; auto.
  apply web_stages_spec in H1.
  destruct out as [r | e | ].
  - destruct H1 as (Hp & Hf & _). rewrite Hs, Hf. split; tauto.
  - destruct H1 as [msg ->]. exact I.
  - contradiction.
Qed.


Lemma progress_of_starts (idx i : nat) (cmds : list cmd) :
  progress_of i (compile_starts idx cmds) = [].
Proof. induction cmds; simpl; auto. Qed.

Lemma progress_of_app (i : nat) (a b : list Animated.ui) :
  progress_of i (a ++ b) = progress_of i a ++ progress_of i b.
Proof. apply flat_map_app. Qed.

Lemma advance_count_repeat (index k : nat) :
  advance_count index (repeat (Educational.Advance index) k) = k.
Proof.
  unfold advance_count. induction k; simpl; auto.
  rewrite Nat.eqb_refl. simpl. now rewrite IHk.
Qed.

Lemma launched_prefix_length {U} (l : list (event U)) (cmds : list cmd) (k : nat) c b :
  nth_error (spawned l) k = Some (c, b) ->
  launched l = firstn (S k) cmds ->
  List.length (firstn (S k) cmds) = S k.
Proof.
  intros Hk Hl.
  assert (Hlt : k < List.length (spawned l)).
  { apply nth_error_Some. rewrite Hk. discriminate. }
  assert (Hlen : List.length (launched l) = List.length (spawned l)).
  { unfold launched. apply length_map. }
  rewrite Hl in Hlen. pose proof (firstn_le_length (S k) cmds). lia.
Qed.

(** C1 (as amended).  When compile step [k] (counted from 1) of a language
    is reported as failed, exactly the first [k] compile commands have been
    launched and the others never are; the pipeline is marked as failed with
    the error text of step [k].  In the educational variant the progress bar
    has advanced once for the write and once for each of the [k - 1] steps
    before, and step 3 launches nothing for that language.  In the animated
    variant [k] [compile_start] events, one [compile_error] event with the
    first 100 characters of the error text and no [compile_done] event have
    been sent for the language, and its progress goes from 30 to 100. *)
Theorem compile_failure_stops_the_compile_stage :
  (forall (os : OS) (WORKSPACE : path) (index : nat)
          (spec : Educational.LanguageSpec) (state : Educational.LanguageState)
          (w w' : world os) out l (k : nat) (c : cmd) (b : behaviour),
      run (Educational.step2_body WORKSPACE index spec state) w = (out, w', l) ->
      1 <= k ->
      nth_error (spawned l) (k - 1) = Some (c, b) ->
      reports_failure None b = true ->
      launched l = firstn k (Educational.compile_cmds spec)
      /\ advance_count index (ui_events l) = 1 + (k - 1)
      /\ exists state',
           out = Ret state'
           /\ Educational.failed state' = true
           /\ Educational.stderr state' = edu_error_text b
           /\ forall w2 : world os,
                exists state'',
                  run (Educational.step3_body WORKSPACE index spec state') w2
                  = (Ret state'', w2, [])
                  /\ Educational.failed state'' = true)
  /\
  (forall (os : OS) (str_exc : cmd -> Z -> text) (WORKSPACE : path) (idx : nat)
          (lang : Animated.Language) (timings : dict)
          (w w' : world os) out l (k : nat) (c : cmd) (b : behaviour),
      run (Animated.step2_body str_exc WORKSPACE idx lang timings) w = (out, w', l) ->
      1 <= k ->
      nth_error (spawned l) (k - 1) = Some (c, b) ->
      reports_failure limit_30s b = true ->
      launched l = firstn k (Animated.compile_cmds lang)
      /\ compile_start_count idx (ui_events l) = k
      /\ compile_done_count idx (ui_events l) = 0
      /\ In (Animated.EvCompileError idx (join (utf8 " ") c)
               (upto 100 (anim_error_text str_exc c b))) (ui_events l)
      /\ progress_of idx (ui_events l) = [30%Z; 100%Z]
      /\ exists timings', out = Ret timings').
Proof.
  split.
  - intros os WORKSPACE index spec state w w' out l k c b Hrun Hk Hn Hb.
    apply run_traces in Hrun.
    destruct k as [| k]; [lia |]. simpl in Hn. rewrite Nat.sub_0_r in Hn.
    eapply edu_step2_fails in Hrun; eauto.
    destruct Hrun as (Hl & Hlen & Hu & state' & -> & Hf & He).
    split; [exact Hl |]. split.
    + rewrite Hu. unfold advance_count. simpl. rewrite Nat.eqb_refl. simpl.
      rewrite filter_app, length_app. simpl.
      fold (advance_count index (repeat (Educational.Advance index) k)).
      rewrite advance_count_repeat. lia.
    + exists state'. repeat split; auto.
      intros w2. unfold Educational.step3_body. rewrite Hf. simpl.
      eexists. split; [reflexivity | exact Hf].
  - intros os str_exc WORKSPACE idx lang timings w w' out l k c b Hrun Hk Hn Hb.
    apply run_traces in Hrun.
    destruct k as [| k]; [lia |]. simpl in Hn. rewrite Nat.sub_0_r in Hn.
    eapply anim_step2_fails in Hrun; eauto.
    destruct Hrun as (Hl & Hu & Ho).
    pose proof (@launched_prefix_length _ _ _ _ _ _ Hn Hl) as Hlen.
    split; [exact Hl |]. rewrite Hu. repeat split.
    + rewrite !compile_start_count_app, compile_start_count_starts, Hlen.
      unfold compile_start_count. simpl. lia.
    + rewrite !compile_done_count_app, compile_done_count_starts. reflexivity.
    + apply in_or_app. right. apply in_or_app. right. left. reflexivity.
    + rewrite !progress_of_app, progress_of_starts.
      simpl. now rewrite Nat.eqb_refl.
    + exact Ho.
Qed.

(** The educational dashboard on a machine whose linker fails: compile step
    2 of the assembly language is the one reported as failed. *)
Lemma compile_failure_witness :
  let cmds := Educational.compile_cmds edu_assembly in
  let l := snd (@run machine_os _ _
                  (Educational.step2_body example_workspace 3 edu_assembly
                     Educational.new_state) machine_ld_fails) in
  (nth_error (spawned l) (2 - 1) = Some (nth 1 cmds [], ld_failure)
   /\ reports_failure None ld_failure = true)
  /\ launched l = firstn 2 cmds
  /\ advance_count 3 (ui_events l) = 1 + (2 - 1).
Proof.
  intros cmds l. split.
  - split; vm_compute; reflexivity.
  - edestruct (proj1 compile_failure_stops_the_compile_stage machine_os
                 example_workspace 3 edu_assembly Educational.new_state
                 machine_ld_fails) as (H1 & H2 & _).
    + vm_compute. reflexivity.
    + apply le_S, le_n.
    + vm_compute. reflexivity.
    + reflexivity.
    + split; [exact H1 | exact H2].
Defined.

(** C1 as it is stated does not hold of the animated variant.  On a machine
    whose linker fails, compile step 2 of 2 of the assembly language fails: no
    [compile_done] event has been sent for it, where the claim has one, and
    its run stage is started all the same. *)
Lemma animated_compile_failure_counterexample :
  let us := ui_events (snd (@run machine_os _ _
              (Animated.run_animation str_called_process_error example_workspace
                 Animated.LANGUAGES) machine_ld_fails)) in
  compile_errors 3 us
  = [(utf8 "ld hello.o -o hello_asm",
      utf8 "ld: cannot find hello.o: No such file or directory" ++ newline)]
  /\ compile_start_count 3 us = 2
  /\ compile_done_count 3 us <> 2 - 1
  /\ run_started 3 us = true.
Proof.
  vm_compute. repeat split; discriminate.
Qed.


(* ================================================================== *)
(** * The time limit of a launch                                       *)
(* ================================================================== *)

(** [run_subprocess] of the web variant launches the command in the given
    directory with a limit of 30 seconds, never waits for ever, and reports a
    child that takes longer, or never ends, as a failure with the timeout
    text. *)
Lemma web_run_subprocess_limit (str_exc : cmd -> Z -> text) (c : cmd) (cwd : path) :
  forall l out,
    traces (Web.run_subprocess str_exc c cwd) l out ->
    exists b,
      l = [Os (Spawn c cwd limit_30s b)]
      /\ out <> Block
      /\ ((b = Hangs \/ exists rc o e d, b = Exits rc o e d /\ (seconds 30 < d)%N) ->
          out = Ret (false, seconds 30, [], utf8 "타임아웃 (30초 초과)")).
Proof.
  intros l out H. unfold Web.run_subprocess in H. step_call H as b. exists b.
  destruct b as [rc o e d | msg d | msg | ]; simpl in H.
  - destruct (expired limit_30s d) eqn:Ex; simpl in H.
    + step_traces H. repeat split; auto; discriminate.
    + assert (Hle : ~ (seconds 30 < d)%N).
      { unfold expired, limit_30s in Ex. apply N.ltb_ge in Ex. lia. }
      destruct (rc =? 0)%Z; step_traces H; repeat split; auto; try discriminate;
        intros [Hb | (rc' & o' & e' & d' & Hb & Hd)]; try discriminate;
        inversion Hb; subst; contradiction.
  - step_traces H. repeat split; auto; try discriminate.
    intros [Hb | (rc' & o' & e' & d' & Hb & Hd)]; discriminate.
  - step_traces H. repeat split; auto; try discriminate.
    intros [Hb | (rc' & o' & e' & d' & Hb & Hd)]; discriminate.
  - step_traces H. repeat split; auto; discriminate.
Qed.

(** C3 on the failing inputs.  [run_subprocess] of the educational variant
    and [run_command] of the console variant launch without a time limit: a
    compiler that needs 45 seconds is waited for and reported as a success
    with an elapsed time of 45 seconds, and a compiler that never ends blocks
    the script for ever.  [run_subprocess] of the web variant, on the same
    machines, gives a failure with the timeout text after 30 seconds. *)
Theorem console_variants_launch_without_time_limit :
  outcome (@run machine_os _ _
             (Educational.run_subprocess gcc_cmd example_workspace) machine_slow_gcc)
  = Ret (true, seconds 45, [], [])
  /\ outcome (@run machine_os _ _
                (MultiLang.run_command (utf8 "compile") gcc_cmd example_workspace false)
                machine_slow_gcc)
     = Ret (true, seconds 45)
  /\ outcome (@run machine_os _ _
                (Educational.run_subprocess gcc_cmd example_workspace) machine_gcc_hangs)
     = Block
  /\ outcome (@run machine_os _ _
                (MultiLang.run_command (utf8 "compile") gcc_cmd example_workspace false)
                machine_gcc_hangs)
     = Block
  /\ record (@run machine_os _ _
               (Educational.run_subprocess gcc_cmd example_workspace) machine_gcc_hangs)
     = [Os (Spawn gcc_cmd example_workspace None Hangs)]
  /\ outcome (@run machine_os _ _
                (Web.run_subprocess str_called_process_error gcc_cmd example_workspace)
                machine_slow_gcc)
     = Ret (false, seconds 30, [], utf8 "타임아웃 (30초 초과)")
  /\ outcome (@run machine_os _ _
                (Web.run_subprocess str_called_process_error gcc_cmd example_workspace)
                machine_gcc_hangs)
     = Ret (false, seconds 30, [], utf8 "타임아웃 (30초 초과)").
Proof. vm_compute. repeat split; reflexivity. Qed.

(* ================================================================== *)
(** * The error text of a failed command                               *)
(* ================================================================== *)

Lemma web_timeout_text_not_empty : utf8 "타임아웃 (30초 초과)" <> [].
Proof. vm_compute. discriminate. Qed.

Lemma web_not_found_text_not_empty (c : cmd) :
  utf8 "명령어를 찾을 수 없음: " ++ hd [] c <> [].
Proof.
  assert (E : exists x r, utf8 "명령어를 찾을 수 없음: " = x :: r).
  { vm_compute. eauto. }
  destruct E as (x & r & ->). simpl. discriminate.
Qed.

Lemma por_not_empty (a b : text) : a <> [] -> por a b = a.
Proof. destruct a; [contradiction | reflexivity]. Qed.

(** The text [run_subprocess] of the web variant gives as [stderr] for a
    command that exits with a status other than 0 is never empty when the
    runtime's rendering of the exception is not: [stderr or stdout] in
    [execute_language] then never takes [stdout]. *)
Lemma web_stdout_fallback_is_dead (str_exc : cmd -> Z -> text) (c : cmd) (cwd : path) :
  forall l ok elapsed stdout stderr,
    (forall rc, str_exc c rc <> []) ->
    traces (Web.run_subprocess str_exc c cwd) l (Ret (ok, elapsed, stdout, stderr)) ->
    ok = false ->
    por stderr stdout = stderr /\ stderr <> [].
Proof.
  intros l ok elapsed stdout stderr Hexc H Hok. unfold Web.run_subprocess in H.
  step_call H as b.
  assert (Hgoal : forall s, s <> [] -> stderr = s -> por stderr stdout = stderr /\ stderr <> []).
  { intros s Hs ->. split; [now apply por_not_empty | exact Hs]. }
  destruct b as [rc o e d | msg d | msg | ]; simpl in H.
  - destruct (expired limit_30s d); simpl in H.
    + destruct H as [_ E]. injection E as _ _ _ E.
      eapply Hgoal; [apply web_timeout_text_not_empty | exact E].
    + destruct (rc =? 0)%Z; simpl in H; destruct H as [_ E].
      * injection E as E _ _ _. congruence.
      * injection E as _ _ _ E.
        apply (Hgoal (por e (str_exc c rc))); [| exact E].
        unfold por. destruct e; simpl; [apply Hexc | discriminate].
  - destruct H as [_ E]. injection E as _ _ _ E.
    eapply Hgoal; [apply web_not_found_text_not_empty | exact E].
  - destruct H as [_ E]. discriminate.
  - destruct H as [_ E]. injection E as _ _ _ E.
    eapply Hgoal; [apply web_timeout_text_not_empty | exact E].
Qed.

(** C8 on the failing input.  The compiler exits with status 1, writes its
    report to its standard output and nothing to its standard error.  The
    web variant stores the runtime's rendering of the exception as the error
    text, and the animated variant reports it in its [compile_error] event;
    the captured standard output is stored by neither.  The educational
    variant stores the captured standard output. *)
Theorem web_error_text_is_not_the_captured_stdout :
  match outcome (@run machine_os _ _
                   (Web.execute_language str_called_process_error example_workspace
                      Web.LANGUAGES 0) machine_gcc_stdout_error) with
  | Ret r =>
      Web.failed r = true
      /\ Web.error r
         = utf8 "Command '['gcc', 'hello.c', '-o', 'hello_c']' returned non-zero exit status 1."
  | _ => False
  end
  /\ compile_errors 0
       (ui_events (record (@run machine_os _ _
          (Animated.run_animation str_called_process_error example_workspace
             Animated.LANGUAGES) machine_gcc_stdout_error)))
     = [(utf8 "gcc hello.c -o hello_c",
         utf8 "Command '['gcc', 'hello.c', '-o', 'hello_c']' returned non-zero exit status 1.")]
  /\ match outcome (@run machine_os _ _
                      (Educational.step2_body example_workspace 0 edu_c
                         Educational.new_state) machine_gcc_stdout_error) with
     | Ret state =>
         Educational.failed state = true
         /\ Educational.stderr state
            = utf8 "hello.c:5:5: error: expected ';' before 'return'"
     | _ => False
     end.
Proof. vm_compute. repeat split; reflexivity. Qed.

(* ================================================================== *)
(** * Stripping of the captured output                                 *)
(* ================================================================== *)

(** A command that exits with status 0: its two captured streams are
    stripped, in the three variants. *)
Lemma run_subprocess_strips_on_success (str_exc : cmd -> Z -> text) (c : cmd) (cwd : path)
    (o e : text) (d : time) :
  (d <= seconds 30)%N ->
  traces (Educational.run_subprocess c cwd)
         [Os (Spawn c cwd None (Exits 0 o e d))] (Ret (true, d, strip o, strip e))
  /\ traces (Web.run_subprocess str_exc c cwd)
            [Os (Spawn c cwd limit_30s (Exits 0 o e d))] (Ret (true, d, strip o, strip e))
  /\ traces (Animated.run_subprocess str_exc c cwd)
            [Os (Spawn c cwd limit_30s (Exits 0 o e d))] (Ret (true, d, strip o, strip e)).
Proof.
  intros Hd.
  assert (Ex : expired limit_30s d = false).
  { unfold expired, limit_30s. apply N.ltb_ge. exact Hd. }
  repeat split.
  - exists (Exits 0 o e d), []. split; [reflexivity |]. simpl. auto.
  - exists (Exits 0 o e d), []. split; [reflexivity |]. simpl. rewrite Ex. simpl. auto.
  - exists (Exits 0 o e d), []. split; [reflexivity |]. simpl. rewrite Ex. simpl. auto.
Qed.

Lemma strip_hello_world : strip hello_out = utf8 "Hello World".
Proof. reflexivity. Qed.

(** C10 on the failing input.  The compiler exits with status 1 and writes
    one line, ended by a newline, to its standard error.  [run_subprocess] of
    the web variant and of the animated variant give the text with its
    newline, and the web variant stores it so; [run_subprocess] of the
    educational variant gives it stripped.  A program that prints the
    greeting and a newline and exits with status 0 is reported with the
    greeting alone by all three. *)
Theorem failed_command_output_is_not_stripped :
  outcome (@run machine_os _ _
             (Web.run_subprocess str_called_process_error gcc_cmd example_workspace)
             machine_gcc_stderr_error)
  = Ret (false, 52000%N, [],
         utf8 "hello.c:5:5: error: expected ';' before 'return'" ++ newline)
  /\ outcome (@run machine_os _ _
                (Animated.run_subprocess str_called_process_error gcc_cmd
                   example_workspace) machine_gcc_stderr_error)
     = Ret (false, 52000%N, [],
            utf8 "hello.c:5:5: error: expected ';' before 'return'" ++ newline)
  /\ match outcome (@run machine_os _ _
                      (Web.execute_language str_called_process_error example_workspace
                         Web.LANGUAGES 0) machine_gcc_stderr_error) with
     | Ret r =>
         Web.error r = utf8 "hello.c:5:5: error: expected ';' before 'return'" ++ newline
     | _ => False
     end
  /\ outcome (@run machine_os _ _
                (Educational.run_subprocess gcc_cmd example_workspace)
                machine_gcc_stderr_error)
     = Ret (false, 52000%N, [], utf8 "hello.c:5:5: error: expected ';' before 'return'")
  /\ outcome (@run machine_os _ _
                (Web.run_subprocess str_called_process_error [utf8 "./hello_c"]
                   example_workspace) machine_working)
     = Ret (true, 1500%N, utf8 "Hello World", [])
  /\ outcome (@run machine_os _ _
                (Animated.run_subprocess str_called_process_error [utf8 "./hello_c"]
                   example_workspace) machine_working)
     = Ret (true, 1500%N, utf8 "Hello World", [])
  /\ outcome (@run machine_os _ _
                (Educational.run_subprocess [utf8 "./hello_c"] example_workspace)
                machine_working)
     = Ret (true, 1500%N, utf8 "Hello World", []).
Proof. vm_compute. repeat split; reflexivity. Qed.

(* ================================================================== *)
(** * Progress                                                         *)
(* ================================================================== *)

(** C2 on the failing inputs.  The compiler is not installed.  In the
    animated variant the progress of the C language reaches 100 when its
    compile step fails and then goes back to 85, because step 3 starts its
    run stage all the same: the percentages sent are not in non-decreasing
    order.  In the graphical variant the progress of the C language stops at
    40 and never reaches 100. *)
Theorem progress_after_a_compile_failure :
  progress_of 0
    (ui_events (record (@run machine_os _ _
       (Animated.run_animation str_called_process_error example_workspace
          Animated.LANGUAGES) machine_gcc_missing)))
  = [0; 2; 5; 8; 10; 13; 16; 19; 21; 24; 27; 30; 30; 100; 85; 100]%Z
  /\ nondecreasing [0; 2; 5; 8; 10; 13; 16; 19; 21; 24; 27; 30; 30; 100; 85; 100]%Z = false
  /\ panel_progress 0
       (ui_events (record (@Graphical.run_all str_called_process_error example_workspace
          Graphical.LANGUAGES machine_os [] machine_gcc_missing)))
     = [10; 25; 40; 40]%Q.
Proof. vm_compute. repeat split; reflexivity. Qed.

(* ================================================================== *)
(** * graphical_hello.py: one thread                                   *)
(* ================================================================== *)

Lemma last_cons {A} (a d : A) (l : list A) : last (a :: l) d = last l a.
Proof.
  revert a d. induction l as [| b l IH]; intros a d; [reflexivity |].
  change (last (a :: b :: l) d) with (last (b :: l) d). now rewrite !IH.
Qed.

Lemma stage_failed_ui {U} (u : U) (l : list (event U)) :
  stage_failed (Ui u :: l) = stage_failed l.
Proof. reflexivity. Qed.

Lemma stage_failed_write_ok {U} p c (l : list (event U)) :
  stage_failed (Os (WriteText p c None) :: l) = stage_failed l.
Proof. reflexivity. Qed.

Lemma launch_raised_ui {U} (u : U) (l : list (event U)) :
  existsb launch_raised (Ui u :: l) = existsb launch_raised l.
Proof. reflexivity. Qed.

Lemma launch_raised_write {U} p c r (l : list (event U)) :
  existsb launch_raised (Os (WriteText p c r) :: l) = existsb launch_raised l.
Proof. reflexivity. Qed.

Lemma removals_ui {U} (u : U) (l : list (event U)) : removals (Ui u :: l) = removals l.
Proof. reflexivity. Qed.

Lemma removals_write {U} p c r (l : list (event U)) :
  removals (Os (WriteText p c r) :: l) = removals l.
Proof. reflexivity. Qed.

Lemma removals_spawn {U} c cwd lim b (l : list (event U)) :
  removals (Os (Spawn c cwd lim b) :: l) = removals l.
Proof. reflexivity. Qed.

Lemma write_failed_is_not_succeeded :
  text_eqb (utf8 "파일 작성 실패") (utf8 "실행 완료") = false.
Proof. vm_compute. reflexivity. Qed.

Lemma compile_failed_is_not_succeeded :
  text_eqb (utf8 "컴파일 실패") (utf8 "실행 완료") = false.
Proof. vm_compute. reflexivity. Qed.

Lemma run_failed_is_not_succeeded :
  text_eqb (utf8 "실행 실패") (utf8 "실행 완료") = false.
Proof. vm_compute. reflexivity. Qed.

Section GraphicalFacts.
Variable str_exc : cmd -> Z -> text.
Variable workspace : path.
Variable LANGUAGES : list Graphical.LanguageSpec.

Local Abbreviation compile_loop := (Graphical.compile_loop str_exc workspace).
Local Abbreviation run_stage := (Graphical.run_stage str_exc workspace).
Local Abbreviation execute_language := (Graphical.execute_language str_exc workspace LANGUAGES).

Lemma updates_of_update (index : nat) (s : Graphical.LanguageState) l :
  Graphical.updates_of index (Ui (Graphical.Update index s) :: l)
  = s :: Graphical.updates_of index l.
Proof. unfold Graphical.updates_of. simpl. now rewrite Nat.eqb_refl. Qed.

Lemma updates_of_os (index : nat) (c : oscall) (l : list (event Graphical.ui)) :
  Graphical.updates_of index (Os c :: l) = Graphical.updates_of index l.
Proof. reflexivity. Qed.

Lemma updates_of_app (index : nat) (l1 l2 : list (event Graphical.ui)) :
  Graphical.updates_of index (l1 ++ l2)
  = Graphical.updates_of index l1 ++ Graphical.updates_of index l2.
Proof. apply flat_map_app. Qed.

Lemma graphical_compile_loop_spec (cmds : list cmd) :
  forall index n i state total l out,
    traces (compile_loop index n i state total cmds) l out ->
    written l = [] /\ removals l = [] /\
    match out with
    | Ret (inr (state', t)) =>
        launched l = cmds /\ stage_failed l = false
        /\ map Graphical.progress (Graphical.updates_of index l)
           = map (band n) (seq i (List.length cmds))
        /\ last (Graphical.updates_of index l) state = state'
        /\ Graphical.failed state' = Graphical.failed state
    | Ret (inl _) =>
        stage_failed l = true
        /\ exists j ups s_f,
             j < List.length cmds
             /\ Graphical.updates_of index l = ups ++ [s_f]
             /\ map Graphical.progress ups = map (band n) (seq i j)
             /\ Graphical.failed s_f = true
             /\ Graphical.progress s_f = Graphical.progress (last ups state)
             /\ Graphical.status s_f = utf8 "컴파일 실패"
    | Raise e => exists msg, e = OSError msg /\ existsb launch_raised l = true
    | Block => False
    end.
Proof.
  induction cmds as [| c rest IH]; intros index n i state total l out H.
  - step_traces H. simpl. repeat split; reflexivity.
  - step_call H as b.
    destruct b as [rc o e d | msg d | msg | ]; simpl in H.
    + destruct (expired limit_30s d) eqn:Ex; simpl in H.
      * repeat step_traces H. repeat split; auto.
        -- simpl. now rewrite Ex.
        -- exists 0, []. eexists. simpl. rewrite Nat.eqb_refl. simpl.
           repeat split; auto; lia.
      * destruct (rc =? 0)%Z eqn:Erc; simpl in H.
        -- step_traces H. apply IH in H. destruct H as (Hw & Hr & H).
           rewrite updates_of_os, updates_of_update.
           simpl written; simpl removals. repeat split; auto.
           destruct out as [[u | [state' t]] | e0 | ]; auto.
           ++ destruct H as (Hs & j & ups & s_f & Hj & Hu & Hp & Hf & Hpr & Hst).
              split. { simpl. now rewrite Ex, Erc. }
              exists (S j). eexists (_ :: ups), s_f. rewrite Hu, last_cons. simpl.
              rewrite Hp. split; [lia |]. split; [reflexivity |].
              repeat split; auto.
           ++ destruct H as (Hl & Hs & Hp & Hlast & Hf).
              rewrite last_cons. unfold launched in *. simpl.
              rewrite Hl, Hp, Ex, Erc. simpl. repeat split; auto.
        -- repeat step_traces H. repeat split; auto.
           ++ simpl. now rewrite Ex, Erc.
           ++ exists 0, []. eexists. simpl. rewrite Nat.eqb_refl. simpl.
              repeat split; auto; lia.
    + repeat step_traces H. repeat split; auto.
      exists 0, []. eexists. simpl. rewrite Nat.eqb_refl. simpl. repeat split; auto; lia.
    + repeat step_traces H. repeat split; auto. exists msg. auto.
    + repeat step_traces H. repeat split; auto.
      exists 0, []. eexists. simpl. rewrite Nat.eqb_refl. simpl. repeat split; auto; lia.
Qed.

Lemma graphical_run_stage_spec (index : nat) (spec : Graphical.LanguageSpec)
    (state : Graphical.LanguageState) :
  forall l out,
    traces (run_stage index spec state) l out ->
    written l = [] /\ removals l = [] /\ launched l = [Graphical.run_cmd spec] /\
    match out with
    | Ret _ =>
        exists s1 s2,
          Graphical.updates_of index l = [s1; s2]
          /\ Graphical.progress s1 = 85%Q
          /\ Graphical.progress s2 = 100%Q
          /\ Graphical.failed s2 = Graphical.failed state || stage_failed l
          /\ Graphical.succeeded s2 = negb (stage_failed l)
    | Raise e => exists msg, e = OSError msg /\ existsb launch_raised l = true
    | Block => False
    end.
Proof.
  intros l out H. unfold Graphical.run_stage in H. step_traces H. step_call H as b.
  rewrite updates_of_update, updates_of_os.
  destruct b as [rc o e d | msg d | msg | ]; simpl in H.
  - destruct (expired limit_30s d) eqn:Ex; simpl in H.
    + repeat step_traces H. rewrite updates_of_update. simpl. rewrite Ex. simpl.
      repeat split; auto. do 2 eexists. repeat split; auto using orb_true_r.
    + destruct (rc =? 0)%Z eqn:Erc; simpl in H.
      * repeat step_traces H. rewrite updates_of_update. simpl. rewrite Ex, Erc. simpl.
        repeat split; auto. do 2 eexists. repeat split; auto using orb_false_r.
      * repeat step_traces H. rewrite updates_of_update. simpl. rewrite Ex, Erc. simpl.
        repeat split; auto. do 2 eexists. repeat split; auto using orb_true_r.
  - repeat step_traces H. rewrite updates_of_update. simpl.
    repeat split; auto. do 2 eexists. repeat split; auto using orb_true_r.
  - repeat step_traces H. simpl. repeat split; auto. eauto.
  - repeat step_traces H. rewrite updates_of_update. simpl.
    repeat split; auto. do 2 eexists. repeat split; auto using orb_true_r.
Qed.

Lemma map_last {A B} (f : A -> B) (l : list A) (d : A) :
  f (last l d) = last (map f l) (f d).
Proof.
  revert d. induction l as [| a l IH]; intros d; [reflexivity |].
  rewrite last_cons. simpl map. rewrite last_cons. apply IH.
Qed.

Lemma last_app_cons {A} (l : list A) (a d : A) : last (l ++ [a]) d = a.
Proof. apply last_last. Qed.

(** What the thread of one language does, whatever the system answers. *)
Lemma graphical_thread_spec (index : nat) (spec : Graphical.LanguageSpec) :
  nth_error LANGUAGES index = Some spec ->
  forall l out,
    traces (execute_language index) l out ->
    removals l = [] /\
    match out with
    | Ret _ =>
        let ups := Graphical.updates_of index l in
        let s := last ups Graphical.new_state in
        Graphical.failed s = stage_failed l
        /\ Graphical.succeeded s = negb (Graphical.failed s)
        /\ (Graphical.failed s = false -> Graphical.progress s = 100%Q)
        /\ graphical_shape (List.length (Graphical.compile_cmds spec))
                           (map Graphical.progress ups)
    | Raise e => exists msg, e = OSError msg /\ existsb launch_raised l = true
    | Block => False
    end.
Proof.
  intros Hspec l out H. unfold Graphical.execute_language in H. rewrite Hspec in H.
  step_traces H. step_call H as x.
  rewrite updates_of_update, updates_of_os.
  destruct x as [[msg |] elapsed]; simpl in H.
  - (* the write fails *)
    repeat step_traces H. rewrite updates_of_update. split; [reflexivity |].
    change (Graphical.updates_of index []) with (@nil Graphical.LanguageState).
    cbv zeta. rewrite !last_cons. change (last [] ?x) with x.
    unfold Graphical.succeeded. simpl Graphical.status. simpl Graphical.failed.
    rewrite write_failed_is_not_succeeded.
    split; [reflexivity |]. split; [reflexivity |]. split; [discriminate |].
    unfold graphical_shape. left. reflexivity.
  - step_traces H. rewrite updates_of_update.
    destruct (Graphical.compile_cmds spec) as [| c rest] eqn:Ec.
    + (* nothing to compile *)
      step_head H. rewrite updates_of_update.
      apply graphical_run_stage_spec in H. destruct H as (Hw & Hr & Hl & H).
      change (fst (@None text, elapsed)) with (@None text).
      rewrite !removals_ui, removals_write, !removals_ui.
      split; [exact Hr |].
      destruct out as [u | e | ]; [| | exact H].
      2:{ destruct H as (msg & -> & Hx). exists msg. split; [reflexivity |].
          rewrite !launch_raised_ui, launch_raised_write, !launch_raised_ui. exact Hx. }
      destruct H as (s1 & s2 & Hu & H85 & H100 & Hf & Hs).
      rewrite Hu. cbv zeta. rewrite !last_cons. change (last [] s2) with s2.
      rewrite !stage_failed_ui, stage_failed_write_ok, !stage_failed_ui.
      rewrite Hs, Hf. simpl Graphical.failed.
      split; [reflexivity |]. split; [reflexivity |]. split; [intros _; exact H100 |].
      unfold graphical_shape. right. left. split; [reflexivity |].
      simpl map. rewrite H85, H100. reflexivity.
    + assert (Hpos : 0 < List.length (Graphical.compile_cmds spec)).
      { rewrite Ec. simpl. lia. }
      rewrite <- Ec in *. step_traces H. rewrite updates_of_update.
      apply traces_bind in H.
      destruct H as [(a & l1 & l2 & H1 & H2 & ->) | [(e & H1 & ->) | (H1 & ->)]];
        apply graphical_compile_loop_spec in H1; destruct H1 as (Hw1 & Hr1 & H1).
      * rewrite updates_of_app.
        rewrite !removals_ui, removals_write, !removals_ui, removals_app, Hr1.
        rewrite !stage_failed_ui, stage_failed_write_ok, !stage_failed_ui, stage_failed_app.
        destruct a as [u | [state' t]].
        -- (* a compile step fails *)
           step_traces H2.
           destruct H1 as (Hs & j & ups & s_f & Hj & Hu & Hp & Hf & Hpr & Hst).
           split; [reflexivity |]. rewrite Hu, Hs.
           change (Graphical.updates_of index []) with (@nil Graphical.LanguageState).
           rewrite app_nil_r. cbv zeta.
           rewrite !last_cons, last_app_cons.
           rewrite Hf. unfold Graphical.succeeded. rewrite Hst.
           rewrite compile_failed_is_not_succeeded.
           split; [reflexivity |]. split; [reflexivity |].
           split; [discriminate |].
           unfold graphical_shape. right. right. left. exists j. split; [exact Hj |].
           simpl. rewrite map_app, Hp. simpl. rewrite Hpr.
           rewrite map_last, Hp. reflexivity.
        -- (* all the compile steps succeed *)
           destruct H1 as (Hl1 & Hs1 & Hp & Hlast & Hf1). step_traces H2.
           rewrite updates_of_update, removals_ui, stage_failed_ui, Hs1.
           apply graphical_run_stage_spec in H2. destruct H2 as (Hw2 & Hr2 & Hl2 & H2).
           split; [exact Hr2 |].
           destruct out as [u | e | ]; auto.
           ++ destruct H2 as (s1 & s2 & Hu & H85 & H100 & Hf & Hs).
              rewrite Hu. cbv zeta.
              replace (last _ Graphical.new_state) with s2.
              2:{ change [s1; s2] with ([s1] ++ [s2]).
                  rewrite !app_comm_cons, !app_assoc. now rewrite last_app_cons. }
              rewrite Hf, Hs. simpl Graphical.failed. rewrite Hf1.
              simpl. repeat split; auto.
              unfold graphical_shape. right. right. right. split; [exact Hpos |].
              simpl. rewrite map_app, Hp. simpl. rewrite H85, H100. reflexivity.
           ++ destruct H2 as (msg & -> & Hx). exists msg. split; auto.
              simpl. rewrite existsb_app. simpl. rewrite Hx. apply orb_true_r.
      * destruct H1 as (msg & -> & Hx).
        rewrite !removals_ui, removals_write, !removals_ui, Hr1. split; auto.
        exists msg. split; auto.
      * contradiction.
Qed.

End GraphicalFacts.

(* ================================================================== *)
(** * The percentages of each front end                                *)
(* ================================================================== *)



Lemma last_map_band (n j : nat) :
  last (map (band n) (seq 0 (S j))) 40%Q = band n j.
Proof. rewrite seq_S, map_app. simpl. apply last_last. Qed.


Section AnimatedProgress.
Variable str_exc : cmd -> Z -> text.
Variable WORKSPACE : path.

Local Abbreviation compile_loop := (Animated.compile_loop str_exc WORKSPACE).
Local Abbreviation step2_body := (Animated.step2_body str_exc WORKSPACE).
Local Abbreviation step3_body := (Animated.step3_body str_exc WORKSPACE).

Lemma progress_of_cons_progress (idx : nat) (p : Z) (us : list Animated.ui) :
  progress_of idx (Animated.EvProgress idx p :: us) = p :: progress_of idx us.
Proof. unfold progress_of. simpl. now rewrite Nat.eqb_refl. Qed.

(** The compile loop sends no percentage. *)
Lemma anim_compile_loop_progress (cmds : list cmd) :
  forall idx compile_total last_cmd_str l out i,
    traces (compile_loop idx compile_total last_cmd_str cmds) l out ->
    progress_of i (ui_events l) = [].
Proof.
  induction cmds as [| c0 rest IH]; intros idx compile_total last_cmd_str l out i H.
  - step_traces H. reflexivity.
  - step_traces H. step_call H as x.
    destruct x as [rc o e d | msg d | msg | ]; simpl in H.
    + destruct (expired limit_30s d); simpl in H.
      * repeat step_traces H. reflexivity.
      * destruct (rc =? 0)%Z; simpl in H.
        -- apply IH with (i := i) in H. exact H.
        -- repeat step_traces H. reflexivity.
    + repeat step_traces H. reflexivity.
    + repeat step_traces H. reflexivity.
    + repeat step_traces H. reflexivity.
Qed.

(** Step 2 sends 30 when it starts and 70 when it ends, or 100 when a
    compile command failed. *)
Lemma anim_step2_progress (idx : nat) (lang : Animated.Language) (timings : dict) :
  forall l timings',
    traces (step2_body idx lang timings) l (Ret timings') ->
    progress_of idx (ui_events l) = [30; 70]%Z
    \/ progress_of idx (ui_events l) = [30; 100]%Z.
Proof.
  intros l timings' H. unfold Animated.step2_body in H.
  do 2 step_traces H. step_call H as x.
  destruct x as [[msg |] elapsed]; simpl in H.
  - simpl in H. destruct H as [_ E]. discriminate.
  - apply traces_bind in H.
    destruct H as [(a & l1 & l2 & H1 & H2 & ->) | [(e & H1 & E) | (H1 & E)]];
      try discriminate.
    apply anim_compile_loop_progress with (i := idx) in H1.
    destruct a as [[total failed] last].
    change (ui_events (Ui ?a :: Ui ?b :: Os ?c :: ?l))
      with (a :: b :: ui_events l).
    rewrite ui_events_app.
    unfold progress_of in *. simpl flat_map. rewrite Nat.eqb_refl.
    rewrite flat_map_app, H1. simpl app.
    destruct failed; simpl in H2; repeat step_traces H2; simpl;
      rewrite Nat.eqb_refl; destruct H2 as [-> _]; simpl; auto.
Qed.


End AnimatedProgress.

(* ================================================================== *)
(** * Programs that keep to some requests and events                   *)
(* ================================================================== *)

Section ConfinedFacts.
Context {U : Type}.
Variable rq : req -> Prop.
Variable ev : U -> Prop.
Variable may_block : Prop.

Lemma confined_bind {A B} (m : prog U A) (k : A -> prog U B) :
  confined rq ev may_block m ->
  (forall a, confined rq ev may_block (k a)) ->
  confined rq ev may_block (bind m k).
Proof.
  intros Hm Hk. induction m as [a | e | | r k0 IH | u m IH]; simpl in *; auto.
  - destruct Hm as [Hr Hm]. split; auto.
  - destruct Hm as [Hu Hm]. split; auto.
Qed.

Lemma record_of_confined (r : req) (x : resp r) :
  rq r -> Forall (event_confined rq ev) (@record_of U r x).
Proof.
  intros Hr. destruct r; simpl; repeat constructor; exact Hr.
Qed.

(** Every entry of the record of a confined program is one it may make. *)
Lemma confined_traces {A} (p : prog U A) :
  confined rq ev may_block p ->
  forall l out, traces p l out ->
    Forall (event_confined rq ev) l /\ (out = Block -> may_block).
Proof.
  induction p as [a | e | | r k IH | u p IH]; simpl; intros Hp l out H.
  - destruct H as [-> ->]. split; [constructor | discriminate].
  - destruct H as [-> ->]. split; [constructor | discriminate].
  - destruct H as [-> ->]. split; [constructor | auto].
  - destruct Hp as [Hr Hk]. destruct H as (x & l' & -> & H).
    apply IH in H; [| apply Hk]. destruct H as [Hl Hb].
    split; [| exact Hb]. apply Forall_app. split; [| exact Hl].
    now apply record_of_confined.
  - destruct Hp as [Hu Hp]. destruct H as (l' & -> & H).
    apply IH in H; [| exact Hp]. destruct H as [Hl Hb].
    split; [| exact Hb]. constructor; assumption.
Qed.

(** One step of a confined program. *)
Lemma confined_thread_step {os : OS} (p p' : prog U unit) (w w' : world os)
    (l : list (event U)) :
  confined rq ev may_block p ->
  thread_step p w = Some (p', w', l) ->
  confined rq ev may_block p'
  /\ Forall (event_confined rq ev) l
  /\ advances p l p'.
Proof.
  intros Hp Hstep. destruct p as [a | e | | r k | u k]; simpl in *; try discriminate.
  - destruct (perform os r w) as [x w1] eqn:E. inversion Hstep; subst.
    destruct Hp as [Hr Hk]. split; [apply Hk |]. split.
    + now apply record_of_confined.
    + intros rest out H. simpl. eauto.
  - inversion Hstep; subst. destruct Hp as [Hu Hk]. split; [exact Hk |]. split.
    + repeat constructor. exact Hu.
    + intros rest out H. simpl. eauto.
Qed.

End ConfinedFacts.

Lemma advances_refl {U A} (p : prog U A) : advances p [] p.
Proof. intros rest out H. exact H. Qed.

Lemma advances_trans {U A} (p q r : prog U A) (l1 l2 : list (event U)) :
  advances p l1 q -> advances q l2 r -> advances p (l1 ++ l2) r.
Proof.
  intros H1 H2 rest out H. rewrite <- app_assoc. apply H1, H2, H.
Qed.

(** A record without removal requests has no removal. *)
Lemma no_removal_request {U} (ev : U -> Prop) (l : list (event U)) :
  Forall (event_confined not_a_removal ev) l -> removals l = [].
Proof.
  induction 1 as [| e l He Hl IH]; [reflexivity |].
  destruct e as [[c cwd lim b | p c r | p r | p r] | u]; simpl in *;
    try exact IH. contradiction.
Qed.

Lemma pipeline_request_not_a_removal {U} (ev : U -> Prop) (l : list (event U)) :
  Forall (event_confined pipeline_request ev) l ->
  Forall (event_confined not_a_removal ev) l.
Proof.
  apply Forall_impl. intros [[c cwd lim b | p c r | p r | p r] | u]; simpl; auto.
Qed.

Lemma set_nth_same {A} (l : list A) (i : nat) (x y : A) :
  nth_error l i = Some y -> nth_error (set_nth l i x) i = Some x.
Proof.
  revert i. induction l as [| a l IH]; intros [| i] H; simpl in *;
    try discriminate; auto.
Qed.

Lemma set_nth_other {A} (l : list A) (i j : nat) (x : A) :
  i <> j -> nth_error (set_nth l i x) j = nth_error l j.
Proof.
  revert i j. induction l as [| a l IH]; intros [| i] [| j] H; simpl;
    try reflexivity; try contradiction.
  apply IH. congruence.
Qed.

(* ================================================================== *)
(** * graphical_hello.py: the threads together                         *)
(* ================================================================== *)

Lemma nth_error_map_seq {A} (f : nat -> A) (n b i : nat) (x : A) :
  nth_error (map f (seq b n)) i = Some x -> i < n /\ x = f (b + i).
Proof.
  revert b i. induction n as [| n IH]; intros b [| i] H; simpl in *;
    try discriminate.
  - inversion H. split; [lia | f_equal; lia].
  - apply IH in H. destruct H as [Hi ->]. split; [lia | f_equal; lia].
Qed.

Lemma nth_error_map_seq_lt {A} (f : nat -> A) (n b i : nat) :
  i < n -> nth_error (map f (seq b n)) i = Some (f (b + i)).
Proof.
  revert b i. induction n as [| n IH]; intros b [| i] H; simpl; try lia.
  - f_equal. f_equal. lia.
  - rewrite IH by lia. f_equal. f_equal. lia.
Qed.

Lemma updates_of_other_thread (i k : nat) (l : list (event Graphical.ui)) :
  Forall (event_confined pipeline_request (panel_update i)) l ->
  k <> i ->
  Graphical.updates_of k l = [].
Proof.
  intros Hl Hk. induction Hl as [| e l He Hl IH]; [reflexivity |].
  destruct e as [c | [j s | sc fc t cl]]; simpl in *; try exact IH.
  subst j. destruct (Nat.eqb_spec i k); [congruence | exact IH].
Qed.

Lemma thread_events_no_removal (i : nat) (l : list (event Graphical.ui)) :
  Forall (event_confined pipeline_request (panel_update i)) l -> removals l = [].
Proof.
  intros H. eapply no_removal_request, pipeline_request_not_a_removal, H.
Qed.

Section GraphicalPool.
Variable str_exc : cmd -> Z -> text.
Variable workspace : path.
Variable LANGUAGES : list Graphical.LanguageSpec.

Local Abbreviation run_subprocess := (Graphical.run_subprocess str_exc).
Local Abbreviation compile_loop := (Graphical.compile_loop str_exc workspace).
Local Abbreviation run_stage := (Graphical.run_stage str_exc workspace).
Local Abbreviation execute_language :=
  (Graphical.execute_language str_exc workspace LANGUAGES).
Local Abbreviation run_threads := (Graphical.run_threads str_exc workspace LANGUAGES).

Ltac confined_auto :=
  repeat match goal with
         | |- forall _, _ => intro
         | |- _ /\ _ => split
         | |- True => exact I
         | |- pipeline_request _ => exact I
         | |- panel_update _ _ => reflexivity
         | |- confined _ _ _ (bind _ _) => apply confined_bind
         | |- confined _ _ _ (match ?x with _ => _ end) => destruct x
         | |- confined _ _ _ _ => progress simpl
         end.

Lemma run_subprocess_confined (index : nat) (c : cmd) (cwd : path) :
  confined pipeline_request (panel_update index) False (run_subprocess c cwd).
Proof. unfold Graphical.run_subprocess, subprocess_run, limit_30s. confined_auto. Qed.

Lemma compile_loop_confined (index n_cmds : nat) (cmds : list cmd) :
  forall i state compile_total,
    confined pipeline_request (panel_update index) False
      (compile_loop index n_cmds i state compile_total cmds).
Proof.
  induction cmds as [| c rest IH]; intros i state compile_total.
  - exact I.
  - cbn [Graphical.compile_loop]. apply confined_bind.
    + apply run_subprocess_confined.
    + intros [[[success elapsed] stdout] stderr].
      destruct success; cbn [negb]; cbv iota.
      * apply confined_bind; [simpl; auto | intros _; apply IH].
      * apply confined_bind; [simpl; auto | intros _; exact I].
Qed.

Lemma run_stage_confined (index : nat) (spec : Graphical.LanguageSpec)
    (state : Graphical.LanguageState) :
  confined pipeline_request (panel_update index) False (run_stage index spec state).
Proof.
  unfold Graphical.run_stage. cbv zeta. apply confined_bind; [simpl; auto |].
  intros _. apply confined_bind; [apply run_subprocess_confined |].
  intros [[[success elapsed] stdout] stderr]. simpl. auto.
Qed.

(** The thread of language [index] launches and writes, updates panel
    [index] alone, and never waits for ever. *)
Lemma execute_language_confined (index : nat) : thread_ok index (execute_language index).
Proof.
  unfold thread_ok, Graphical.execute_language.
  destruct (nth_error LANGUAGES index) as [spec |]; [| exact I].
  cbv zeta. apply confined_bind; [simpl; auto |]. intros _.
  apply confined_bind; [simpl; auto |]. intros [[msg |] elapsed].
  - simpl. auto.
  - apply confined_bind; [simpl; auto |]. intros _.
    destruct (Graphical.compile_cmds spec) as [| c rest].
    + apply confined_bind; [simpl; auto |]. intros _. apply run_stage_confined.
    + apply confined_bind; [simpl; auto |]. intros _.
      apply confined_bind; [apply compile_loop_confined |].
      intros [u | [state t]]; [exact I |].
      apply confined_bind; [simpl; auto |]. intros _. apply run_stage_confined.
Qed.

(** The threads while they run side by side: what each has done so far is
    the beginning of one of its own runs, and nothing is removed. *)
Lemma run_pool_spec {os : OS} (sched : list nat) :
  forall (pool pool' : list (prog Graphical.ui unit)) (w w' : world os) l,
    run_pool sched pool w = (pool', w', l) ->
    pool_ok 0 pool ->
    pool_ok 0 pool'
    /\ removals l = []
    /\ forall i p, nth_error pool i = Some p ->
         exists p' li,
           nth_error pool' i = Some p'
           /\ advances p li p'
           /\ incl li l
           /\ Graphical.updates_of i l = Graphical.updates_of i li.
Proof.
  induction sched as [| j rest IH]; intros pool pool' w w' l Hrun Hok.
  - simpl in Hrun. inversion Hrun; subst. split; [exact Hok |].
    split; [reflexivity |]. intros i p Hi. exists p, [].
    repeat split; auto using advances_refl, incl_refl.
  - simpl in Hrun. destruct (nth_error pool j) as [pj |] eqn:Ej; [| eapply IH; eauto].
    destruct (thread_step pj w) as [[[pj' w1] ev] |] eqn:Es; [| eapply IH; eauto].
    destruct (run_pool rest (set_nth pool j pj') w1) as [[pool2 w2] l2] eqn:Er.
    inversion Hrun; subst.
    assert (Hpj : thread_ok j pj) by (apply (Hok j pj Ej)).
    assert (Hstep := Es). eapply confined_thread_step in Hstep; [| exact Hpj].
    destruct Hstep as (Hpj' & Hev & Hadv).
    assert (Hok' : pool_ok 0 (set_nth pool j pj')).
    { intros i p Hi. destruct (Nat.eq_dec j i) as [<- | Hne].
      - erewrite set_nth_same in Hi by eauto. inversion Hi; subst. exact Hpj'.
      - rewrite set_nth_other in Hi by exact Hne. apply Hok. exact Hi. }
    assert (Hrest := Er). apply IH in Hrest; [| exact Hok'].
    destruct Hrest as (Hok2 & Hr2 & Hth).
    split; [exact Hok2 |]. split.
    { rewrite removals_app, Hr2, app_nil_r.
      eapply thread_events_no_removal, Hev. }
    intros i p Hi. destruct (Nat.eq_dec j i) as [<- | Hne].
    + rewrite Ej in Hi. inversion Hi; subst p.
      destruct (Hth j pj') as (p' & li & Hn & Ha & Hin & Hu).
      { eapply set_nth_same; eauto. }
      exists p', (ev ++ li). split; [exact Hn |].
      split; [eapply advances_trans; eauto |].
      split; [apply incl_app_app; auto using incl_refl |].
      rewrite !updates_of_app. now rewrite Hu.
    + destruct (Hth i p) as (p' & li & Hn & Ha & Hin & Hu).
      { rewrite set_nth_other by exact Hne. exact Hi. }
      exists p', li. split; [exact Hn |]. split; [exact Ha |].
      split; [apply incl_appr; exact Hin |].
      rewrite updates_of_app, (updates_of_other_thread Hev), Hu by congruence.
      reflexivity.
Qed.

(** The threads when they are joined, numbered from [base]: each runs to
    its end, none waits for ever, and nothing is removed. *)
Lemma join_all_spec {os : OS} (pool : list (prog Graphical.ui unit)) :
  forall (base : nat) (w w' : world os) out l,
    join_all pool w = (out, w', l) ->
    pool_ok base pool ->
    out = Ret tt
    /\ removals l = []
    /\ (forall k, k < base -> Graphical.updates_of k l = [])
    /\ forall i p, nth_error pool i = Some p ->
         exists li outi,
           traces p li outi
           /\ incl li l
           /\ Graphical.updates_of (base + i) l = Graphical.updates_of (base + i) li.
Proof.
  induction pool as [| p0 rest IH]; intros base w w' out l Hj Hok.
  - simpl in Hj. inversion Hj; subst. repeat split; auto.
    intros [| i] p Hi; discriminate.
  - simpl in Hj. destruct (run p0 w) as [[out0 w1] l1] eqn:Er.
    apply run_traces in Er.
    assert (Hp0 : thread_ok (base + 0) p0) by (apply Hok; reflexivity).
    assert (Hc := Er). eapply confined_traces in Hc; [| exact Hp0].
    destruct Hc as [Hl1 Hb].
    assert (Hok' : pool_ok (S base) rest).
    { intros i p Hi. replace (S base + i) with (base + S i) by lia.
      apply Hok. exact Hi. }
    assert (Hout0 : out0 <> Block) by (intros E; exact (Hb E)).
    assert (Hj' : (let '(out2, w2, l2) := join_all rest w1 in (out2, w2, l1 ++ l2))
                  = (out, w', l)).
    { destruct out0; [exact Hj | exact Hj | congruence]. }
    clear Hj. destruct (join_all rest w1) as [[out2 w2] l2] eqn:Ej.
    inversion Hj'; subst. clear Hj'.
    assert (Hrest := Ej). eapply IH in Hrest; [| exact Hok'].
    destruct Hrest as (-> & Hr2 & Hlow & Hth).
    split; [reflexivity |]. split.
    { rewrite removals_app, Hr2, app_nil_r. eapply thread_events_no_removal, Hl1. }
    split.
    { intros k Hk. rewrite updates_of_app, (updates_of_other_thread Hl1) by lia.
      apply Hlow. lia. }
    intros [| i] p Hi; simpl in Hi.
    + inversion Hi; subst p. exists l1, out0. split; [exact Er |].
      split; [apply incl_appl, incl_refl |].
      rewrite updates_of_app, Hlow by lia. apply app_nil_r.
    + destruct (Hth i p Hi) as (li & outi & Ht & Hin & Hu). exists li, outi.
      split; [exact Ht |]. split; [apply incl_appr; exact Hin |].
      replace (base + S i) with (S base + i) by lia.
      rewrite updates_of_app, (updates_of_other_thread Hl1), Hu by lia.
      reflexivity.
Qed.

(** The threads of a run, whatever the order of their steps: all end, nothing
    is removed meanwhile, and the panel updates of each language are those of
    one run of its own thread. *)
Lemma run_threads_spec {os : OS} (sched : list nat) (w w' : world os) out l :
  run_threads sched w = (out, w', l) ->
  out = Ret tt
  /\ removals l = []
  /\ forall i, i < List.length LANGUAGES ->
       exists li outi,
         traces (execute_language i) li outi
         /\ incl li l
         /\ Graphical.updates_of i l = Graphical.updates_of i li.
Proof.
  unfold Graphical.run_threads. intros Hrun.
  destruct (run_pool sched _ w) as [[pool w1] l1] eqn:Ep.
  destruct (join_all pool w1) as [[out2 w2] l2] eqn:Ej.
  inversion Hrun; subst. clear Hrun.
  assert (Hok : pool_ok 0 (map execute_language (seq 0 (List.length LANGUAGES)))).
  { intros i p Hi. apply nth_error_map_seq in Hi. destruct Hi as [_ ->].
    apply execute_language_confined. }
  assert (H1 := Ep). apply run_pool_spec in H1; [| exact Hok].
  destruct H1 as (Hok1 & Hr1 & Hth1).
  assert (H2 := Ej). eapply join_all_spec in H2; [| exact Hok1].
  destruct H2 as (-> & Hr2 & _ & Hth2).
  split; [reflexivity |]. split; [now rewrite removals_app, Hr1, Hr2 |].
  intros i Hi.
  destruct (Hth1 i (execute_language i)) as (p' & li1 & Hn & Ha & Hin1 & Hu1).
  { now rewrite nth_error_map_seq_lt. }
  destruct (Hth2 i p' Hn) as (li2 & outi & Ht & Hin2 & Hu2).
  exists (li1 ++ li2), outi. split; [apply Ha, Ht |].
  split; [apply incl_app_app; assumption |].
  simpl in Hu2. now rewrite !updates_of_app, Hu1, Hu2.
Qed.

End GraphicalPool.

(* ================================================================== *)
(** * The summary of a run                                             *)
(* ================================================================== *)

Lemma traces_bind_ret {U A B} (m : prog U A) (f : A -> prog U B) l (b : B) :
  traces (bind m f) l (Ret b) ->
  exists a l1 l2, traces m l1 (Ret a) /\ traces (f a) l2 (Ret b) /\ l = l1 ++ l2.
Proof.
  intros H. apply traces_bind in H.
  destruct H as [H | [(e & _ & E) | (_ & E)]]; [exact H | discriminate | discriminate].
Qed.

Lemma existsb_incl {A} (f : A -> bool) (l1 l2 : list A) :
  incl l1 l2 -> existsb f l1 = true -> existsb f l2 = true.
Proof.
  intros Hin H. apply existsb_exists in H. destruct H as (x & Hx & Hf).
  apply existsb_exists. exists x. split; [apply Hin, Hx | exact Hf].
Qed.

Lemma filter_negb_length {A} (f : A -> bool) (l : list A) :
  List.length l - List.length (filter (fun x => negb (f x)) l)
  = List.length (filter f l).
Proof.
  pose proof (filter_length f l) as H. lia.
Qed.

Section GraphicalSummary.
Variable str_exc : cmd -> Z -> text.
Variable workspace : path.
Variable LANGUAGES : list Graphical.LanguageSpec.

Local Abbreviation execute_language :=
  (Graphical.execute_language str_exc workspace LANGUAGES).
Local Abbreviation run_threads := (Graphical.run_threads str_exc workspace LANGUAGES).
Local Abbreviation run_all := (Graphical.run_all str_exc workspace LANGUAGES).
Local Abbreviation states_after := (Graphical.states_after LANGUAGES).

(** [run_all], step by step: the threads, the removal of the workspace and
    the summary. *)
Lemma run_all_spec {os : OS} (sched : list nat) (w w' : world os) out l :
  run_all sched w = (out, w', l) ->
  exists lt w1,
    run_threads sched (snd (perform os RNow w)) = (Ret tt, w1, lt)
    /\ removals lt = []
    /\ out = Ret tt
    /\ w' = snd (perform os (RRmtree workspace) (snd (perform os RNow w1)))
    /\ let exc := fst (perform os (RRmtree workspace) (snd (perform os RNow w1))) in
       let total := (fst (perform os RNow w1) - fst (perform os RNow w))%N in
       let cleaned := match exc with None => true | Some _ => false end in
       l = lt ++ [Os (Rmtree workspace exc);
                  Ui (Graphical.finish_execution (states_after lt) total cleaned)].
Proof.
  unfold Graphical.run_all. intros H.
  destruct (perform os RNow w) as [t0 w0] eqn:E0.
  destruct (run_threads sched w0) as [[out1 w1] lt] eqn:Et.
  assert (Hspec := Et). apply run_threads_spec in Hspec.
  destruct Hspec as (-> & Hr & _).
  destruct (perform os RNow w1) as [t1 w2] eqn:E1.
  destruct (perform os (RRmtree workspace) w2) as [exc w3] eqn:E2.
  inversion H; subst. exists lt, w1. simpl. rewrite E1. simpl. rewrite E2. simpl.
  repeat split; auto.
Qed.

(** When no launch raised an error, the state object of every language is
    marked failed or is the state of a successful run, after the threads. *)
Lemma states_after_threads {os : OS} (sched : list nat) (w w' : world os) out lt :
  run_threads sched w = (out, w', lt) ->
  existsb launch_raised lt = false ->
  forall i, i < List.length LANGUAGES ->
    Graphical.succeeded (Graphical.state_after lt i)
    = negb (Graphical.failed (Graphical.state_after lt i)).
Proof.
  intros Hrun Hno i Hi. apply run_threads_spec in Hrun.
  destruct Hrun as (_ & _ & Hth). destruct (Hth i Hi) as (li & outi & Ht & Hin & Hu).
  destruct (nth_error LANGUAGES i) as [spec |] eqn:Espec.
  2:{ apply nth_error_None in Espec. lia. }
  eapply graphical_thread_spec in Ht; [| exact Espec].
  destruct Ht as (_ & Ht). unfold Graphical.state_after. rewrite Hu.
  destruct outi as [u | e | ].
  - cbv zeta in Ht. tauto.
  - destruct Ht as (msg & _ & Hx). apply (existsb_incl _ Hin) in Hx. congruence.
  - contradiction.
Qed.

End GraphicalSummary.

Section AnimatedSummary.
Variable str_exc : cmd -> Z -> text.
Variable WORKSPACE : path.
Variable LANGUAGES : list Animated.Language.

Local Abbreviation run_animation := (Animated.run_animation str_exc WORKSPACE LANGUAGES).

(** The loops over the languages keep one dictionary of timings for each
    language. *)
Lemma for_languages_length (body : nat -> Animated.Language -> dict -> prog Animated.ui dict)
    (langs : list Animated.Language) :
  forall idx timings l timings',
    traces (Animated.for_languages body idx langs timings) l (Ret timings') ->
    List.length timings' = List.length timings.
Proof.
  induction langs as [| lang rest IH]; intros idx timings l timings' H.
  - simpl in H. destruct H as [_ E]. now inversion E.
  - destruct timings as [| t ts]; simpl in H.
    + destruct H as [_ E]. now inversion E.
    + change (traces (t' <- body idx lang t ;;
                      r <- Animated.for_languages body (S idx) rest ts ;;
                      ret (t' :: r)) l (Ret timings')) in H.
      apply traces_bind_ret in H. destruct H as (t' & l1 & l2 & _ & H & _).
      apply traces_bind_ret in H. destruct H as (r & l3 & l4 & Hr & H & _).
      apply IH in Hr. simpl in H. destruct H as [_ E]. inversion E. simpl.
      now rewrite Hr.
Qed.

(** The last event of a run of the animated variant: a count and the number
    of languages. *)
Lemma run_animation_done :
  forall l timings,
    traces run_animation l (Ret timings) ->
    exists pre,
      ui_events l
      = pre ++ [Animated.EvDone (Animated.success_count timings) (List.length LANGUAGES)]
      /\ List.length timings = List.length LANGUAGES.
Proof.
  intros l timings H. unfold Animated.run_animation in H.
  apply traces_bind_ret in H. destruct H as (present & l1 & r1 & _ & H & ->).
  apply traces_bind_ret in H. destruct H as (u2 & l2 & r2 & _ & H & ->).
  apply traces_bind_ret in H. destruct H as (u3 & l3 & r3 & _ & H & ->).
  apply traces_bind_ret in H. destruct H as (u4 & l4 & r4 & _ & H & ->).
  apply traces_bind_ret in H. destruct H as (u5 & l5 & r5 & _ & H & ->).
  apply traces_bind_ret in H. destruct H as (t1 & l6 & r6 & Ht1 & H & ->).
  apply traces_bind_ret in H. destruct H as (u7 & l7 & r7 & _ & H & ->).
  apply traces_bind_ret in H. destruct H as (t2 & l8 & r8 & Ht2 & H & ->).
  apply traces_bind_ret in H. destruct H as (u9 & l9 & r9 & _ & H & ->).
  apply traces_bind_ret in H. destruct H as (exc & l10 & r10 & Hrm & H & ->).
  simpl in Hrm. destruct Hrm as (x & lr & -> & -> & _).
  simpl in H. destruct H as (lr & -> & -> & E). inversion E; subst.
  apply for_languages_length in Ht1, Ht2. rewrite length_map in Ht1.
  eexists. split; [| congruence].
  rewrite !app_assoc, ui_events_app. reflexivity.
Qed.

End AnimatedSummary.

(* ================================================================== *)
(** * The clean-up of the workspace                                    *)
(* ================================================================== *)

Section RunInversion.
Context {os : OS} {U : Type}.

Lemma run_bind_inv {A B} (m : prog U A) (k : A -> prog U B) :
  forall (w w' : world os) out l,
    run (bind m k) w = (out, w', l) ->
    (exists a w1 l1 l2,
        run m w = (Ret a, w1, l1) /\ run (k a) w1 = (out, w', l2) /\ l = l1 ++ l2)
    \/ (exists e, run m w = (Raise e, w', l) /\ out = Raise e)
    \/ (run m w = (Block, w', l) /\ out = Block).
Proof.
  induction m as [a | e | | r k0 IH | u m IH]; simpl; intros w w' out l H.
  - left. exists a, w, [], l. auto.
  - inversion H; subst. right; left. eauto.
  - inversion H; subst. right; right. auto.
  - destruct (perform os r w) as [x w1] eqn:E.
    destruct (run (bind (k0 x) k) w1) as [[o w2] l2] eqn:E2.
    inversion H; subst. apply IH in E2.
    destruct E2 as [(a & w3 & l3 & l4 & H1 & H2 & ->) | [(e & H1 & ->) | (H1 & ->)]];
      rewrite H1.
    + left. exists a, w3, (record_of r x ++ l3), l4.
      repeat split; auto using app_assoc.
    + right; left. eauto.
    + right; right. auto.
  - destruct (run (bind m k) w) as [[o w1] l1] eqn:E.
    inversion H; subst. apply IH in E.
    destruct E as [(a & w3 & l3 & l4 & H1 & H2 & ->) | [(e & H1 & ->) | (H1 & ->)]];
      rewrite H1.
    + left. exists a, w3, (Ui u :: l3), l4. repeat split; auto.
    + right; left. eauto.
    + right; right. auto.
Qed.

(** [try: body finally: fin]: unless the body waits for ever, [fin] runs
    when the body has ended, however it ended. *)
Lemma run_try_finally_inv {A} (body : prog U A) (fin : prog U unit) :
  forall (w w' : world os) out l,
    run (try_finally body fin) w = (out, w', l) ->
    (exists wb, run body w = (Block, wb, l) /\ out = Block)
    \/ (exists rb wb lb rf lf,
          run body w = (rb, wb, lb)
          /\ rb <> Block
          /\ run fin wb = (rf, w', lf)
          /\ l = lb ++ lf
          /\ out = match rf with
                   | Ret _ => rb
                   | Raise e => Raise e
                   | Block => Block
                   end).
Proof.
  induction body as [a | e | | r k IH | u m IH]; simpl; intros w w' out l H.
  - right. apply run_bind_inv in H.
    destruct H as [(x & w1 & l1 & l2 & H1 & H2 & ->) | [(e & H1 & ->) | (H1 & ->)]].
    + simpl in H2. inversion H2; subst. exists (Ret a), w, [], (Ret x), l1.
      rewrite app_nil_r. repeat split; auto; discriminate.
    + exists (Ret a), w, [], (Raise e), l. repeat split; auto; discriminate.
    + exists (Ret a), w, [], Block, l. repeat split; auto; discriminate.
  - right. apply run_bind_inv in H.
    destruct H as [(x & w1 & l1 & l2 & H1 & H2 & ->) | [(e' & H1 & ->) | (H1 & ->)]].
    + simpl in H2. inversion H2; subst. exists (Raise e), w, [], (Ret x), l1.
      rewrite app_nil_r. repeat split; auto; discriminate.
    + exists (Raise e), w, [], (Raise e'), l. repeat split; auto; discriminate.
    + exists (Raise e), w, [], Block, l. repeat split; auto; discriminate.
  - inversion H; subst. left. eauto.
  - destruct (perform os r w) as [x w1] eqn:E.
    destruct (run (try_finally (k x) fin) w1) as [[o w2] l2] eqn:E2.
    inversion H; subst. apply IH in E2.
    destruct E2 as [(wb & H1 & ->) | (rb & wb & lb & rf & lf & H1 & Hrb & H2 & -> & ->)];
      rewrite H1.
    + left. eauto.
    + right. exists rb, wb, (record_of r x ++ lb), rf, lf.
      repeat split; auto using app_assoc.
  - destruct (run (try_finally m fin) w) as [[o w1] l1] eqn:E.
    inversion H; subst. apply IH in E.
    destruct E as [(wb & H1 & ->) | (rb & wb & lb & rf & lf & H1 & Hrb & H2 & -> & ->)];
      rewrite H1.
    + left. eauto.
    + right. exists rb, wb, (Ui u :: lb), rf, lf. repeat split; auto.
Qed.

End RunInversion.

Lemma starts_with_eqb (p f : text) : text_eqb p f = true -> starts_with p f = true.
Proof.
  intros H. apply text_eqb_eq in H. subst f.
  induction p as [| x p IH]; simpl; [reflexivity |].
  now rewrite N.eqb_refl, IH.
Qed.

(** The example machines keep the law of removals. *)
Lemma machine_removal_law : removal_law machine_os.
Proof.
  split.
  - intros p w. reflexivity.
  - intros p w. simpl. destruct (negb (present w p)); simpl; [discriminate |].
    destruct (rmtree_error w); simpl; [discriminate |]. intros _.
    unfold present. simpl.
    induction (files w) as [| f fs IH]; simpl; [reflexivity |].
    destruct (starts_with p f) eqn:Es; simpl; [exact IH |].
    rewrite IH, orb_false_r.
    destruct (text_eqb p f) eqn:Ee; [| reflexivity].
    apply starts_with_eqb in Ee. congruence.
Qed.

Section MultiLangCleanup.
Variable workspace : path.
Variable LANGUAGES : list MultiLang.Language.

Local Abbreviation quiet p :=
  (confined not_a_removal (fun _ : MultiLang.ui => True) True p).

Transparent MultiLang.run_command.

Lemma multilang_run_command_quiet (label : text) (c : cmd) (cwd : path) (show : bool) :
  quiet (MultiLang.run_command label c cwd show).
Proof.
  unfold MultiLang.run_command, subprocess_run, MultiLang.when, MultiLang.print_stream,
    expired.
  simpl. split; [exact I |].
  intros [rc o e d | msg d | msg | ]; simpl; auto.
  destruct (rc =? 0)%Z; simpl.
  - destruct (show || truthy o), (truthy e); simpl; auto.
  - destruct (truthy o), (truthy e); simpl; auto.
Qed.

Opaque MultiLang.run_command.

Lemma multilang_compile_loop_quiet (cmds : list cmd) (ws : path) :
  quiet (MultiLang.compile_loop cmds ws).
Proof.
  induction cmds as [| c rest IH]; [exact I |].
  cbn [MultiLang.compile_loop]. apply confined_bind.
  - apply multilang_run_command_quiet.
  - intros [ok t]. destruct ok; cbn [negb]; cbv iota; [exact IH | exact I].
Qed.

Lemma multilang_run_execution_quiet (lang : MultiLang.Language) (ws : path) :
  quiet (MultiLang.run_execution lang ws).
Proof.
  unfold MultiLang.run_execution. apply confined_bind.
  - apply multilang_run_command_quiet.
  - intros _. exact I.
Qed.

(** A pipeline of the console variant removes nothing. *)
Lemma multilang_process_language_quiet (lang : MultiLang.Language) (ws : path) :
  quiet (MultiLang.process_language lang ws).
Proof.
  unfold MultiLang.process_language. apply confined_bind; [simpl; auto |]. intros _.
  apply confined_bind.
  - unfold MultiLang.write_source_file. simpl. split; [exact I |].
    intros [[msg |] elapsed]; simpl; auto.
  - intros written. destruct written; [| exact I]. cbn [negb]. cbv iota.
    destruct (MultiLang.compile_cmds lang) as [| c rest] eqn:Ec.
    + apply confined_bind; [simpl; auto |]. intros _.
      apply multilang_run_execution_quiet.
    + apply confined_bind.
      * unfold MultiLang.run_compile_steps. apply multilang_compile_loop_quiet.
      * intros compiled. destruct compiled; cbn [negb]; cbv iota.
        -- apply multilang_run_execution_quiet.
        -- simpl. auto.
Qed.

Lemma multilang_for_each_quiet (langs : list MultiLang.Language) (ws : path) :
  quiet (MultiLang.for_each langs (fun lang => MultiLang.process_language lang ws)).
Proof.
  induction langs as [| lang rest IH]; [exact I |].
  cbn [MultiLang.for_each]. apply confined_bind.
  - apply multilang_process_language_quiet.
  - intros _. exact IH.
Qed.

(** [cleanup_workspace]: it returns whether the directory is gone, removes
    at most once, and tells of a removal that failed unless it is silent. *)
Lemma multilang_cleanup_workspace_spec {os : OS} (p : path) (silent : bool) :
  removal_law os ->
  forall (w w' : world os) out l,
    run (MultiLang.cleanup_workspace p silent) w = (out, w', l) ->
    exists cleaned,
      out = Ret cleaned
      /\ (cleaned = true -> fst (perform os (RExists p) w') = false)
      /\ ((cleaned = true /\ (l = [] \/ l = [Os (Rmtree p None)]))
          \/ (cleaned = false
              /\ exists msg,
                   l = Os (Rmtree p (Some msg))
                       :: (if silent then [] else [Ui (MultiLang.PrintCleanupError p msg)]))).
Proof.
  intros [Hkeep Hrm] w w' out l H.
  unfold MultiLang.cleanup_workspace, path_exists, shutil_rmtree, call in H.
  simpl in H.
  pose proof (Hkeep p w) as Hk.
  destruct (perform os (RExists p) w) as [present w1] eqn:E1. simpl in Hk. subst w1.
  destruct present; simpl in H.
  - pose proof (Hrm p w) as Hr.
    destruct (perform os (RRmtree p) w) as [exc w2] eqn:E2. simpl in Hr.
    destruct exc as [msg |]; simpl in H.
    + destruct silent; simpl in H; inversion H; subst; exists false;
        (split; [reflexivity |]); (split; [discriminate |]); right; eauto.
    + inversion H; subst. exists true. split; [reflexivity |].
      split; [intros _; apply Hr; reflexivity |]. left. auto.
  - inversion H; subst. exists true. split; [reflexivity |].
    split; [intros _; now rewrite E1 |]. left. auto.
Qed.

End MultiLangCleanup.

Lemma in_ui_events {U} (u : U) (l : list (event U)) :
  In (Ui u) l -> In u (ui_events l).
Proof.
  induction l as [| e l IH]; simpl; [auto |].
  intros [-> | H]; [left; reflexivity |].
  destruct e; simpl; auto.
Qed.

Section MultiLangMain.
Variable workspace : path.
Variable LANGUAGES : list MultiLang.Language.

Opaque MultiLang.cleanup_workspace.

Local Abbreviation pipelines :=
  (MultiLang.for_each LANGUAGES (fun lang => MultiLang.process_language lang workspace)).
Local Abbreviation absent os w := (fst (perform os (RExists workspace) w) = false).

(** The [try] statement of [main]: when the loop over the languages has
    ended, by returning or by an exception, the total time is printed, the
    workspace is removed if it is there, and the result is printed. *)
Lemma multilang_try_finally_spec {os : OS} (total_start : time) :
  removal_law os ->
  forall (w w' : world os) out l,
    run (try_finally pipelines
           (t <- time_time ;;
            emit (MultiLang.PrintTotal (t - total_start)%N) ;;;
            cleaned <- MultiLang.cleanup_workspace workspace false ;;
            emit (MultiLang.PrintCleanup workspace cleaned))) w = (out, w', l) ->
    out <> Block ->
    exists lp rb total rm cleaned,
      l = lp ++ Ui (MultiLang.PrintTotal total) :: rm
             ++ [Ui (MultiLang.PrintCleanup workspace cleaned)]
      /\ traces pipelines lp rb
      /\ removals lp = []
      /\ cleanup_record workspace cleaned rm
      /\ (cleaned = true -> absent os w').
Proof.
  intros Hlaw w w' out l H Hout. apply run_try_finally_inv in H.
  destruct H as [(wb & _ & E) | (rb & wb & lb & rf & lf & Hb & Hrb & Hf & -> & Eo)];
    [contradiction |].
  apply run_traces in Hb.
  assert (Hrm : removals lb = []).
  { eapply confined_traces in Hb; [| apply multilang_for_each_quiet].
    eapply no_removal_request, Hb. }
  simpl in Hf. destruct (perform os RNow wb) as [t w1] eqn:E1.
  match type of Hf with
  | context [run ?p w1] => destruct (run p w1) as [[o w2] l2] eqn:E2
  end.
  inversion Hf; subst. clear Hf.
  apply run_bind_inv in E2.
  destruct E2 as [(c & w3 & l3 & l4 & H1 & H2 & ->) | [(e & H1 & E) | (H1 & E)]];
    eapply multilang_cleanup_workspace_spec in H1; try exact Hlaw;
    destruct H1 as (cleaned & Ec & Habs & Hshape); try discriminate.
  inversion Ec; subst c. simpl in H2. inversion H2; subst.
  exists lb, rb, (t - total_start)%N, l3, cleaned.
  split; [reflexivity |]. split; [exact Hb |]. split; [exact Hrm |].
  split; [exact Hshape | exact Habs].
Qed.

(** [main], once it has printed its header. *)
Lemma multilang_main_spec {os : OS} :
  removal_law os ->
  forall (w w' : world os) out l,
    run (MultiLang.main workspace LANGUAGES) w = (out, w', l) ->
    In (Ui (MultiLang.PrintHeader workspace)) l ->
    out <> Block ->
    exists before lp rb total rm cleaned,
      l = before ++ Ui (MultiLang.PrintHeader workspace) :: lp
            ++ Ui (MultiLang.PrintTotal total) :: rm
            ++ [Ui (MultiLang.PrintCleanup workspace cleaned)]
      /\ traces pipelines lp rb
      /\ removals lp = []
      /\ cleanup_record workspace cleaned rm
      /\ (cleaned = true -> absent os w').
Proof.
  intros Hlaw w w' out l H Hhdr Hout. unfold MultiLang.main in H.
  apply run_bind_inv in H.
  destruct H as [(c0 & w1 & l1 & l2 & H1 & H & ->) | [(e & H1 & E) | (H1 & E)]];
    eapply multilang_cleanup_workspace_spec in H1; try exact Hlaw;
    destruct H1 as (cleaned0 & Ec & _ & Hshape0); try discriminate.
  assert (Hl1 : ui_events l1 = []).
  { destruct Hshape0 as [[_ [-> | ->]] | [_ (msg & ->)]]; reflexivity. }
  apply run_bind_inv in H.
  destruct H as [(u & w2 & l3 & l4 & H2 & H & ->) | [(e & H2 & E) | (H2 & E)]].
  - simpl in H. destruct (perform os RNow w2) as [t0 w3] eqn:E0.
    match type of H with
    | context [run ?p w3] => destruct (run p w3) as [[o w4] l5] eqn:E5
    end.
    inversion H; subst. clear H.
    assert (Htf : exists o' l6,
               run (try_finally pipelines
                      (t <- time_time ;;
                       emit (MultiLang.PrintTotal (t - t0)%N) ;;;
                       cleaned <- MultiLang.cleanup_workspace workspace false ;;
                       emit (MultiLang.PrintCleanup workspace cleaned))) w3
               = (o', w', l6)
               /\ o' <> Block /\ l5 = l6).
    { apply run_bind_inv in E5.
      destruct E5 as [(x & w5 & l6 & l7 & Htf & Hret & ->) | [(e & Htf & E) | (Htf & E)]].
      - simpl in Hret. inversion Hret; subst. exists (Ret x), l6.
        split; [exact Htf |]. split; [discriminate | apply app_nil_r].
      - exists (Raise e), l5. split; [exact Htf |]. split; [discriminate | reflexivity].
      - contradiction. }
    destruct Htf as (o' & l6 & Htf & Ho' & ->).
    eapply multilang_try_finally_spec in Htf; [| exact Hlaw | exact Ho'].
    destruct Htf as (lp & rb & total & rm & cleaned & -> & Hp & Hr & Hshape & Habs).
    exists (l1 ++ l3), lp, rb, total, rm, cleaned.
    split; [now rewrite <- app_assoc |]. auto.
  - exfalso. simpl in H2. destruct (perform os (RMkdir workspace) w1) as [x wm].
    destruct x; inversion H2; subst.
    apply in_ui_events in Hhdr. rewrite ui_events_app, Hl1 in Hhdr. exact Hhdr.
  - contradiction.
Qed.

End MultiLangMain.

(** C4, as amended.  In the console variant, once the header is printed and
    unless a command never ends, the record of [main] is: the pipelines of
    all the languages, which remove nothing; the total time; one removal of
    the workspace if it is still there; and the report, which says that the
    workspace is gone exactly when it was absent or its removal succeeded,
    after which it does not exist.  A removal that failed is printed and
    reported, and the workspace is left.  In the graphical variant [run_all]
    always returns: the threads of all the languages end and remove nothing,
    then the workspace is removed once, and the summary tells whether the
    removal succeeded, after which the workspace does not exist. *)
Theorem workspace_removed_after_the_pipelines :
  (forall (os : OS) (workspace : path) (LANGUAGES : list MultiLang.Language)
          (w w' : world os) out l,
      removal_law os ->
      run (MultiLang.main workspace LANGUAGES) w = (out, w', l) ->
      In (Ui (MultiLang.PrintHeader workspace)) l ->
      out <> Block ->
      exists before lp rb total rm cleaned,
        l = before ++ Ui (MultiLang.PrintHeader workspace) :: lp
              ++ Ui (MultiLang.PrintTotal total) :: rm
              ++ [Ui (MultiLang.PrintCleanup workspace cleaned)]
        /\ traces (MultiLang.for_each LANGUAGES
                     (fun lang => MultiLang.process_language lang workspace)) lp rb
        /\ removals lp = []
        /\ cleanup_record workspace cleaned rm
        /\ (cleaned = true -> fst (perform os (RExists workspace) w') = false))
  /\
  (forall (os : OS) (str_exc : cmd -> Z -> text) (workspace : path)
          (LANGUAGES : list Graphical.LanguageSpec) (sched : list nat)
          (w w' : world os) out l,
      removal_law os ->
      Graphical.run_all str_exc workspace LANGUAGES sched w = (out, w', l) ->
      out = Ret tt
      /\ exists lt w1 exc sc fc total,
           Graphical.run_threads str_exc workspace LANGUAGES sched
             (snd (perform os RNow w)) = (Ret tt, w1, lt)
           /\ l = lt ++ [Os (Rmtree workspace exc);
                         Ui (Graphical.GlobalStatus sc fc total
                               match exc with None => true | Some _ => false end)]
           /\ removals lt = []
           /\ (exc = None -> fst (perform os (RExists workspace) w') = false)).
Proof.
  split.
  - intros os workspace LANGUAGES w w' out l Hlaw Hrun Hhdr Hout.
    eapply multilang_main_spec; eauto.
  - intros os str_exc workspace LANGUAGES sched w w' out l Hlaw Hrun.
    apply run_all_spec in Hrun.
    destruct Hrun as (lt & w1 & Ht & Hr & -> & -> & Hl). cbv zeta in Hl.
    unfold Graphical.finish_execution in Hl. cbv zeta in Hl.
    split; [reflexivity |]. eexists lt, w1, _, _, _, _.
    split; [exact Ht |]. split; [exact Hl |]. split; [exact Hr |].
    destruct Hlaw as [_ Hrm]. apply Hrm.
Qed.

(** The console variant on its table, on a machine whose tools work. *)
Lemma workspace_removed_witness :
  let r := @run machine_os _ _ (MultiLang.main example_workspace MultiLang.LANGUAGES)
             machine_working in
  outcome r = Ret 0%Z
  /\ In (Ui (MultiLang.PrintHeader example_workspace)) (record r)
  /\ exists before lp rb total rm cleaned,
       record r
       = before ++ Ui (MultiLang.PrintHeader example_workspace) :: lp
           ++ Ui (MultiLang.PrintTotal total) :: rm
           ++ [Ui (MultiLang.PrintCleanup example_workspace cleaned)]
       /\ traces (MultiLang.for_each MultiLang.LANGUAGES
                    (fun lang => MultiLang.process_language lang example_workspace)) lp rb
       /\ removals lp = []
       /\ cleanup_record example_workspace cleaned rm
       /\ (cleaned = true -> present (final r) example_workspace = false).
Proof.
  intros r.
  assert (Hhdr : In (Ui (MultiLang.PrintHeader example_workspace)) (record r)).
  { vm_compute. right. left. reflexivity. }
  split; [vm_compute; reflexivity |]. split; [exact Hhdr |].
  apply (proj1 workspace_removed_after_the_pipelines machine_os example_workspace
           MultiLang.LANGUAGES machine_working (final r) (outcome r) (record r)).
  - exact machine_removal_law.
  - unfold final, outcome, record. now rewrite <- !surjective_pairing.
  - exact Hhdr.
  - vm_compute. discriminate.
Defined.

(** C4 as stated, on a machine where the removal of the workspace fails: the
    console variant returns 0 and the graphical variant shows its summary,
    both report that the clean-up failed, and the workspace is still
    there. *)
Lemma workspace_removal_counterexample :
  let r := @run machine_os _ _ (MultiLang.main example_workspace MultiLang.LANGUAGES)
             machine_rmtree_fails in
  let g := @Graphical.start_execution str_called_process_error example_workspace
             Graphical.LANGUAGES machine_os [] machine_rmtree_fails in
  outcome r = Ret 0%Z
  /\ removals (record r)
     = [(example_workspace,
         Some (utf8 "[Errno 16] Device or resource busy: '/home/demo/workspace'"))]
  /\ last (ui_events (record r)) MultiLang.PrintRunSkipped
     = MultiLang.PrintCleanup example_workspace false
  /\ present (final r) example_workspace = true
  /\ outcome g = Ret tt
  /\ last (ui_events (record g)) (Graphical.GlobalStatus 0 0 0 true)
     = Graphical.GlobalStatus 4 0 606160 false
  /\ present (final g) example_workspace = true.
Proof. vm_compute. repeat split; reflexivity. Qed.
(* ================================================================== *)
(** * A language without compile commands                              *)
(* ================================================================== *)


Section FirstWrite.
Context {os : OS} {U : Type}.

(** [path.write_text]: what the system answers is what the caller gets and
    what is recorded. *)
Lemma run_path_write_text (p : path) (c : text) (w w' : world os)
    (out : res (option text * time)) (l : list (event U)) :
  run (path_write_text p c) w = (out, w', l) ->
  out = Ret (fst (perform os (RWriteText p c) w))
  /\ w' = snd (perform os (RWriteText p c) w)
  /\ l = [Os (WriteText p c (fst (fst (perform os (RWriteText p c) w))))].
Proof.
  unfold path_write_text, call. simpl.
  destruct (perform os (RWriteText p c) w) as [x w1]. intros H. inversion H; subst.
  auto.
Qed.

End FirstWrite.

(** C6.  For a language without compile commands, when the system writes the
    source file, the pipeline goes from the write to the run command, which
    is the only command launched, and the compile timing it records is
    exactly 0: in the web variant, in the educational variant (steps 2, 3 and
    4 of the dashboard), and in the console variant, which prints that no
    compile step is required and keeps no timings. *)
Theorem interpreted_language_skips_compiling :
  (forall (os : OS) (str_exc : cmd -> Z -> text) (WORKSPACE : path)
          (spec : Web.LanguageSpec) (w w' : world os) out l,
      run (Web.stages str_exc WORKSPACE spec) w = (out, w', l) ->
      Web.compile_cmds spec = [] ->
      fst (fst (perform os (RWriteText (path_join WORKSPACE (Web.filename spec))
                              (Web.code spec)) w)) = None ->
      written l = [(path_join WORKSPACE (Web.filename spec), None)]
      /\ launched l = [Web.run_cmd spec]
      /\ match out with
         | Ret r =>
             Web.compile_time r = 0%N
             /\ ui_events l = [Web.SetProgress 25; Web.SetProgress 100]
         | Raise _ => True
         | Block => False
         end)
  /\
  (forall (os : OS) (WORKSPACE : path) (index : nat)
          (spec : Educational.LanguageSpec) (state : Educational.LanguageState)
          (w w' : world os) out l,
      run (Educational.step2_body WORKSPACE index spec state) w = (out, w', l) ->
      Educational.compile_cmds spec = [] ->
      Educational.failed state = false ->
      fst (fst (perform os
                  (RWriteText (path_join WORKSPACE (Educational.filename spec))
                     (join newline (Educational.code_lines spec) ++ newline)) w))
      = None ->
      written l = [(path_join WORKSPACE (Educational.filename spec), None)]
      /\ launched l = []
      /\ exists state2,
           out = Ret state2
           /\ Educational.failed state2 = false
           /\ dict_get (Educational.timings state2) (utf8 "compile") = Some 0%N
           /\ forall (w2 w3 : world os) out3 l3,
                run (Educational.step3_body WORKSPACE index spec state2) w2
                = (out3, w3, l3) ->
                launched l3 = [Educational.run_cmd spec]
                /\ forall state3,
                     out3 = Ret state3 ->
                     dict_get (Educational.timings (Educational.step4_body state3))
                              (utf8 "compile") = Some 0%N)
  /\
  (forall (os : OS) (workspace : path) (lang : MultiLang.Language)
          (w w' : world os) out l,
      run (MultiLang.process_language lang workspace) w = (out, w', l) ->
      MultiLang.compile_cmds lang = [] ->
      fst (fst (perform os (RWriteText (path_join workspace (MultiLang.filename lang))
                              (MultiLang.source lang)) w)) = None ->
      written l = [(path_join workspace (MultiLang.filename lang), None)]
      /\ launched l = [MultiLang.run_cmd lang]
      /\ In MultiLang.PrintCompileNotRequired (ui_events l)).
Proof.
  split; [| split].
  - intros os str_exc WORKSPACE spec w w' out l Hrun Hc Hw.
    unfold Web.stages in Hrun. cbv zeta in Hrun. apply run_bind_inv in Hrun.
    destruct Hrun as [(a & w1 & l1 & l2 & H1 & H2 & ->) | [(e & H1 & _) | (H1 & _)]];
      apply run_path_write_text in H1; destruct H1 as (Ea & Ew & El); try discriminate.
    inversion Ea; subst a. clear Ea. subst l1. rewrite Hw.
    apply run_traces in H2.
    destruct (perform os (RWriteText (path_join WORKSPACE (Web.filename spec))
                            (Web.code spec)) w) as [[exc elapsed] w0].
    simpl in Hw. subst exc. cbn [fst] in *. rewrite Hc in H2.
    hnf in H2. destruct H2 as (l3 & -> & H2).
    apply web_run_stage_spec in H2. destruct H2 as (Hw2 & Hl2 & H2).
    split; [simpl; now rewrite Hw2 |]. split; [exact Hl2 |].
    destruct out as [r | e | ]; auto.
    destruct H2 as (_ & _ & Hu & Ht). simpl. rewrite Hu, Ht. auto.
  - intros os WORKSPACE index spec state w w' out l Hrun Hc Hf Hw.
    unfold Educational.step2_body in Hrun. cbv zeta in Hrun. rewrite Hc in Hrun.
    apply run_bind_inv in Hrun.
    destruct Hrun as [(a & w1 & l1 & l2 & H1 & H2 & ->) | [(e & H1 & _) | (H1 & _)]];
      unfold Educational.write_source_file in H1; cbv zeta in H1;
      apply run_bind_inv in H1;
      destruct H1 as [(a0 & w0 & l0 & l3 & H0 & H1 & El) | [(e0 & H0 & _) | (H0 & _)]];
      apply run_path_write_text in H0; destruct H0 as (Ea & Ew & El0);
      try discriminate.
    all: injection Ea as E.
    all: assert (Hw0 : fst a0 = None) by (rewrite E; exact Hw).
    all: assert (El0' : l0 = [Os (WriteText (path_join WORKSPACE (Educational.filename spec))
                                    (join newline (Educational.code_lines spec) ++ newline)
                                    (fst a0))]) by (rewrite E; exact El0).
    all: clear E El0 Hw; destruct a0 as [[msg |] elapsed]; simpl in Hw0;
      try discriminate; simpl in H1; inversion H1; subst; clear H1.
    apply run_traces in H2. repeat step_traces H2.
    split; [reflexivity |]. split; [reflexivity |].
    eexists. split; [reflexivity |]. split; [exact Hf |].
    split; [simpl; apply dict_get_set_same |].
    intros w2 w3 out3 l3 H3. apply run_traces in H3.
    eapply edu_step3_runs in H3; [| exact Hf].
    destruct H3 as [Hl3 H3]. split; [exact Hl3 |].
    intros state3 ->. apply edu_step4_keeps_compile. rewrite H3. simpl.
    apply dict_get_set_same.
  - intros os workspace lang w w' out l Hrun Hc Hw.
    unfold MultiLang.process_language in Hrun. rewrite Hc in Hrun.
    apply run_bind_inv in Hrun.
    destruct Hrun as [(u & wu & lu & lr & Hu & Hrun & ->) | [(e & Hu & _) | (Hu & _)]];
      simpl in Hu; inversion Hu; subst. clear Hu.
    apply run_bind_inv in Hrun.
    destruct Hrun as [(a & w1 & l1 & l2 & H1 & H2 & ->) | [(e & H1 & _) | (H1 & _)]];
      unfold MultiLang.write_source_file in H1;
      apply run_bind_inv in H1;
      destruct H1 as [(a0 & w0 & l0 & l3 & H0 & H1 & El) | [(e0 & H0 & _) | (H0 & _)]];
      apply run_path_write_text in H0; destruct H0 as (Ea & Ew & El0);
      try discriminate.
    all: injection Ea as E.
    all: assert (Hw0 : fst a0 = None) by (rewrite E; exact Hw).
    all: assert (El0' : l0 = [Os (WriteText (path_join workspace (MultiLang.filename lang))
                                    (MultiLang.source lang) (fst a0))])
        by (rewrite E; exact El0).
    all: clear E El0 Hw; destruct a0 as [[msg |] elapsed]; simpl in Hw0;
      try discriminate; simpl in H1; inversion H1; subst; clear H1.
    cbn [negb] in H2. cbv iota in H2. apply run_traces in H2.
    hnf in H2. destruct H2 as (l4 & -> & H2).
    assert (Hl4 : launched l4 = [MultiLang.run_cmd lang] /\ written l4 = []).
    { apply traces_bind in H2.
      destruct H2 as [(u0 & lu & lr & Hu & H2 & ->) | [(e & Hu & ->) | (Hu & ->)]];
        try (destruct Hu as [_ Hu]; discriminate).
      destruct Hu as [-> _]. rewrite app_nil_l.
      unfold MultiLang.run_execution in H2. apply traces_bind in H2.
      destruct H2 as [(a & l5 & l6 & H5 & H6 & ->) | [(e & H5 & ->) | (H5 & ->)]];
        apply multilang_run_command_launches in H5; destruct H5 as (Hl5 & Hw5 & _).
      - step_traces H6. now rewrite app_nil_r.
      - auto.
      - auto. }
    destruct Hl4 as [Hl4 Hw4].
    split; [simpl; now rewrite Hw4 |]. split; [exact Hl4 |].
    simpl. auto.
Qed.

(** The Python entry of the console variant, in the three variants, on a
    machine whose tools work. *)
Lemma interpreted_language_witness :
  (let r := @run machine_os _ _
              (Web.stages str_called_process_error example_workspace web_python)
              machine_working in
   written (record r) = [(path_join example_workspace (utf8 "hello.py"), None)]
   /\ launched (record r) = [[utf8 "python3"; utf8 "hello.py"]]
   /\ exists res, outcome r = Ret res /\ Web.compile_time res = 0%N)
  /\
  (let r := @run machine_os _ _
              (Educational.step2_body example_workspace 0 edu_python
                 Educational.new_state) machine_working in
   written (record r) = [(path_join example_workspace (utf8 "hello.py"), None)]
   /\ launched (record r) = []
   /\ exists state2,
        outcome r = Ret state2
        /\ dict_get (Educational.timings state2) (utf8 "compile") = Some 0%N
        /\ launched (record (@run machine_os _ _
                               (Educational.step3_body example_workspace 0 edu_python
                                  state2) (final r)))
           = [[utf8 "python3"; utf8 "hello.py"]])
  /\
  (let r := @run machine_os _ _
              (MultiLang.process_language multilang_python example_workspace)
              machine_working in
   written (record r) = [(path_join example_workspace (utf8 "hello.py"), None)]
   /\ launched (record r) = [[utf8 "python3"; utf8 "hello.py"]]
   /\ In MultiLang.PrintCompileNotRequired (ui_events (record r))).
Proof.
  assert (Hrun : forall (U A : Type) (p : prog U A) (m : machine),
             @run machine_os U A p m
             = (outcome (@run machine_os U A p m), final (@run machine_os U A p m),
                record (@run machine_os U A p m))).
  { intros U A p m. unfold outcome, final, record. now rewrite <- !surjective_pairing. }
  split; [| split].
  - intros r.
    destruct (proj1 interpreted_language_skips_compiling machine_os
                str_called_process_error example_workspace web_python machine_working
                (final r) (outcome r) (record r) (Hrun _ _ _ _) eq_refl eq_refl)
      as (Hw & Hl & Ho).
    split; [exact Hw |]. split; [exact Hl |].
    destruct (outcome r) as [res | e | ] eqn:E.
    + exists res. split; [reflexivity | apply Ho].
    + exfalso. vm_compute in E. discriminate.
    + contradiction.
  - intros r.
    destruct (proj1 (proj2 interpreted_language_skips_compiling) machine_os
                example_workspace 0 edu_python Educational.new_state machine_working
                (final r) (outcome r) (record r) (Hrun _ _ _ _) eq_refl eq_refl eq_refl)
      as (Hw & Hl & state2 & Ho & _ & Ht & H3).
    split; [exact Hw |]. split; [exact Hl |].
    exists state2. split; [exact Ho |]. split; [exact Ht |].
    apply (H3 (final r) _ _ _ (Hrun _ _ _ _)).
  - intros r.
    exact (proj2 (proj2 interpreted_language_skips_compiling) machine_os
             example_workspace multilang_python machine_working
             (final r) (outcome r) (record r) (Hrun _ _ _ _) eq_refl eq_refl).
Defined.
(* ================================================================== *)
(** * The progress of each front end, stage by stage                   *)
(* ================================================================== *)

Section WebStages.
Variable str_exc : cmd -> Z -> text.
Variable WORKSPACE : path.



End WebStages.

Section AnimatedStages.
Variable str_exc : cmd -> Z -> text.
Variable WORKSPACE : path.



End AnimatedStages.







(* ================================================================== *)
(** * The summary of a run                                             *)
(* ================================================================== *)

(** C7 on the failing input.  The compiler is not installed.  In the
    animated variant the compile step of the C language fails and its run
    command fails too; all the same the [done] event, which says
    [success: n/total], reports four successes out of four, because
    [success_count] counts every language whose timings hold a run time
    above 0, whether the run succeeded or not.  On the same machine the
    graphical variant reports three successes and one failure. *)
Theorem animated_done_counts_failed_runs :
  let us := ui_events (record (@run machine_os _ _
              (Animated.run_animation str_called_process_error example_workspace
                 Animated.LANGUAGES) machine_gcc_missing)) in
  let gs := ui_events (record (@Graphical.start_execution str_called_process_error
              example_workspace Graphical.LANGUAGES machine_os
              [0; 1; 2; 3; 3; 2; 1; 0] machine_gcc_missing)) in
  compile_errors 0 us = [(utf8 "gcc hello.c -o hello_c", utf8 "명령어를 찾을 수 없음: gcc")]
  /\ run_errors 0 us = [(utf8 "./hello_c", utf8 "명령어를 찾을 수 없음: ./hello_c")]
  /\ done_events us = [(4, 4)]
  /\ last gs (Graphical.GlobalStatus 0 0 0 false) = Graphical.GlobalStatus 3 1 485360 true.
Proof. vm_compute. repeat split; reflexivity. Qed.

(* ================================================================== *)
(** * A failed stage ends its pipeline                                 *)
(* ================================================================== *)

Lemma stops_at_failure_ui {U} (u : U) (l : list (event U)) :
  stops_at_failure (Ui u :: l) = stops_at_failure l.
Proof. reflexivity. Qed.

Lemma stops_at_failure_app_ok {U} (l1 l2 : list (event U)) :
  stage_failed l1 = false ->
  stops_at_failure (l1 ++ l2) = stops_at_failure l2.
Proof.
  unfold stage_failed. induction l1 as [| e l1 IH]; simpl; [reflexivity |].
  intros H. apply orb_false_iff in H. destruct H as [He Hl]. rewrite He. auto.
Qed.

Lemma stops_at_failure_app_quiet {U} (l1 l2 : list (event U)) :
  stops_at_failure l1 = true ->
  existsb is_stage l2 = false ->
  stops_at_failure (l1 ++ l2) = true.
Proof.
  induction l1 as [| e l1 IH]; simpl; intros H1 H2.
  - induction l2 as [| e l2 IH2]; simpl in *; [reflexivity |].
    apply orb_false_iff in H2. destruct H2 as [He Hl].
    destruct (call_failed e) eqn:Ec; [| auto].
    destruct e as [[c cwd lim b | p c r | p r | p r] | u]; simpl in *; discriminate.
  - destruct (call_failed e); [| auto].
    rewrite existsb_app, H2, orb_false_r. exact H1.
Qed.

Lemma stops_at_failure_single {U} (e : event U) (l : list (event U)) :
  existsb is_stage l = false -> stops_at_failure (e :: l) = true.
Proof.
  intros H. simpl. rewrite H. destruct (call_failed e); [reflexivity |].
  apply (stops_at_failure_app_quiet [] l); auto.
Qed.

Section WebFailure.
Variable str_exc : cmd -> Z -> text.
Variable WORKSPACE : path.
Variable LANGUAGES : list Web.LanguageSpec.

Local Abbreviation compile_loop := (Web.compile_loop str_exc WORKSPACE).
Local Abbreviation run_stage := (Web.run_stage str_exc WORKSPACE).
Local Abbreviation stages := (Web.stages str_exc WORKSPACE).
Local Abbreviation execute_language := (Web.execute_language str_exc WORKSPACE LANGUAGES).

Lemma web_compile_loop_stops (cmds : list cmd) :
  forall result total l out,
    traces (compile_loop result total cmds) l out -> stops_at_failure l = true.
Proof.
  induction cmds as [| c rest IH]; intros result total l out H.
  - simpl in H. step_traces H. reflexivity.
  - simpl in H. step_call H as x.
    destruct x as [rc o e d | msg d | msg | ]; simpl in H.
    + destruct (expired limit_30s d) eqn:Ex; simpl in H.
      * repeat step_traces H. apply stops_at_failure_single. reflexivity.
      * destruct (rc =? 0)%Z eqn:Erc; simpl in H.
        -- apply IH in H. simpl. rewrite Ex, Erc. simpl. exact H.
        -- repeat step_traces H. apply stops_at_failure_single. reflexivity.
    + repeat step_traces H. apply stops_at_failure_single. reflexivity.
    + repeat step_traces H. apply stops_at_failure_single. reflexivity.
    + repeat step_traces H. apply stops_at_failure_single. reflexivity.
Qed.

Lemma web_run_stage_stops (spec : Web.LanguageSpec) (result : Web.Result) :
  forall l out, traces (run_stage spec result) l out -> stops_at_failure l = true.
Proof.
  intros l out H. unfold Web.run_stage in H. step_call H as x.
  destruct x as [rc o e d | msg d | msg | ]; simpl in H.
  - destruct (expired limit_30s d); simpl in H;
      [| destruct (rc =? 0)%Z; simpl in H];
      repeat step_traces H; apply stops_at_failure_single; reflexivity.
  - repeat step_traces H. apply stops_at_failure_single. reflexivity.
  - repeat step_traces H. apply stops_at_failure_single. reflexivity.
  - repeat step_traces H. apply stops_at_failure_single. reflexivity.
Qed.

Lemma web_stages_stops (spec : Web.LanguageSpec) :
  forall l out, traces (stages spec) l out -> stops_at_failure l = true.
Proof.
  intros l out H. unfold Web.stages in H.
  step_call H as x. destruct x as [[msg |] elapsed]; simpl in H.
  - repeat step_traces H. reflexivity.
  - step_traces H. simpl.
    destruct (Web.compile_cmds spec) as [| c rest] eqn:Ecmds.
    + eapply web_run_stage_stops; eauto.
    + apply traces_bind in H.
      destruct H as [(a & l1 & l2 & H1 & H2 & ->) | [(e & H1 & ->) | (H1 & ->)]];
        try (eapply web_compile_loop_stops; eauto; fail).
      assert (Hs := H1). apply web_compile_loop_stops in Hs.
      apply web_compile_loop_spec in H1. destruct H1 as (_ & H1).
      destruct a as [r | t].
      * step_traces H2. now rewrite app_nil_r.
      * destruct H1 as (Hok & _). rewrite stops_at_failure_app_ok by exact Hok.
        step_head H2. rewrite stops_at_failure_ui.
        eapply web_run_stage_stops; eauto.
Qed.

End WebFailure.

(** X1.  In the web variant no command is launched after a stage that
    failed: once the source file could not be written, or a compile or run
    command was not found, ended with a status other than 0, ran into the
    time limit or could not be launched, [execute_language] launches and
    writes nothing more. *)
Theorem web_failed_stage_ends_the_pipeline :
  forall (os : OS) (str_exc : cmd -> Z -> text) (WORKSPACE : path)
         (LANGUAGES : list Web.LanguageSpec) (idx : Z) (w : world os),
    stops_at_failure
      (record (run (Web.execute_language str_exc WORKSPACE LANGUAGES idx) w)) = true.
Proof.
  intros os str_exc WORKSPACE LANGUAGES idx w.
  destruct (run (Web.execute_language str_exc WORKSPACE LANGUAGES idx) w)
    as [[out w'] l] eqn:E.
  apply run_traces in E. unfold record. simpl.
  apply web_execute_language_traces in E.
  destruct E as [(_ & -> & _) | (spec & l0 & l1 & _ & -> & Hl0 & Hl1)];
    [reflexivity |].
  assert (H0 : stage_failed l0 = false).
  { destruct Hl0 as [-> | (r & ->)]; reflexivity. }
  rewrite stops_at_failure_app_ok by exact H0.
  destruct Hl1 as [(-> & _) | H]; [reflexivity |].
  eapply web_stages_stops; eauto.
Qed.

Section GraphicalFailure.
Variable str_exc : cmd -> Z -> text.
Variable workspace : path.
Variable LANGUAGES : list Graphical.LanguageSpec.

Local Abbreviation compile_loop := (Graphical.compile_loop str_exc workspace).
Local Abbreviation run_stage := (Graphical.run_stage str_exc workspace).
Local Abbreviation execute_language :=
  (Graphical.execute_language str_exc workspace LANGUAGES).

Lemma graphical_compile_loop_stops (cmds : list cmd) :
  forall index n i state total l out,
    traces (compile_loop index n i state total cmds) l out -> stops_at_failure l = true.
Proof.
  induction cmds as [| c rest IH]; intros index n i state total l out H.
  - step_traces H. reflexivity.
  - step_call H as b.
    destruct b as [rc o e d | msg d | msg | ]; simpl in H.
    + destruct (expired limit_30s d) eqn:Ex; simpl in H.
      * repeat step_traces H. apply stops_at_failure_single. reflexivity.
      * destruct (rc =? 0)%Z eqn:Erc; simpl in H.
        -- step_traces H. apply IH in H. simpl. rewrite Ex, Erc. simpl. exact H.
        -- repeat step_traces H. apply stops_at_failure_single. reflexivity.
    + repeat step_traces H. apply stops_at_failure_single. reflexivity.
    + repeat step_traces H. apply stops_at_failure_single. reflexivity.
    + repeat step_traces H. apply stops_at_failure_single. reflexivity.
Qed.

Lemma graphical_run_stage_stops (index : nat) (spec : Graphical.LanguageSpec)
    (state : Graphical.LanguageState) :
  forall l out, traces (run_stage index spec state) l out -> stops_at_failure l = true.
Proof.
  intros l out H. unfold Graphical.run_stage in H. step_traces H. step_call H as b.
  rewrite stops_at_failure_ui.
  destruct b as [rc o e d | msg d | msg | ]; simpl in H.
  - destruct (expired limit_30s d); simpl in H;
      [| destruct (rc =? 0)%Z; simpl in H];
      repeat step_traces H; apply stops_at_failure_single; reflexivity.
  - repeat step_traces H. apply stops_at_failure_single. reflexivity.
  - repeat step_traces H. apply stops_at_failure_single. reflexivity.
  - repeat step_traces H. apply stops_at_failure_single. reflexivity.
Qed.

Lemma graphical_execute_language_stops (index : nat) :
  forall l out, traces (execute_language index) l out -> stops_at_failure l = true.
Proof.
  intros l out H. unfold Graphical.execute_language in H.
  destruct (nth_error LANGUAGES index) as [spec |]; [| step_traces H; reflexivity].
  step_traces H. step_call H as x. rewrite stops_at_failure_ui.
  destruct x as [[msg |] elapsed]; simpl in H.
  - repeat step_traces H. reflexivity.
  - step_traces H. simpl.
    destruct (Graphical.compile_cmds spec) as [| c rest] eqn:Ec.
    + step_head H. rewrite stops_at_failure_ui.
      eapply graphical_run_stage_stops; eauto.
    + rewrite <- Ec in *. step_traces H. rewrite stops_at_failure_ui.
      apply traces_bind in H.
      destruct H as [(a & l1 & l2 & H1 & H2 & ->) | [(e & H1 & ->) | (H1 & ->)]];
        try (eapply graphical_compile_loop_stops; eauto; fail).
      assert (Hs := H1). apply graphical_compile_loop_stops in Hs.
      apply graphical_compile_loop_spec in H1. destruct H1 as (_ & _ & H1).
      destruct a as [u | [state' t]].
      * step_traces H2. now rewrite app_nil_r.
      * destruct H1 as (_ & Hok & _). rewrite stops_at_failure_app_ok by exact Hok.
        step_head H2. rewrite stops_at_failure_ui.
        eapply graphical_run_stage_stops; eauto.
Qed.

End GraphicalFailure.

(** X2.  In the graphical variant the thread of a language launches and
    writes nothing after a stage of its own that failed, whatever the
    system answers. *)
Theorem graphical_failed_stage_ends_the_pipeline :
  forall (os : OS) (str_exc : cmd -> Z -> text) (workspace : path)
         (LANGUAGES : list Graphical.LanguageSpec) (index : nat) (w : world os),
    stops_at_failure
      (record (run (Graphical.execute_language str_exc workspace LANGUAGES index) w))
    = true.
Proof.
  intros os str_exc workspace LANGUAGES index w.
  destruct (run (Graphical.execute_language str_exc workspace LANGUAGES index) w)
    as [[out w'] l] eqn:E.
  apply run_traces in E. unfold record. simpl.
  eapply graphical_execute_language_stops; eauto.
Qed.

(* ================================================================== *)
(** * educational_hello.py: step 2 and step 3                          *)
(* ================================================================== *)

Section EducationalSteps.
Variable WORKSPACE : path.

Local Abbreviation compile_loop := (Educational.compile_loop WORKSPACE).
Local Abbreviation step2_body := (Educational.step2_body WORKSPACE).
Local Abbreviation step3_body := (Educational.step3_body WORKSPACE).

Lemma edu_failed_after_outputs (o e : text) (state : Educational.LanguageState) :
  Educational.failed
    (if truthy e
     then Educational.set_stderr e
            (if truthy o then Educational.set_stdout o state else state)
     else if truthy o then Educational.set_stdout o state else state)
  = Educational.failed state.
Proof. destruct (truthy e), (truthy o); reflexivity. Qed.

(** The compile loop, whatever the system answers. *)
Lemma edu_compile_loop_spec (cmds : list cmd) :
  forall index total_steps n_cmds cmd_index state compile_time l out,
    traces (compile_loop index total_steps n_cmds cmd_index state compile_time cmds) l out ->
    written l = []
    /\ stops_at_failure l = true
    /\ match out with
       | Ret (state', _) =>
           Educational.failed state' = Educational.failed state || stage_failed l
           /\ exists k,
                k <= List.length cmds
                /\ ui_events l
                   = repeat (Educational.Advance index) k
                       ++ (if stage_failed l
                           then [Educational.SetCompleted index total_steps]
                           else [])
                /\ (stage_failed l = false -> k = List.length cmds)
       | Raise e => exists msg, e = OSError msg
       | Block => True
       end.
Proof.
  induction cmds as [| c0 rest IH];
    intros index total_steps n_cmds cmd_index state compile_time l out H.
  - step_traces H. simpl. repeat split; auto using orb_false_r.
    exists 0. simpl. auto.
  - step_call H as x.
    destruct x as [rc o e d | msg d | msg | ]; simpl in H.
    + unfold expired in H. destruct (rc =? 0)%Z eqn:Erc; simpl in H.
      * step_traces H. apply IH in H. destruct H as (Hw & Hs & H).
        split; [exact Hw |]. split.
        { simpl. unfold expired. rewrite Erc. simpl. exact Hs. }
        destruct out as [[state' t] | e0 | ]; auto.
        destruct H as (Hf & k & Hk & Hu & Hall).
        assert (Hsf : stage_failed
                        (Os (Spawn c0 WORKSPACE None (Exits rc o e d))
                           :: Ui (Educational.Advance index) :: l)
                      = stage_failed l).
        { unfold stage_failed. simpl. unfold expired. now rewrite Erc. }
        rewrite Hsf. split.
        { rewrite Hf, edu_failed_after_outputs. reflexivity. }
        exists (S k). split; [simpl; lia |]. split.
        { change (ui_events (Os ?a :: Ui ?b :: ?r)) with (b :: ui_events r).
          rewrite Hu. reflexivity. }
        intros Hno. simpl. f_equal. auto.
      * repeat step_traces H. split; [reflexivity |].
        split; [apply stops_at_failure_single; reflexivity |].
        assert (Hsf : stage_failed
                        [Os (Spawn c0 WORKSPACE None (Exits rc o e d));
                         Ui (Educational.SetCompleted index total_steps)] = true).
        { unfold stage_failed. simpl. unfold expired. now rewrite Erc. }
        rewrite Hsf. split; [simpl; now rewrite ?orb_true_r |].
        exists 0. split; [lia |]. split; [reflexivity | discriminate].
    + repeat step_traces H. split; [reflexivity |].
      split; [apply stops_at_failure_single; reflexivity |].
      split; [simpl; now rewrite ?orb_true_r |].
      exists 0. split; [lia |]. split; [reflexivity | discriminate].
    + repeat step_traces H. split; [reflexivity |].
      split; [apply stops_at_failure_single; reflexivity |]. eauto.
    + repeat step_traces H. split; [reflexivity |].
      split; [apply stops_at_failure_single; reflexivity |]. exact I.
Qed.

(** Step 2 for one language that is not marked as failed, whatever the
    system answers. *)
Lemma edu_step2_spec (index : nat) (spec : Educational.LanguageSpec)
    (state : Educational.LanguageState) :
  Educational.failed state = false ->
  forall l state2,
    traces (step2_body index spec state) l (Ret state2) ->
    stops_at_failure l = true
    /\ Educational.failed state2 = stage_failed l
    /\ exists k,
         k <= List.length (Educational.compile_cmds spec)
         /\ ui_events l
            = repeat (Educational.Advance index) (S k)
                ++ [Educational.SetCompleted index
                      (1 + List.length (Educational.compile_cmds spec))]
         /\ (stage_failed l = false -> k = List.length (Educational.compile_cmds spec)).
Proof.
  intros Hstate l state2 H. unfold Educational.step2_body in H.
  step_call H as x. destruct x as [[msg |] elapsed]; simpl in H.
  - repeat step_traces H. destruct H as [-> E]. inversion E; subst.
    split; [reflexivity |]. split; [reflexivity |].
    exists 0. split; [lia |]. split; [reflexivity | discriminate].
  - step_traces H. destruct (Educational.compile_cmds spec) as [| c0 rest] eqn:Ec.
    + repeat step_traces H. destruct H as [-> E]. inversion E; subst.
      split; [reflexivity |]. split; [simpl; exact Hstate |].
      exists 0. split; [simpl; lia |]. split; [reflexivity | reflexivity].
    + rewrite <- Ec in *. apply traces_bind_ret in H.
      destruct H as ([s' t] & l1 & l2 & H1 & H2 & ->).
      apply edu_compile_loop_spec in H1.
      destruct H1 as (Hw & Hs & Hf & k & Hk & Hu & Hall).
      simpl in Hf. rewrite Hstate in Hf. simpl in Hf.
      change (fst (@None text, elapsed)) with (@None text).
      change (stops_at_failure (Os ?a :: Ui ?b :: ?r)) with (stops_at_failure r).
      change (stage_failed (Os (WriteText ?p ?c None) :: Ui ?b :: ?r))
        with (stage_failed r).
      change (ui_events (Os ?a :: Ui ?b :: ?r)) with (b :: ui_events r).
      rewrite stage_failed_app, ui_events_app, Hu.
      simpl in H2. rewrite Hf in H2.
      destruct (stage_failed l1) eqn:Esf.
      * destruct H2 as [-> E]. inversion E; subst. rewrite !app_nil_r.
        split; [exact Hs |]. split; [simpl; exact Hf |].
        exists k. split; [exact Hk |]. split; [reflexivity | discriminate].
      * step_traces H2. destruct H2 as [-> E]. inversion E; subst.
        split.
        { apply stops_at_failure_app_quiet; [exact Hs | reflexivity]. }
        split; [simpl; exact Hf |].
        exists k. split; [exact Hk |]. rewrite app_nil_r. split; [reflexivity |].
        intros _. auto.
Qed.

Lemma edu_no_output_text_not_empty : utf8 "<no output>" <> [].
Proof. vm_compute. discriminate. Qed.

Lemma edu_execution_failed_text_not_empty : utf8 "Execution failed" <> [].
Proof. vm_compute. discriminate. Qed.

Lemma por_not_empty_r (a b : text) : b <> [] -> por a b <> [].
Proof. destruct a; simpl; [auto | discriminate]. Qed.

(** Step 3 for a language that is not marked as failed, whatever the system
    answers. *)
Lemma edu_step3_spec (index : nat) (spec : Educational.LanguageSpec)
    (state : Educational.LanguageState) :
  Educational.failed state = false ->
  forall l state3,
    traces (step3_body index spec state) l (Ret state3) ->
    exists b,
      l = [Os (Spawn (Educational.run_cmd spec) WORKSPACE None b)]
      /\ Educational.failed state3 = negb (spawn_ok None b)
      /\ dict_get (Educational.timings state3) (utf8 "run") = Some (duration b)
      /\ edu_step3_texts state state3 b
      /\ (if Educational.failed state3
          then Educational.stderr state3 <> []
          else Educational.stdout state3 <> []).
Proof.
  intros Hf l state3 H. unfold Educational.step3_body in H. rewrite Hf in H.
  step_call H as x. exists x. unfold expired in H.
  destruct x as [rc o e d | msg d | msg | ]; simpl in H.
  - destruct (rc =? 0)%Z eqn:Erc; simpl in H; destruct H as [-> E];
      inversion E; subst; simpl; unfold expired; rewrite Erc, ?Hf, ?por_nil_r; simpl;
      (split; [reflexivity |]); (split; [reflexivity |]);
      (split; [apply dict_get_set_same |]); (split; [repeat split; reflexivity |]).
    + apply por_not_empty_r, edu_no_output_text_not_empty.
    + apply por_not_empty_r, por_not_empty_r, edu_execution_failed_text_not_empty.
  - destruct H as [-> E]. inversion E; subst. simpl.
    split; [reflexivity |]. split; [reflexivity |].
    split; [apply dict_get_set_same |]. split; [repeat split; reflexivity |].
    apply por_not_empty_r, por_not_empty_r, edu_execution_failed_text_not_empty.
  - destruct H as [_ E]. discriminate.
  - destruct H as [_ E]. discriminate.
Qed.

End EducationalSteps.

(** X3.  In the educational variant, step 2 for a language that is not
    marked as failed launches and writes nothing after a stage that failed,
    and marks the language as failed exactly when a stage failed; step 3
    then launches nothing for it and only changes its status. *)
Theorem educational_failed_stage_ends_the_pipeline :
  forall (os : OS) (WORKSPACE : path) (index : nat) (spec : Educational.LanguageSpec)
         (state state2 : Educational.LanguageState) (w w' : world os) l,
    Educational.failed state = false ->
    run (Educational.step2_body WORKSPACE index spec state) w = (Ret state2, w', l) ->
    stops_at_failure l = true
    /\ Educational.failed state2 = stage_failed l
    /\ (Educational.failed state2 = true ->
        forall w2 : world os,
          run (Educational.step3_body WORKSPACE index spec state2) w2
          = (Ret (Educational.set_status (utf8 "⛔ Skipped due to earlier error") state2),
             w2, [])).
Proof.
  intros os WORKSPACE index spec state state2 w w' l Hf Hrun.
  apply run_traces in Hrun. apply edu_step2_spec in Hrun; [| exact Hf].
  destruct Hrun as (Hs & Hf2 & _). split; [exact Hs |]. split; [exact Hf2 |].
  intros Hfailed w2. unfold Educational.step3_body. rewrite Hfailed. reflexivity.
Qed.

(** The C language on a machine whose compiler is not installed. *)
Lemma educational_failed_stage_witness :
  let r := @run machine_os _ _
             (Educational.step2_body example_workspace 0 edu_c Educational.new_state)
             machine_gcc_missing in
  Educational.failed Educational.new_state = false
  /\ stops_at_failure (record r) = true
  /\ stage_failed (record r) = true.
Proof.
  intros r. split; [reflexivity |].
  destruct r as [[out w'] l] eqn:E.
  assert (Hout : exists state2, out = Ret state2 /\ Educational.failed state2 = true).
  { apply (f_equal outcome) in E. vm_compute in E. rewrite <- E. eexists.
    split; reflexivity. }
  destruct Hout as (state2 & -> & Hfailed).
  destruct (educational_failed_stage_ends_the_pipeline machine_os example_workspace 0
              edu_c Educational.new_state machine_gcc_missing eq_refl E)
    as (Hs & Hf2 & _).
  unfold record. simpl. split; [exact Hs |]. now rewrite <- Hf2.
Defined.



(** X5.  Step 3 of the educational variant, for a language that is not
    marked as failed: it launches the run command once, without a time
    limit, records the time the launch took under [run], and marks the
    language as failed exactly when the command did not end with status 0.
    After a run that ended with status 0 the status is
    [Execution succeeded], the output kept is the standard output of the
    command, stripped, or [<no output>] when that is empty, and the error
    kept is its standard error, stripped.  After a run that ended with
    another status the status is [Execution error], the output is left as
    it was and the error kept is the standard error, stripped, else the
    standard output, stripped, else [Execution failed]; when the program
    was not found the error kept is the message of the exception.  So the
    text reported is never empty. *)
Theorem educational_run_step_reports :
  forall (os : OS) (WORKSPACE : path) (index : nat) (spec : Educational.LanguageSpec)
         (state state3 : Educational.LanguageState) (w w' : world os) l,
    Educational.failed state = false ->
    run (Educational.step3_body WORKSPACE index spec state) w = (Ret state3, w', l) ->
    exists b,
      l = [Os (Spawn (Educational.run_cmd spec) WORKSPACE None b)]
      /\ Educational.failed state3 = negb (spawn_ok None b)
      /\ dict_get (Educational.timings state3) (utf8 "run") = Some (duration b)
      /\ match b with
         | Exits rc out err _ =>
             if (rc =? 0)%Z
             then Educational.status state3 = utf8 "✅ Execution succeeded"
                  /\ Educational.stdout state3 = por (strip out) (utf8 "<no output>")
                  /\ Educational.stderr state3 = strip err
             else Educational.status state3 = utf8 "❌ Execution error"
                  /\ Educational.stdout state3 = Educational.stdout state
                  /\ Educational.stderr state3
                     = por (strip err) (por (strip out) (utf8 "Execution failed"))
         | NotFound msg _ =>
             Educational.status state3 = utf8 "❌ Execution error"
             /\ Educational.stdout state3 = Educational.stdout state
             /\ Educational.stderr state3 = por msg (utf8 "Execution failed")
         | LaunchError _ => False
         | Hangs => False
         end
      /\ (if Educational.failed state3
          then Educational.stderr state3 <> []
          else Educational.stdout state3 <> []).
Proof.
  intros os WORKSPACE index spec state state3 w w' l Hf Hrun.
  apply run_traces in Hrun. eapply edu_step3_spec in Hrun; [| exact Hf].
  destruct Hrun as (b & Hl & Hfail & Ht & Htexts & Hne).
  exists b. repeat (split; [assumption |]). exact Hne.
Qed.

(** The C language when its program is not there: the error kept is the
    message of the exception. *)
Lemma educational_run_step_witness :
  let r := @run machine_os _ _
             (Educational.step3_body example_workspace 0 edu_c Educational.new_state)
             machine_gcc_missing in
  Educational.failed Educational.new_state = false
  /\ exists state3 msg d,
       outcome r = Ret state3
       /\ record r
          = [Os (Spawn [utf8 "./hello_c"] example_workspace None (NotFound msg d))]
       /\ Educational.failed state3 = true
       /\ Educational.stderr state3 = por msg (utf8 "Execution failed").
Proof.
  intros r. split; [reflexivity |].
  set (state3 := match outcome r with Ret s => s | _ => Educational.new_state end).
  assert (Ho : outcome r = Ret state3) by (vm_compute; reflexivity).
  assert (E : r = (Ret state3, final r, record r)).
  { rewrite <- Ho. unfold final, outcome, record. now rewrite <- !surjective_pairing. }
  destruct (educational_run_step_reports machine_os example_workspace 0 edu_c
              Educational.new_state machine_gcc_missing eq_refl E)
    as (b & Hl & Hfail & _ & Htexts & _).
  assert (Hb : exists msg d, b = NotFound msg d).
  { assert (Hl' := Hl). vm_compute in Hl'. inversion Hl'. eauto. }
  destruct Hb as (msg & d & ->).
  exists state3, msg, d. split; [exact Ho |]. split; [exact Hl |].
  split; [exact Hfail |]. apply Htexts.
Defined.

(* ================================================================== *)
(** * educational_hello.py: the walkthrough of step 1                  *)
(* ================================================================== *)

Lemma firstn_S_nth_error {A} (l : list A) (i : nat) :
  firstn (S i) l
  = firstn i l ++ match nth_error l i with Some x => [x] | None => [] end.
Proof.
  revert i. induction l as [| a l IH]; intros [| i]; try reflexivity.
  change (firstn (S (S i)) (a :: l)) with (a :: firstn (S i) l).
  rewrite IH. reflexivity.
Qed.

Lemma fold_max_ge (ns : list nat) (n : nat) : In n ns -> n <= fold_right Nat.max 0 ns.
Proof.
  induction ns as [| m ns IH]; simpl; [contradiction |].
  intros [-> | H]; [lia |]. apply IH in H. lia.
Qed.

Section EducationalWalkthrough.
Variable LANGUAGES : list Educational.LanguageSpec.

(** One pass of the reveal loop shows one more line of every language that
    has one, and keeps the [failed] marks. *)
Lemma reveal_line_visible (i : nat) (specs : list Educational.LanguageSpec) :
  forall states,
    map Educational.visible_lines states
    = map (fun spec => firstn i (Educational.code_lines spec)) specs ->
    map Educational.visible_lines (Educational.reveal_line i specs states)
    = map (fun spec => firstn (S i) (Educational.code_lines spec)) specs
    /\ map Educational.failed (Educational.reveal_line i specs states)
       = map Educational.failed states.
Proof.
  induction specs as [| spec specs IH]; intros [| state states] H;
    try (simpl in H; discriminate); try (split; reflexivity).
  cbn [map Educational.reveal_line] in *.
  inversion H as [[Hv Hrest]]. apply IH in Hrest. destruct Hrest as [Hvis Hfail].
  rewrite Hvis, Hfail, firstn_S_nth_error, <- Hv. split; [| f_equal].
  - f_equal. destruct (nth_error (Educational.code_lines spec) i);
      [reflexivity | simpl; now rewrite app_nil_r].
  - destruct (nth_error (Educational.code_lines spec) i); reflexivity.
Qed.

Lemma reveal_lines_visible (n : nat) :
  forall states,
    map Educational.visible_lines states = map (fun _ => @nil text) LANGUAGES ->
    let states' := fold_left (fun sts i => Educational.reveal_line i LANGUAGES sts)
                             (seq 0 n) states in
    map Educational.visible_lines states'
    = map (fun spec => firstn n (Educational.code_lines spec)) LANGUAGES
    /\ map Educational.failed states' = map Educational.failed states.
Proof.
  induction n as [| n IH]; intros states H; cbv zeta.
  - simpl. split; [| reflexivity]. rewrite H. apply map_ext. reflexivity.
  - rewrite seq_S, fold_left_app. simpl.
    destruct (IH states H) as [Hv Hf]. cbv zeta in Hv, Hf.
    apply reveal_line_visible in Hv. destruct Hv as [Hv Hf']. split; [exact Hv |].
    now rewrite Hf'.
Qed.

End EducationalWalkthrough.

(** X6.  The walkthrough of step 1 of the educational variant reveals, for
    every language of the table, exactly the lines of its code, in order:
    what the dashboard shows when step 1 ends is what step 2 writes to the
    source file.  It marks every language as ready and none as failed. *)
Theorem educational_walkthrough_reveals_the_code :
  forall (LANGUAGES : list Educational.LanguageSpec),
    let states := Educational.step1 LANGUAGES
                    (map (fun _ => Educational.new_state) LANGUAGES) in
    map Educational.visible_lines states = map Educational.code_lines LANGUAGES
    /\ Forall (fun state => Educational.status state = utf8 "✅ Source ready"
                            /\ Educational.failed state = false) states.
Proof.
  intros LANGUAGES states. subst states. unfold Educational.step1.
  destruct (reveal_lines_visible LANGUAGES (Educational.max_lines LANGUAGES)
              (map (fun _ => Educational.new_state) LANGUAGES)) as [Hv Hf].
  { rewrite map_map. reflexivity. }
  cbv zeta in Hv, Hf. rewrite map_map in Hf. split.
  - assert (E : forall (t : text) X,
               map Educational.visible_lines (map (Educational.set_status t) X)
               = map Educational.visible_lines X).
    { intros t X. rewrite map_map. apply map_ext. reflexivity. }
    rewrite E, Hv. apply map_ext_in. intros spec Hin.
    apply firstn_all2. unfold Educational.max_lines. apply fold_max_ge.
    apply in_map_iff. exists spec. auto.
  - apply Forall_forall. intros state Hin. apply in_map_iff in Hin.
    destruct Hin as (s0 & <- & Hin0). split; [reflexivity |]. simpl.
    assert (Hall : Forall (fun b => b = false)
                     (map Educational.failed
                        (fold_left (fun sts i => Educational.reveal_line i LANGUAGES sts)
                           (seq 0 (Educational.max_lines LANGUAGES))
                           (map (fun _ => Educational.new_state) LANGUAGES)))).
    { rewrite Hf. apply Forall_forall. intros b Hb. apply in_map_iff in Hb.
      destruct Hb as (x & <- & _). reflexivity. }
    rewrite Forall_forall in Hall. apply Hall. apply in_map. exact Hin0.
Qed.

(* ================================================================== *)
(** * educational_hello.py: the timings                                *)
(* ================================================================== *)

Lemma timing_keys_differ :
  text_eqb (utf8 "write") (utf8 "compile") = false
  /\ text_eqb (utf8 "write") (utf8 "run") = false
  /\ text_eqb (utf8 "write") (utf8 "total") = false
  /\ text_eqb (utf8 "compile") (utf8 "write") = false
  /\ text_eqb (utf8 "compile") (utf8 "run") = false
  /\ text_eqb (utf8 "compile") (utf8 "total") = false
  /\ text_eqb (utf8 "run") (utf8 "write") = false
  /\ text_eqb (utf8 "run") (utf8 "compile") = false
  /\ text_eqb (utf8 "run") (utf8 "total") = false
  /\ text_eqb (utf8 "total") (utf8 "write") = false
  /\ text_eqb (utf8 "total") (utf8 "compile") = false
  /\ text_eqb (utf8 "total") (utf8 "run") = false.
Proof. vm_compute. repeat split; reflexivity. Qed.

Ltac timing_keys :=
  destruct timing_keys_differ
    as (Kwc & Kwr & Kwt & Kcw & Kcr & Kct & Krw & Krc & Krt & Ktw & Ktc & Ktr).

Section EducationalTimings.
Variable WORKSPACE : path.

Local Abbreviation compile_loop := (Educational.compile_loop WORKSPACE).
Local Abbreviation step2_body := (Educational.step2_body WORKSPACE).
Local Abbreviation step3_body := (Educational.step3_body WORKSPACE).

Lemma edu_timings_after_outputs (o e : text) (state : Educational.LanguageState) :
  Educational.timings
    (if truthy e
     then Educational.set_stderr e
            (if truthy o then Educational.set_stdout o state else state)
     else if truthy o then Educational.set_stdout o state else state)
  = Educational.timings state.
Proof. destruct (truthy e), (truthy o); reflexivity. Qed.

(** The compile loop leaves the timings alone. *)
Lemma edu_compile_loop_timings (cmds : list cmd) :
  forall index total_steps n_cmds cmd_index state compile_time l state' t,
    traces (compile_loop index total_steps n_cmds cmd_index state compile_time cmds) l
           (Ret (state', t)) ->
    Educational.timings state' = Educational.timings state.
Proof.
  induction cmds as [| c0 rest IH];
    intros index total_steps n_cmds cmd_index state compile_time l state' t H.
  - simpl in H. destruct H as [_ E]. now inversion E.
  - step_call H as x.
    destruct x as [rc o e d | msg d | msg | ]; simpl in H.
    + unfold expired in H. destruct (rc =? 0)%Z eqn:Erc; simpl in H.
      * step_traces H. apply IH in H. rewrite H, edu_timings_after_outputs.
        reflexivity.
      * step_traces H. destruct H as [_ E]. now inversion E.
    + step_traces H. destruct H as [_ E]. now inversion E.
    + destruct H as [_ E]. discriminate.
    + destruct H as [_ E]. discriminate.
Qed.

Lemma edu_step2_timings (index : nat) (spec : Educational.LanguageSpec)
    (state : Educational.LanguageState) :
  Educational.timings state = [] ->
  forall l state2,
    traces (step2_body index spec state) l (Ret state2) ->
    (exists e, Educational.timings state2 = [(utf8 "write", e)]
               /\ Educational.failed state2 = true)
    \/ (exists e c,
          Educational.timings state2 = [(utf8 "write", e); (utf8 "compile", c)]).
Proof.
  intros Ht l state2 H. timing_keys. unfold Educational.step2_body in H.
  step_call H as x. destruct x as [[msg |] elapsed]; simpl in H.
  - repeat step_traces H. destruct H as [_ E]. inversion E; subst.
    left. exists elapsed. simpl. rewrite Ht. auto.
  - step_traces H. destruct (Educational.compile_cmds spec) as [| c0 rest] eqn:Ec.
    + repeat step_traces H. destruct H as [_ E]. inversion E; subst.
      right. exists elapsed, 0%N. simpl. rewrite Ht. simpl. now rewrite Kwc.
    + rewrite <- Ec in *. apply traces_bind_ret in H.
      destruct H as ([s' t] & l1 & l2 & H1 & H2 & _).
      apply edu_compile_loop_timings in H1. simpl in H1. rewrite Ht in H1.
      simpl in H1. right. exists elapsed, t. simpl in H2.
      destruct (Educational.failed s'); simpl in H2.
      * destruct H2 as [_ E]. inversion E; subst. simpl. rewrite H1. simpl.
        now rewrite Kwc.
      * step_traces H2. destruct H2 as [_ E]. inversion E; subst. simpl.
        rewrite H1. simpl. now rewrite Kwc.
Qed.

Lemma edu_step3_timings (index : nat) (spec : Educational.LanguageSpec)
    (state : Educational.LanguageState) :
  forall l state3,
    traces (step3_body index spec state) l (Ret state3) ->
    (Educational.failed state = true
     /\ Educational.timings state3 = Educational.timings state
     /\ Educational.failed state3 = true)
    \/ (Educational.failed state = false
        /\ exists r, Educational.timings state3
                     = dict_set (Educational.timings state) (utf8 "run") r).
Proof.
  intros l state3 H. unfold Educational.step3_body in H.
  destruct (Educational.failed state) eqn:Hf.
  - left. destruct H as [_ E]. inversion E; subst. auto.
  - right. split; [reflexivity |]. step_call H as x. unfold expired in H.
    destruct x as [rc o e d | msg d | msg | ]; simpl in H.
    + destruct (rc =? 0)%Z; simpl in H; destruct H as [_ E]; inversion E; subst;
        eexists; reflexivity.
    + destruct H as [_ E]. inversion E; subst. eexists; reflexivity.
    + destruct H as [_ E]. discriminate.
    + destruct H as [_ E]. discriminate.
Qed.

(** Steps 2 and 3, one after the other, on a fresh state. *)
Lemma edu_steps_timings (index : nat) (spec : Educational.LanguageSpec)
    (state : Educational.LanguageState) :
  Educational.timings state = [] ->
  forall l2 state2 l3 state3,
    traces (step2_body index spec state) l2 (Ret state2) ->
    traces (step3_body index spec state2) l3 (Ret state3) ->
    edu_timings_shape state3.
Proof.
  intros Ht l2 state2 l3 state3 H2 H3. timing_keys.
  apply edu_step2_timings in H2; [| exact Ht]. apply edu_step3_timings in H3.
  unfold edu_timings_shape.
  destruct H3 as [(Hf & Ht3 & Hf3) | (Hf & r & Ht3)]; rewrite Ht3.
  - destruct H2 as [(e & -> & _) | (e & c & ->)]; [left | right; left]; eauto.
  - destruct H2 as [(e & _ & Hf2) | (e & c & ->)]; [congruence |].
    right; right. exists e, c, r. simpl. now rewrite Kwr, Kcr.
Qed.

End EducationalTimings.

Lemma dict_get_default_set_same (d : dict) (k : text) (v default : time) :
  dict_get_default (dict_set d k v) k default = v.
Proof. unfold dict_get_default. now rewrite dict_get_set_same. Qed.

Lemma dict_get_default_set_other (d : dict) (k k' : text) (v default : time) :
  text_eqb k k' = false ->
  dict_get_default (dict_set d k v) k' default = dict_get_default d k' default.
Proof. intros H. unfold dict_get_default. now rewrite dict_get_set_other. Qed.

(** The timings that steps 2 and 3 leave have no total yet, and add up to
    the three times shown. *)
Lemma edu_timings_shape_sum (state : Educational.LanguageState) :
  edu_timings_shape state ->
  dict_get (Educational.timings state) (utf8 "total") = None
  /\ dict_sum (Educational.timings state)
     = (dict_get_default (Educational.timings state) (utf8 "write") 0
        + dict_get_default (Educational.timings state) (utf8 "compile") 0
        + dict_get_default (Educational.timings state) (utf8 "run") 0)%N.
Proof.
  intros Hshape. timing_keys.
  destruct Hshape as [(e & -> & _) | [(e & c & ->) | (e & c & r & ->)]];
    unfold dict_sum, dict_get_default; simpl;
    rewrite ?Kwt, ?Kct, ?Krt, ?Kwc, ?Kwr, ?Kcr, ?text_eqb_refl; simpl;
    rewrite ?Kwt, ?Kct, ?Krt, ?Kwc, ?Kwr, ?Kcr, ?text_eqb_refl; simpl;
    rewrite ?Kwt, ?Kct, ?Krt, ?Kwc, ?Kwr, ?Kcr, ?text_eqb_refl; simpl;
    split; try reflexivity; lia.
Qed.

(** Step 4 on timings without a total. *)
Lemma edu_step4_total (state : Educational.LanguageState) :
  dict_get (Educational.timings state) (utf8 "total") = None ->
  let state4 := Educational.step4_body state in
  dict_get_default (Educational.timings state4) (utf8 "total") 0
  = dict_sum (Educational.timings state)
  /\ dict_get_default (Educational.timings state4) (utf8 "write") 0
     = dict_get_default (Educational.timings state) (utf8 "write") 0
  /\ dict_get_default (Educational.timings state4) (utf8 "compile") 0
     = dict_get_default (Educational.timings state) (utf8 "compile") 0
  /\ dict_get_default (Educational.timings state4) (utf8 "run") 0
     = dict_get_default (Educational.timings state) (utf8 "run") 0.
Proof.
  intros Hnone. timing_keys. cbv zeta. unfold Educational.step4_body.
  set (total := dict_sum (Educational.timings state)).
  set (s1 := if (total =? 0)%N then state
             else Educational.set_timing (utf8 "total") total state).
  assert (H1 : dict_get_default (Educational.timings s1) (utf8 "total") 0 = total
               /\ dict_get_default (Educational.timings s1) (utf8 "write") 0
                  = dict_get_default (Educational.timings state) (utf8 "write") 0
               /\ dict_get_default (Educational.timings s1) (utf8 "compile") 0
                  = dict_get_default (Educational.timings state) (utf8 "compile") 0
               /\ dict_get_default (Educational.timings s1) (utf8 "run") 0
                  = dict_get_default (Educational.timings state) (utf8 "run") 0).
  { subst s1. destruct (total =? 0)%N eqn:E0.
    - apply N.eqb_eq in E0. unfold dict_get_default at 1. rewrite Hnone. auto.
    - simpl. rewrite dict_get_default_set_same.
      rewrite !dict_get_default_set_other by assumption. auto. }
  destruct H1 as (Ht & Hw & Hc & Hr).
  destruct (negb (Educational.failed s1)
            && negb (dict_mem (Educational.timings s1) (utf8 "compile"))) eqn:Econd.
  - apply andb_true_iff in Econd. destruct Econd as [_ Hmem].
    apply negb_true_iff in Hmem. simpl.
    rewrite dict_get_default_set_same.
    rewrite !dict_get_default_set_other by assumption.
    repeat split; auto. rewrite <- Hc. unfold dict_get_default.
    unfold dict_mem in Hmem.
    destruct (dict_get (Educational.timings s1) (utf8 "compile")); [discriminate | auto].
  - auto.
Qed.

(** X7.  The times of the educational variant.  For a language that went
    through steps 2 and 3 from a fresh state, step 4 leaves the times of the
    write, of the compile stage and of the run as they are, and the total it
    stores is their sum; it stores no total only when that sum is 0. *)
Theorem educational_total_is_the_sum_of_the_stages :
  forall (os : OS) (WORKSPACE : path) (index : nat) (spec : Educational.LanguageSpec)
         (state state2 state3 : Educational.LanguageState)
         (w w1 w2 w3 : world os) l2 l3,
    Educational.timings state = [] ->
    run (Educational.step2_body WORKSPACE index spec state) w = (Ret state2, w1, l2) ->
    run (Educational.step3_body WORKSPACE index spec state2) w2 = (Ret state3, w3, l3) ->
    let timings4 := Educational.timings (Educational.step4_body state3) in
    dict_get_default timings4 (utf8 "total") 0
    = (dict_get_default timings4 (utf8 "write") 0
       + dict_get_default timings4 (utf8 "compile") 0
       + dict_get_default timings4 (utf8 "run") 0)%N
    /\ dict_get_default timings4 (utf8 "write") 0
       = dict_get_default (Educational.timings state3) (utf8 "write") 0
    /\ dict_get_default timings4 (utf8 "compile") 0
       = dict_get_default (Educational.timings state3) (utf8 "compile") 0
    /\ dict_get_default timings4 (utf8 "run") 0
       = dict_get_default (Educational.timings state3) (utf8 "run") 0.
Proof.
  intros os WORKSPACE index spec state state2 state3 w w1 w2 w3 l2 l3 Ht H2 H3.
  apply run_traces in H2, H3.
  assert (Hshape : edu_timings_shape state3) by (eapply edu_steps_timings; eauto).
  apply edu_timings_shape_sum in Hshape. destruct Hshape as [Hnone Hsum].
  destruct (edu_step4_total state3 Hnone) as (Htot & Hw & Hc & Hr).
  cbv zeta in *. rewrite Htot, Hw, Hc, Hr, Hsum. auto.
Qed.

(** The C language on a machine whose tools work. *)
Lemma educational_total_witness :
  exists state3 : Educational.LanguageState,
    Educational.failed state3 = false
    /\ dict_get_default (Educational.timings (Educational.step4_body state3))
         (utf8 "total") 0
       = (dict_get_default (Educational.timings (Educational.step4_body state3))
            (utf8 "write") 0
          + dict_get_default (Educational.timings (Educational.step4_body state3))
              (utf8 "compile") 0
          + dict_get_default (Educational.timings (Educational.step4_body state3))
              (utf8 "run") 0)%N.
Proof.
  assert (E : exists state2 w1 l2 state3 w3 l3,
             @run machine_os _ _
               (Educational.step2_body example_workspace 0 edu_c Educational.new_state)
               machine_working = (Ret state2, w1, l2)
             /\ @run machine_os _ _
                  (Educational.step3_body example_workspace 0 edu_c state2) w1
                = (Ret state3, w3, l3)
             /\ Educational.failed state3 = false).
  { do 6 eexists. split; [vm_compute; reflexivity |].
    split; [vm_compute; reflexivity | reflexivity]. }
  destruct E as (state2 & w1 & l2 & state3 & w3 & l3 & E2 & E3 & Hf).
  exists state3. split; [exact Hf |].
  exact (proj1 (@educational_total_is_the_sum_of_the_stages machine_os example_workspace 0
                  edu_c Educational.new_state state2 state3 machine_working w1 w1 w3
                  l2 l3 eq_refl E2 E3)).
Defined.

(* ================================================================== *)
(** * The console variant                                              *)
(* ================================================================== *)

Lemma is_stage_map_ui {U} (us : list U) : existsb is_stage (map (@Ui U) us) = false.
Proof. induction us; simpl; auto. Qed.

Lemma stage_failed_map_ui {U} (us : list U) : stage_failed (map (@Ui U) us) = false.
Proof. induction us; simpl; auto. Qed.

Lemma launched_map_ui {U} (us : list U) : launched (map (@Ui U) us) = [].
Proof. induction us; simpl; auto. Qed.

Lemma written_map_ui {U} (us : list U) : written (map (@Ui U) us) = [].
Proof. induction us; simpl; auto. Qed.

Lemma ui_events_map_ui {U} (us : list U) : ui_events (map (@Ui U) us) = us.
Proof. induction us; simpl; congruence. Qed.

Lemma banners_app (a b : list MultiLang.ui) : banners (a ++ b) = banners a ++ banners b.
Proof. apply flat_map_app. Qed.

Section ConsolePipeline.

Transparent MultiLang.run_command.

(** [run_command]: one launch without a time limit, then what it prints. *)
Lemma multilang_run_command_spec (label : text) (c : cmd) (cwd : path) (show : bool) :
  forall l out,
    traces (MultiLang.run_command label c cwd show) l out ->
    exists b us,
      l = Os (Spawn c cwd None b) :: map Ui us
      /\ banners us = []
      /\ ~ In MultiLang.PrintRunSkipped us
      /\ match out with
         | Ret (ok, _) => ok = spawn_ok None b
         | Raise e => spawn_ok None b = false /\ exists msg, e = OSError msg
         | Block => spawn_ok None b = false
         end.
Proof.
  intros l out H. unfold MultiLang.run_command in H. step_call H as x.
  exists x. unfold expired in H.
  destruct x as [rc o e d | msg d | msg | ]; simpl in H.
  - destruct (rc =? 0)%Z eqn:Erc; simpl in H; step_traces H;
      destruct (truthy o), (truthy e), show; simpl in H;
      repeat step_traces H;
      match goal with
      | |- exists us, _ :: ?t = _ :: map Ui us /\ _ =>
          let us' := eval cbv [ui_events flat_map app] in (ui_events t) in
          exists us'; simpl; rewrite ?Erc; repeat split; auto;
          intuition discriminate
      end.
  - repeat step_traces H. eexists [_; _]. simpl. repeat split; auto.
    intuition discriminate.
  - repeat step_traces H. exists []. simpl. repeat split; eauto.
  - repeat step_traces H. exists []. simpl. repeat split; auto.
Qed.

Opaque MultiLang.run_command.

Lemma firstn_S_cons {A} (a : A) (l : list A) (k : nat) :
  firstn (S k) (a :: l) = a :: firstn k l.
Proof. reflexivity. Qed.

Lemma multilang_compile_loop_spec (cmds : list cmd) (ws : path) :
  forall l out,
    traces (MultiLang.compile_loop cmds ws) l out ->
    stops_at_failure l = true
    /\ written l = []
    /\ banners (ui_events l) = []
    /\ ~ In MultiLang.PrintRunSkipped (ui_events l)
    /\ match out with
       | Ret true => stage_failed l = false /\ launched l = cmds
       | Ret false =>
           stage_failed l = true
           /\ exists k, k < List.length cmds /\ launched l = firstn (S k) cmds
       | Raise e => stage_failed l = true /\ exists msg, e = OSError msg
       | Block => stage_failed l = true
       end.
Proof.
  induction cmds as [| c rest IH]; intros l out H.
  - simpl in H. step_traces H. simpl. repeat split; auto.
  - cbn [MultiLang.compile_loop] in H. apply traces_bind in H.
    destruct H as [(a & l1 & l2 & H1 & H2 & ->) | [(e & H1 & ->) | (H1 & ->)]];
      apply multilang_run_command_spec in H1;
      destruct H1 as (b & us & -> & Hb & Hsk & H1).
    + destruct a as [ok t]. subst ok.
      destruct (spawn_ok None b) eqn:Eok; cbn [negb] in H2; cbv iota in H2.
      * apply IH in H2. destruct H2 as (Hs & Hw & Hbn & Hsk2 & H2).
        assert (Hf : stage_failed (Os (Spawn c ws None b) :: map Ui us) = false).
        { simpl. rewrite Eok. apply stage_failed_map_ui. }
        split; [now rewrite stops_at_failure_app_ok |].
        split; [simpl; now rewrite written_app, written_map_ui |].
        split; [simpl; now rewrite ui_events_app, ui_events_map_ui, banners_app, Hb |].
        split.
        { simpl. rewrite ui_events_app, ui_events_map_ui, in_app_iff. tauto. }
        assert (Hl : launched ((Os (Spawn c ws None b) :: map Ui us) ++ l2)
                     = c :: launched l2).
        { change ((Os (Spawn c ws None b) :: map Ui us) ++ l2)
            with ([Os (Spawn c ws None b)] ++ map Ui us ++ l2).
          now rewrite !launched_app, launched_map_ui. }
        destruct out as [[|] | e | ]; rewrite stage_failed_app, Hf; try tauto.
        -- destruct H2 as [H2 H3]. split; [exact H2 |]. rewrite Hl. congruence.
        -- destruct H2 as (H2 & k & Hk & H3). split; [exact H2 |].
           exists (S k). split; [simpl; lia |].
           rewrite Hl, H3. reflexivity.
      * step_traces H2. rewrite app_nil_r.
        split; [apply stops_at_failure_single, is_stage_map_ui |].
        split; [simpl; apply written_map_ui |].
        split; [simpl; now rewrite ui_events_map_ui |].
        split; [simpl; now rewrite ui_events_map_ui |].
        simpl. rewrite Eok. split; [reflexivity |].
        exists 0. split; [lia |]. unfold launched. simpl. f_equal.
        apply launched_map_ui.
    + destruct H1 as [Eok Hm].
      split; [apply stops_at_failure_single, is_stage_map_ui |].
      split; [simpl; apply written_map_ui |].
      split; [simpl; now rewrite ui_events_map_ui |].
      split; [simpl; now rewrite ui_events_map_ui |].
      simpl. rewrite Eok. auto.
    + split; [apply stops_at_failure_single, is_stage_map_ui |].
      split; [simpl; apply written_map_ui |].
      split; [simpl; now rewrite ui_events_map_ui |].
      split; [simpl; now rewrite ui_events_map_ui |].
      simpl. now rewrite H1.
Qed.

Lemma multilang_run_execution_spec (lang : MultiLang.Language) (ws : path) :
  forall l out,
    traces (MultiLang.run_execution lang ws) l out ->
    stops_at_failure l = true
    /\ written l = []
    /\ banners (ui_events l) = []
    /\ ~ In MultiLang.PrintRunSkipped (ui_events l)
    /\ launched l = [MultiLang.run_cmd lang]
    /\ match out with
       | Ret _ => True
       | Raise e => stage_failed l = true /\ exists msg, e = OSError msg
       | Block => stage_failed l = true
       end.
Proof.
  intros l out H. unfold MultiLang.run_execution in H. apply traces_bind in H.
  destruct H as [(a & l1 & l2 & H1 & H2 & ->) | [(e & H1 & ->) | (H1 & ->)]];
    apply multilang_run_command_spec in H1;
    destruct H1 as (b & us & -> & Hb & Hsk & H1);
    try (step_traces H2; rewrite app_nil_r);
    (split; [apply stops_at_failure_single, is_stage_map_ui |]);
    (split; [simpl; apply written_map_ui |]);
    (split; [simpl; now rewrite ui_events_map_ui |]);
    (split; [simpl; now rewrite ui_events_map_ui |]);
    (split; [unfold launched; simpl; f_equal; apply launched_map_ui |]).
  - exact I.
  - destruct H1 as [Eok Hm]. simpl. rewrite Eok. auto.
  - simpl. now rewrite H1.
Qed.

Lemma multilang_write_source_file_spec (lang : MultiLang.Language) (ws : path) :
  forall l out,
    traces (MultiLang.write_source_file lang ws) l out ->
    exists exc us,
      l = Os (WriteText (path_join ws (MultiLang.filename lang)) (MultiLang.source lang) exc)
          :: map Ui us
      /\ banners us = []
      /\ ~ In MultiLang.PrintRunSkipped us
      /\ out = Ret match exc with None => true | Some _ => false end.
Proof.
  intros l out H. unfold MultiLang.write_source_file in H. step_call H as x.
  destruct x as [[msg |] elapsed]; simpl in H; repeat step_traces H.
  - exists (Some msg). eexists [_; _]. simpl. repeat split; auto.
    intuition discriminate.
  - exists None. eexists [_]. simpl. repeat split; auto. intuition discriminate.
Qed.

(** [process_language]: the banner, the write of the source file, and then
    the commands as long as none fails. *)
Lemma multilang_process_language_spec (lang : MultiLang.Language) (ws : path) :
  forall l out,
    traces (MultiLang.process_language lang ws) l out ->
    stops_at_failure l = true
    /\ banners (ui_events l) = [MultiLang.name lang]
    /\ map fst (written l) = [path_join ws (MultiLang.filename lang)]
    /\ (stage_failed l = false ->
        launched l = MultiLang.compile_cmds lang ++ [MultiLang.run_cmd lang])
    /\ (In MultiLang.PrintRunSkipped (ui_events l) ->
        stage_failed l = true
        /\ exists k, k < List.length (MultiLang.compile_cmds lang)
                     /\ launched l = firstn (S k) (MultiLang.compile_cmds lang))
    /\ match out with
       | Ret _ => True
       | Raise e => stage_failed l = true /\ exists msg, e = OSError msg
       | Block => stage_failed l = true
       end.
Proof.
  intros l out H. unfold MultiLang.process_language in H.
  step_head H. apply traces_bind in H.
  destruct H as [(u & lu & lr & H1 & H & ->) | [(e & H1 & ->) | (H1 & ->)]];
    try (destruct H1 as [_ H1]; discriminate).
  destruct H1 as [-> _]. clear u. rewrite app_nil_l. apply traces_bind in H.
  destruct H as [(a & l1 & l2 & H1 & H2 & ->) | [(e & H1 & ->) | (H1 & ->)]];
    apply multilang_write_source_file_spec in H1;
    destruct H1 as (exc & us & -> & Hb & Hsk & Ho); try discriminate.
  inversion Ho; subst a; clear Ho.
  destruct exc as [msg |]; cbn [negb] in H2; cbv iota in H2.
  - step_traces H2. rewrite app_nil_r. simpl.
    rewrite ui_events_map_ui, written_map_ui, Hb, is_stage_map_ui.
    repeat split; auto; try discriminate; intuition discriminate.
  - assert (Hrest :
      stops_at_failure l2 = true /\ banners (ui_events l2) = [] /\ written l2 = []
      /\ (stage_failed l2 = false ->
          launched l2 = MultiLang.compile_cmds lang ++ [MultiLang.run_cmd lang])
      /\ (In MultiLang.PrintRunSkipped (ui_events l2) ->
          stage_failed l2 = true
          /\ exists k, k < List.length (MultiLang.compile_cmds lang)
                       /\ launched l2 = firstn (S k) (MultiLang.compile_cmds lang))
      /\ match out with
         | Ret _ => True
         | Raise e => stage_failed l2 = true /\ exists msg, e = OSError msg
         | Block => stage_failed l2 = true
         end).
    { destruct (MultiLang.compile_cmds lang) as [| c rest] eqn:Ec.
      - step_head H2. apply traces_bind in H2.
        destruct H2 as [(u & lu & lr & H1 & H & ->) | [(e & H1 & ->) | (H1 & ->)]];
          try (destruct H1 as [_ H1]; discriminate).
        destruct H1 as [-> _]. clear u. rewrite app_nil_l.
        apply multilang_run_execution_spec in H.
        destruct H as (Hs & Hw & Hbn & Hsk2 & Hl & Ho).
        rewrite stops_at_failure_ui. simpl.
        repeat split; auto;
          match goal with
          | E : _ \/ _ |- _ => destruct E as [E | E]; [discriminate | tauto]
          end.
      - apply traces_bind in H2.
        destruct H2 as [(a & l1 & l3 & H1 & H & ->) | [(e & H1 & ->) | (H1 & ->)]];
          unfold MultiLang.run_compile_steps in H1; rewrite Ec in H1;
          apply multilang_compile_loop_spec in H1;
          destruct H1 as (Hs & Hw & Hbn & Hsk1 & H1).
        + destruct a; cbn [negb] in H; cbv iota in H.
          * destruct H1 as [Hf Hl1].
            apply multilang_run_execution_spec in H.
            destruct H as (Hs3 & Hw3 & Hbn3 & Hsk3 & Hl3 & Ho).
            rewrite stops_at_failure_app_ok by exact Hf.
            rewrite ui_events_app, banners_app, written_app, stage_failed_app,
              launched_app, in_app_iff, Hf, Hbn, Hbn3, Hw, Hw3, Hl1, Hl3.
            simpl. repeat split; auto; tauto.
          * destruct H1 as (Hf & k & Hk & Hl1). repeat step_traces H.
            split; [apply stops_at_failure_app_quiet; auto |].
            rewrite ui_events_app, banners_app, written_app, stage_failed_app,
              launched_app, in_app_iff, Hf, Hbn, Hw, Hl1.
            replace (launched [Ui MultiLang.PrintRunSkipped]) with (@nil cmd)
              by reflexivity.
            rewrite !app_nil_r.
            repeat split; eauto; discriminate.
        + destruct H1 as (Hf & msg & ->). rewrite Hf.
          repeat split; eauto; try discriminate. tauto.
        + rewrite H1. repeat split; eauto; try discriminate. tauto. }
    destruct Hrest as (Hs & Hbn & Hw & Hok & Hskip & Ho).
    set (pre := Ui (MultiLang.PrintBanner (MultiLang.name lang))
                :: Os (WriteText (path_join ws (MultiLang.filename lang))
                         (MultiLang.source lang) None) :: map Ui us).
    change (Ui (MultiLang.PrintBanner (MultiLang.name lang))
            :: (Os (WriteText (path_join ws (MultiLang.filename lang))
                      (MultiLang.source lang) None) :: map Ui us) ++ l2)
      with (pre ++ l2).
    assert (Hpf : stage_failed pre = false) by (simpl; apply stage_failed_map_ui).
    assert (Hpl : launched pre = []) by (apply (launched_map_ui us)).
    assert (Hpw : written pre = [(path_join ws (MultiLang.filename lang), None)]).
    { unfold pre, written. simpl. f_equal. apply (written_map_ui us). }
    assert (Hpu : ui_events pre = MultiLang.PrintBanner (MultiLang.name lang) :: us).
    { unfold pre. simpl. f_equal. apply ui_events_map_ui. }
    rewrite stops_at_failure_app_ok by exact Hpf.
    rewrite ui_events_app, banners_app, written_app, stage_failed_app, launched_app,
      in_app_iff, Hpf, Hpl, Hpw, Hpu, Hbn, Hw.
    simpl. rewrite Hb.
    repeat split; auto;
      match goal with
      | E : (_ \/ _) \/ _ |- _ =>
          destruct E as [[E | E] | E]; [discriminate | tauto | apply Hskip, E]
      end.
Qed.

End ConsolePipeline.

(** X8.  In the console variant [process_language] launches and writes
    nothing after a stage that failed: a source file that could not be
    written, or a command that was not found, ended with a status other than
    0 or could not be launched.  When no stage failed, the compile commands
    and then the run command were launched, in order, and nothing else.  The
    line saying that the run is skipped is printed only after a compile
    command failed, and then only compile commands were launched. *)
Theorem console_failed_stage_ends_the_pipeline :
  forall (os : OS) (lang : MultiLang.Language) (workspace : path) (w : world os),
    let l := record (run (MultiLang.process_language lang workspace) w) in
    stops_at_failure l = true
    /\ (stage_failed l = false ->
        launched l = MultiLang.compile_cmds lang ++ [MultiLang.run_cmd lang])
    /\ (In MultiLang.PrintRunSkipped (ui_events l) ->
        stage_failed l = true
        /\ exists k, k < List.length (MultiLang.compile_cmds lang)
                     /\ launched l = firstn (S k) (MultiLang.compile_cmds lang)).
Proof.
  intros os lang workspace w.
  destruct (run (MultiLang.process_language lang workspace) w) as [[out w'] l0] eqn:E.
  apply run_traces in E. unfold record. cbn [snd]. cbv zeta.
  apply multilang_process_language_spec in E. tauto.
Qed.

Section TryFinally.
Context {U : Type}.

(** [try: body finally: fin], on the records. *)
Lemma traces_try_finally {A} (body : prog U A) (fin : prog U unit) :
  forall l out,
    traces (try_finally body fin) l out ->
    (traces body l Block /\ out = Block)
    \/ (exists rb lb rf lf,
          traces body lb rb /\ rb <> Block /\ traces fin lf rf /\ l = lb ++ lf
          /\ out = match rf with
                   | Ret _ => rb
                   | Raise e => Raise e
                   | Block => Block
                   end).
Proof.
  induction body as [a | e | | r k IH | u m IH]; simpl; intros l out H.
  - right. apply traces_bind in H.
    destruct H as [(x & l1 & l2 & H1 & H2 & ->) | [(e & H1 & ->) | (H1 & ->)]].
    + simpl in H2. destruct H2 as [-> ->]. exists (Ret a), [], (Ret x), l1.
      rewrite app_nil_r. repeat split; auto; discriminate.
    + exists (Ret a), [], (Raise e), l. repeat split; auto; discriminate.
    + exists (Ret a), [], Block, l. repeat split; auto; discriminate.
  - right. apply traces_bind in H.
    destruct H as [(x & l1 & l2 & H1 & H2 & ->) | [(e' & H1 & ->) | (H1 & ->)]].
    + simpl in H2. destruct H2 as [-> ->]. exists (Raise e), [], (Ret x), l1.
      rewrite app_nil_r. repeat split; auto; discriminate.
    + exists (Raise e), [], (Raise e'), l. repeat split; auto; discriminate.
    + exists (Raise e), [], Block, l. repeat split; auto; discriminate.
  - left. destruct H as [-> ->]. auto.
  - destruct H as (x & l' & -> & H). apply IH in H.
    destruct H as [(H1 & ->) | (rb & lb & rf & lf & H1 & Hrb & H2 & -> & ->)].
    + left. split; [| reflexivity]. exists x, l'. auto.
    + right. exists rb, (record_of r x ++ lb), rf, lf.
      repeat split; auto using app_assoc. exists x, lb. auto.
  - destruct H as (l' & -> & H). apply IH in H.
    destruct H as [(H1 & ->) | (rb & lb & rf & lf & H1 & Hrb & H2 & -> & ->)].
    + left. split; [| reflexivity]. exists l'. auto.
    + right. exists rb, (Ui u :: lb), rf, lf. repeat split; auto. exists lb. auto.
Qed.

End TryFinally.

Section ConsoleMain.
Variable workspace : path.

Transparent MultiLang.cleanup_workspace.

Lemma multilang_cleanup_workspace_traces (p : path) (silent : bool) :
  forall l out,
    traces (MultiLang.cleanup_workspace p silent) l out ->
    written l = [] /\ banners (ui_events l) = [] /\ exists cleaned, out = Ret cleaned.
Proof.
  intros l out H. unfold MultiLang.cleanup_workspace in H. step_call H as x.
  destruct x; simpl in H.
  - step_call H as y. destruct y as [msg |]; simpl in H.
    + destruct silent; simpl in H; repeat step_traces H; simpl; eauto.
    + repeat step_traces H. simpl. eauto.
  - repeat step_traces H. simpl. eauto.
Qed.

Opaque MultiLang.cleanup_workspace.

(** The loop of [main] over the languages. *)
Lemma multilang_for_each_spec (langs : list MultiLang.Language) :
  forall l out,
    traces (MultiLang.for_each langs (fun lang => MultiLang.process_language lang workspace))
           l out ->
    match out with
    | Ret _ =>
        banners (ui_events l) = map MultiLang.name langs
        /\ map fst (written l)
           = map (fun lang => path_join workspace (MultiLang.filename lang)) langs
    | Raise e => exists msg, e = OSError msg
    | Block => True
    end.
Proof.
  induction langs as [| lang rest IH]; intros l out H.
  - simpl in H. destruct H as [-> ->]. auto.
  - cbn [MultiLang.for_each] in H. apply traces_bind in H.
    destruct H as [(a & l1 & l2 & H1 & H2 & ->) | [(e & H1 & ->) | (_ & ->)]];
      [| | exact I]; apply multilang_process_language_spec in H1.
    + destruct H1 as (_ & Hb & Hw & _). apply IH in H2.
      destruct out as [u | e | ]; auto. destruct H2 as [Hb2 Hw2].
      rewrite ui_events_app, banners_app, written_app, map_app, Hb, Hw, Hb2, Hw2.
      auto.
    + destruct H1 as (_ & _ & _ & _ & _ & _ & Hm). exact Hm.
Qed.

Lemma multilang_main_traces (LANGUAGES : list MultiLang.Language) :
  forall l out,
    traces (MultiLang.main workspace LANGUAGES) l out ->
    match out with
    | Ret rc =>
        rc = 0%Z
        /\ banners (ui_events l) = map MultiLang.name LANGUAGES
        /\ map fst (written l)
           = map (fun lang => path_join workspace (MultiLang.filename lang)) LANGUAGES
    | Raise e => exists msg, e = OSError msg
    | Block => True
    end.
Proof.
  intros l out H. unfold MultiLang.main in H. apply traces_bind in H.
  destruct H as [(a & l1 & l2 & H1 & H & ->) | [(e & H1 & ->) | (H1 & ->)]];
    apply multilang_cleanup_workspace_traces in H1;
    destruct H1 as (Hw1 & Hb1 & c1 & E1); try discriminate.
  clear E1. step_call H as x. destruct x as [msg |]; simpl in H.
  { step_traces H. eauto. }
  step_head H. step_head H.
  assert (Htf : forall lt ot,
             traces
               (try_finally
                  (MultiLang.for_each LANGUAGES
                     (fun lang => MultiLang.process_language lang workspace))
                  (t <- time_time ;;
                   emit (MultiLang.PrintTotal (t - x0)%N) ;;;
                   cleaned <- MultiLang.cleanup_workspace workspace false ;;
                   emit (MultiLang.PrintCleanup workspace cleaned))) lt ot ->
             match ot with
             | Ret _ =>
                 banners (ui_events lt) = map MultiLang.name LANGUAGES
                 /\ map fst (written lt)
                    = map (fun lang => path_join workspace (MultiLang.filename lang))
                          LANGUAGES
             | Raise e => exists msg, e = OSError msg
             | Block => True
             end).
  { intros lt ot Ht. apply traces_try_finally in Ht.
    destruct Ht as [(_ & ->) | (rb & lb & rf & lf & Hb & Hrb & Hf & -> & ->)];
      [exact I |].
    apply multilang_for_each_spec in Hb.
    step_call Hf as t. step_head Hf. apply traces_bind in Hf.
    destruct Hf as [(c & l3 & l4 & H3 & H4 & ->) | [(e & H3 & ->) | (H3 & ->)]];
      apply multilang_cleanup_workspace_traces in H3;
      destruct H3 as (Hw3 & Hb3 & c3 & E3); try discriminate.
    repeat step_traces H4.
    destruct rb as [u | e | ]; [| exact Hb | contradiction].
    destruct Hb as [Hb Hw].
    rewrite ui_events_app, banners_app, written_app, map_app, Hb, Hw.
    simpl. rewrite ui_events_app, banners_app, written_app, Hb3, Hw3.
    simpl. now rewrite !app_nil_r. }
  apply traces_bind in H.
  destruct H as [(u & l3 & l4 & H3 & H4 & ->) | [(e & H3 & ->) | (H3 & ->)]];
    [| apply Htf in H3; exact H3 | exact I].
  apply Htf in H3. destruct H3 as [Hb Hw]. destruct H4 as [-> ->].
  split; [reflexivity |].
  rewrite app_nil_r, ui_events_app, banners_app, written_app, map_app, Hb1, Hw1.
  simpl. auto.
Qed.

End ConsoleMain.

(** X9.  In the console variant a language that fails does not stop the
    others: whenever [main] returns, it returns 0 and the pipeline of every
    language of the table was started, in the order of the table: one banner
    and one write of the source file, to the path [workspace / filename],
    for each. *)
Theorem console_main_processes_every_language :
  forall (os : OS) (workspace : path) (LANGUAGES : list MultiLang.Language)
         (w w' : world os) (rc : Z) l,
    run (MultiLang.main workspace LANGUAGES) w = (Ret rc, w', l) ->
    rc = 0%Z
    /\ banners (ui_events l) = map MultiLang.name LANGUAGES
    /\ map fst (written l)
       = map (fun lang => path_join workspace (MultiLang.filename lang)) LANGUAGES.
Proof.
  intros os workspace LANGUAGES w w' rc l E.
  apply run_traces in E. apply multilang_main_traces in E. exact E.
Qed.

(** The table of the script on a machine whose compiler is not installed:
    the C language fails, and the banners of all the languages are printed. *)
Lemma console_main_witness :
  exists w' l,
    @run machine_os _ _ (MultiLang.main example_workspace MultiLang.LANGUAGES)
      machine_gcc_missing = (Ret 0%Z, w', l)
    /\ stage_failed l = true
    /\ banners (ui_events l) = map MultiLang.name MultiLang.LANGUAGES
    /\ map fst (written l)
       = map (fun lang => path_join example_workspace (MultiLang.filename lang))
             MultiLang.LANGUAGES.
Proof.
  assert (E : exists w' l,
             @run machine_os _ _ (MultiLang.main example_workspace MultiLang.LANGUAGES)
               machine_gcc_missing = (Ret 0%Z, w', l)
             /\ stage_failed l = true).
  { do 2 eexists. vm_compute. split; reflexivity. }
  destruct E as (w' & l & E & Hs). exists w', l.
  split; [exact E |]. split; [exact Hs |].
  exact (proj2 (@console_main_processes_every_language machine_os example_workspace
                  MultiLang.LANGUAGES machine_gcc_missing w' 0%Z l E)).
Defined.

(* ================================================================== *)
(** * The result of the web variant                                    *)
(* ================================================================== *)

Lemma web_no_output_text_not_empty : utf8 "(출력 없음)" <> [].
Proof. vm_compute. discriminate. Qed.

Section WebResult.
Variable str_exc : cmd -> Z -> text.
Variable WORKSPACE : path.
Variable LANGUAGES : list Web.LanguageSpec.

Local Abbreviation compile_loop := (Web.compile_loop str_exc WORKSPACE).
Local Abbreviation run_stage := (Web.run_stage str_exc WORKSPACE).
Local Abbreviation stages := (Web.stages str_exc WORKSPACE).
Local Abbreviation execute_language := (Web.execute_language str_exc WORKSPACE LANGUAGES).

Lemma web_compile_loop_result (cmds : list cmd) :
  forall result total l r,
    traces (compile_loop result total cmds) l (Ret (inl r)) ->
    Web.status r = utf8 "컴파일 실패" /\ Web.failed r = true
    /\ Web.output r = Web.output result
    /\ Web.write_time r = Web.write_time result
    /\ Web.run_time r = Web.run_time result
    /\ Web.total_time r = (Web.write_time r + Web.compile_time r)%N
    /\ exists k, k < List.length cmds /\ launched l = firstn (S k) cmds.
Proof.
  induction cmds as [| c rest IH]; intros result total l r H.
  - simpl in H. destruct H as [_ E]. discriminate.
  - assert (Hhere : forall b,
              Web.status r = utf8 "컴파일 실패" /\ Web.failed r = true
              /\ Web.output r = Web.output result
              /\ Web.write_time r = Web.write_time result
              /\ Web.run_time r = Web.run_time result
              /\ Web.total_time r = (Web.write_time r + Web.compile_time r)%N ->
              Web.status r = utf8 "컴파일 실패" /\ Web.failed r = true
              /\ Web.output r = Web.output result
              /\ Web.write_time r = Web.write_time result
              /\ Web.run_time r = Web.run_time result
              /\ Web.total_time r = (Web.write_time r + Web.compile_time r)%N
              /\ exists k, k < List.length (c :: rest)
                   /\ launched [@Os Web.note (Spawn c WORKSPACE limit_30s b);
                                Ui (Web.SetProgress 100)]
                      = firstn (S k) (c :: rest)).
    { intros b Hr. repeat (split; [apply Hr |]). exists 0. simpl. split; [lia | reflexivity]. }
    simpl in H. step_call H as x.
    destruct x as [rc o e d | msg d | msg | ]; simpl in H.
    + destruct (expired limit_30s d) eqn:Ex; simpl in H.
      * step_traces H. destruct H as [-> E]. inversion E; subst r. clear E.
        apply Hhere. simpl. repeat split; reflexivity.
      * destruct (rc =? 0)%Z eqn:Erc; simpl in H.
        -- apply IH in H. destruct H as (H1 & H2 & H3 & H4 & H5 & H6 & k & Hk & Hl).
           repeat (split; [assumption |]). exists (S k). split; [simpl; lia |].
           change (launched (Os (Spawn c WORKSPACE limit_30s (Exits rc o e d)) :: l0))
             with (c :: launched l0).
           rewrite Hl. reflexivity.
        -- step_traces H. destruct H as [-> E]. inversion E; subst r. clear E.
           apply Hhere. simpl. repeat split; reflexivity.
    + step_traces H. destruct H as [-> E]. inversion E; subst r. clear E.
      apply Hhere. simpl. repeat split; reflexivity.
    + destruct H as [_ E]. discriminate.
    + step_traces H. destruct H as [-> E]. inversion E; subst r. clear E.
      apply Hhere. simpl. repeat split; reflexivity.
Qed.

Lemma web_run_stage_result (spec : Web.LanguageSpec) (result : Web.Result) :
  forall l r,
    traces (run_stage spec result) l (Ret r) ->
    Web.write_time r = Web.write_time result
    /\ Web.compile_time r = Web.compile_time result
    /\ Web.total_time r = (Web.write_time r + Web.compile_time r + Web.run_time r)%N
    /\ ((Web.status r = utf8 "실행 완료" /\ Web.failed r = Web.failed result
         /\ Web.output r <> [] /\ Web.error r = Web.error result
         /\ stage_failed l = false)
        \/ (Web.status r = utf8 "실행 실패" /\ Web.failed r = true
            /\ Web.output r = Web.output result)).
Proof.
  intros l r H. unfold Web.run_stage in H. step_call H as x.
  destruct x as [rc o e d | msg d | msg | ]; simpl in H.
  - destruct (expired limit_30s d) eqn:Ex; simpl in H.
    + step_traces H. destruct H as [-> E]. inversion E; subst r. clear E.
      simpl. repeat split; auto.
    + destruct (rc =? 0)%Z eqn:Erc; simpl in H.
      * step_traces H. destruct H as [-> E]. inversion E; subst r. clear E.
        simpl. rewrite Ex, Erc. repeat split; auto. left. repeat split; auto.
        apply por_not_empty_r, web_no_output_text_not_empty.
      * step_traces H. destruct H as [-> E]. inversion E; subst r. clear E.
        simpl. repeat split; auto.
  - step_traces H. destruct H as [-> E]. inversion E; subst r. clear E.
    simpl. repeat split; auto.
  - destruct H as [_ E]. discriminate.
  - step_traces H. destruct H as [-> E]. inversion E; subst r. clear E.
    simpl. repeat split; auto.
Qed.

(** The four ways in which the three steps end. *)
Lemma web_stages_result (spec : Web.LanguageSpec) :
  forall l r,
    traces (stages spec) l (Ret r) ->
    Web.total_time r = (Web.write_time r + Web.compile_time r + Web.run_time r)%N
    /\ ((Web.status r = utf8 "파일 작성 실패" /\ Web.failed r = true
         /\ Web.output r = [] /\ launched l = [] /\ Web.total_time r = 0%N)
        \/ (Web.status r = utf8 "컴파일 실패" /\ Web.failed r = true
            /\ Web.output r = [] /\ Web.run_time r = 0%N
            /\ exists k, k < List.length (Web.compile_cmds spec)
                         /\ launched l = firstn (S k) (Web.compile_cmds spec))
        \/ (Web.status r = utf8 "실행 실패" /\ Web.failed r = true
            /\ Web.output r = []
            /\ launched l = Web.compile_cmds spec ++ [Web.run_cmd spec])
        \/ (Web.status r = utf8 "실행 완료" /\ Web.failed r = false
            /\ Web.output r <> [] /\ Web.error r = []
            /\ launched l = Web.compile_cmds spec ++ [Web.run_cmd spec]
            /\ stage_failed l = false)).
Proof.
  intros l r H. unfold Web.stages in H.
  step_call H as x. destruct x as [[msg |] elapsed]; simpl in H.
  - step_traces H. destruct H as [-> E]. inversion E; subst r. clear E.
    simpl. split; [reflexivity |]. left. repeat split; reflexivity.
  - step_traces H. destruct (Web.compile_cmds spec) as [| c rest] eqn:Ecmds.
    + assert (Hs := H). apply web_run_stage_spec in Hs. destruct Hs as (_ & Hl & _).
      apply web_run_stage_result in H.
      destruct H as (Hw & Hc & Ht & [(Hst & Hf & Ho & He & Hsf) | (Hst & Hf & Ho)]).
      * split; [exact Ht |]. right; right; right. simpl in *.
        unfold launched in *. simpl. rewrite Hl, Hsf. repeat split; auto.
      * split; [exact Ht |]. right; right; left. simpl in *.
        unfold launched in *. simpl. rewrite Hl. repeat split; auto.
    + apply traces_bind_ret in H. destruct H as (a & l1 & l2 & H1 & H2 & ->).
      destruct a as [r1 | t].
      * destruct H2 as [-> E]. inversion E; subst r1. clear E.
        apply web_compile_loop_result in H1.
        destruct H1 as (Hst & Hf & Ho & Hw & Hr & Ht & k & Hk & Hl).
        simpl in Ho, Hw, Hr. split; [rewrite Ht, Hr; lia |].
        right; left. rewrite app_nil_r.
        change (launched (Os (WriteText (path_join WORKSPACE (Web.filename spec))
                            (Web.code spec) None) :: Ui (Web.SetProgress 25) :: l1))
          with (launched l1).
        repeat split; auto. exists k. auto.
      * apply web_compile_loop_spec in H1. destruct H1 as (_ & Hsf1 & _ & Hl1).
        hnf in H2. destruct H2 as (l3 & -> & H2).
        assert (Hs := H2). apply web_run_stage_spec in Hs. destruct Hs as (_ & Hl & _).
        apply web_run_stage_result in H2.
        assert (Hall : launched (Os (WriteText (path_join WORKSPACE (Web.filename spec))
                                       (Web.code spec) None)
                                 :: Ui (Web.SetProgress 25)
                                 :: l1 ++ Ui (Web.SetProgress 70) :: l3)
                       = (c :: rest) ++ [Web.run_cmd spec]).
        { change (launched (Os (WriteText (path_join WORKSPACE (Web.filename spec))
                                  (Web.code spec) None)
                            :: Ui (Web.SetProgress 25)
                            :: l1 ++ Ui (Web.SetProgress 70) :: l3))
            with (launched (l1 ++ Ui (Web.SetProgress 70) :: l3)).
          rewrite launched_app. change (launched (Ui (Web.SetProgress 70) :: l3))
            with (launched l3). now rewrite Hl1, Hl. }
        destruct H2 as (Hw & Hc & Ht & [(Hst & Hf & Ho & He & Hsf) | (Hst & Hf & Ho)]).
        -- split; [exact Ht |]. right; right; right. cbn [fst]. rewrite Hall.
           simpl in Hf, He.
           repeat split; auto. simpl. rewrite stage_failed_app, Hsf1. exact Hsf.
        -- split; [exact Ht |]. right; right; left. cbn [fst]. rewrite Hall.
           simpl in Ho. repeat split; auto.
Qed.

End WebResult.

Lemma launched_after_mkdir {U} (l0 l1 : list (event U)) (p : path) :
  l0 = [] \/ (exists r, l0 = [Os (Mkdir p r)]) ->
  launched (l0 ++ l1) = launched l1 /\ stage_failed (l0 ++ l1) = stage_failed l1.
Proof. intros [-> | (r & ->)]; split; reflexivity. Qed.

(** X10.  The result that [execute_language] of the web variant returns
    always has [total_time = write_time + compile_time + run_time]: on the
    path where the write fails all four are 0, on the path where a compile
    command fails the run time is 0, and after the run command the three
    times are added. *)
Theorem web_total_time_is_the_sum_of_the_stages :
  forall (os : OS) (str_exc : cmd -> Z -> text) (WORKSPACE : path)
         (LANGUAGES : list Web.LanguageSpec) (idx : Z) (w : world os),
    match run (Web.execute_language str_exc WORKSPACE LANGUAGES idx) w with
    | (Ret r, _, _) =>
        Web.total_time r = (Web.write_time r + Web.compile_time r + Web.run_time r)%N
    | _ => True
    end.
Proof.
  intros os str_exc WORKSPACE LANGUAGES idx w.
  destruct (run _ w) as [[out w'] l] eqn:E.
  destruct out as [r | e | ]; [| exact I | exact I].
  apply run_traces in E. apply web_execute_language_traces in E.
  destruct E as [(_ & _ & E) | (spec & l0 & l1 & _ & -> & _ & H1)]; [discriminate |].
  destruct H1 as [(_ & msg & E) | H1]; [discriminate |].
  apply web_stages_result in H1. apply H1.
Qed.

(** X11.  The result of [execute_language] of the web variant tells how the
    pipeline ended, in one of four ways.  Status "파일 작성 실패": the write
    failed and nothing was launched.  Status "컴파일 실패": a compile command
    failed, the commands launched are the compile commands up to that one,
    and the run time is 0.  Status "실행 실패": all the compile commands and
    then the run command were launched, and the run command failed.  In
    these three cases [failed] is set and [output] is empty.  Status
    "실행 완료": all the commands were launched and none failed, [failed]
    is not set, [error] is empty and [output] is never empty. *)
Theorem web_result_tells_how_the_pipeline_ended :
  forall (os : OS) (str_exc : cmd -> Z -> text) (WORKSPACE : path)
         (LANGUAGES : list Web.LanguageSpec) (idx : Z) (spec : Web.LanguageSpec)
         (w w' : world os) (r : Web.Result) (l : list (event Web.note)),
    py_index LANGUAGES idx = Some spec ->
    run (Web.execute_language str_exc WORKSPACE LANGUAGES idx) w = (Ret r, w', l) ->
    (Web.status r = utf8 "파일 작성 실패" /\ Web.failed r = true
     /\ Web.output r = [] /\ launched l = [] /\ Web.total_time r = 0%N)
    \/ (Web.status r = utf8 "컴파일 실패" /\ Web.failed r = true
        /\ Web.output r = [] /\ Web.run_time r = 0%N
        /\ exists k, k < List.length (Web.compile_cmds spec)
                     /\ launched l = firstn (S k) (Web.compile_cmds spec))
    \/ (Web.status r = utf8 "실행 실패" /\ Web.failed r = true
        /\ Web.output r = []
        /\ launched l = Web.compile_cmds spec ++ [Web.run_cmd spec])
    \/ (Web.status r = utf8 "실행 완료" /\ Web.failed r = false
        /\ Web.output r <> [] /\ Web.error r = []
        /\ launched l = Web.compile_cmds spec ++ [Web.run_cmd spec]
        /\ stage_failed l = false).
Proof.
  intros os str_exc WORKSPACE LANGUAGES idx spec w w' r l Hidx E.
  apply run_traces in E. apply web_execute_language_traces in E.
  destruct E as [(_ & _ & E) | (spec' & l0 & l1 & Hidx' & -> & H0 & H1)];
    [discriminate |].
  assert (spec' = spec) by congruence. subst spec'.
  destruct H1 as [(_ & msg & E) | H1]; [discriminate |].
  destruct (launched_after_mkdir l1 H0) as [-> ->].
  apply web_stages_result in H1. apply H1.
Qed.

(** The C entry of the table on a machine whose compiler is not installed:
    the second of the four ways. *)
Lemma web_result_witness :
  exists spec r w' l,
    py_index Web.LANGUAGES 0 = Some spec
    /\ @run machine_os _ _
         (Web.execute_language str_called_process_error example_workspace
            Web.LANGUAGES 0) machine_gcc_missing = (Ret r, w', l)
    /\ Web.status r = utf8 "컴파일 실패"
    /\ ((Web.status r = utf8 "파일 작성 실패" /\ Web.failed r = true
         /\ Web.output r = [] /\ launched l = [] /\ Web.total_time r = 0%N)
        \/ (Web.status r = utf8 "컴파일 실패" /\ Web.failed r = true
            /\ Web.output r = [] /\ Web.run_time r = 0%N
            /\ exists k, k < List.length (Web.compile_cmds spec)
                         /\ launched l = firstn (S k) (Web.compile_cmds spec))
        \/ (Web.status r = utf8 "실행 실패" /\ Web.failed r = true
            /\ Web.output r = []
            /\ launched l = Web.compile_cmds spec ++ [Web.run_cmd spec])
        \/ (Web.status r = utf8 "실행 완료" /\ Web.failed r = false
            /\ Web.output r <> [] /\ Web.error r = []
            /\ launched l = Web.compile_cmds spec ++ [Web.run_cmd spec]
            /\ stage_failed l = false)).
Proof.
  assert (E : exists spec r w' l,
             py_index Web.LANGUAGES 0 = Some spec
             /\ @run machine_os _ _
                  (Web.execute_language str_called_process_error example_workspace
                     Web.LANGUAGES 0) machine_gcc_missing = (Ret r, w', l)
             /\ Web.status r = utf8 "컴파일 실패").
  { do 4 eexists. split; [reflexivity |]. split; vm_compute; reflexivity. }
  destruct E as (spec & r & w' & l & Hidx & Hrun & Hst).
  exists spec, r, w', l. split; [exact Hidx |]. split; [exact Hrun |].
  split; [exact Hst |].
  exact (@web_result_tells_how_the_pipeline_ended machine_os str_called_process_error
           example_workspace Web.LANGUAGES 0 spec machine_gcc_missing w' r l Hidx Hrun).
Defined.

Lemma py_index_outside {A} (l : list A) (i : Z) :
  (i < - Z.of_nat (List.length l) \/ Z.of_nat (List.length l) <= i)%Z ->
  py_index l i = None.
Proof.
  intros H. unfold py_index.
  destruct (0 <=? i)%Z eqn:E0.
  - apply Z.leb_le in E0. apply nth_error_None. lia.
  - apply Z.leb_gt in E0.
    destruct (- Z.of_nat (List.length l) <=? i)%Z eqn:E1; [| reflexivity].
    apply Z.leb_le in E1. lia.
Qed.

Lemma py_index_inside {A} (l : list A) (i : Z) :
  (- Z.of_nat (List.length l) <= i < Z.of_nat (List.length l))%Z ->
  exists x, py_index l i = Some x.
Proof.
  intros H. unfold py_index.
  assert (Hn : forall k, k < List.length l -> exists x, nth_error l k = Some x).
  { intros k Hk. destruct (nth_error l k) eqn:E; [eauto |].
    apply nth_error_None in E. lia. }
  destruct (0 <=? i)%Z eqn:E0.
  - apply Z.leb_le in E0. apply Hn. lia.
  - apply Z.leb_gt in E0.
    destruct (- Z.of_nat (List.length l) <=? i)%Z eqn:E1.
    + apply Hn. lia.
    + apply Z.leb_gt in E1. lia.
Qed.

Lemma py_index_negative {A} (l : list A) (i : Z) :
  (- Z.of_nat (List.length l) <= i < 0)%Z ->
  py_index l i = py_index l (i + Z.of_nat (List.length l)).
Proof.
  intros H. unfold py_index.
  destruct (0 <=? i)%Z eqn:E0; [apply Z.leb_le in E0; lia |].
  destruct (- Z.of_nat (List.length l) <=? i)%Z eqn:E1;
    [| apply Z.leb_gt in E1; lia].
  destruct (0 <=? i + Z.of_nat (List.length l))%Z eqn:E2;
    [| apply Z.leb_gt in E2; lia].
  now rewrite Z.add_comm.
Qed.

(** X12.  The index given to [execute_language] of the web variant is used
    as Python uses it.  With [n] languages in the table, an index below
    [-n] or from [n] on raises [IndexError] before anything is done: no
    directory is made, no file written, no command launched.  An index from
    [-n] to [-1] counts from the end of the table: the call does what the
    call with [idx + n] does.  An index from [-n] to [n - 1] never raises
    [IndexError]. *)
Theorem web_index_outside_the_table :
  forall (os : OS) (str_exc : cmd -> Z -> text) (WORKSPACE : path)
         (LANGUAGES : list Web.LanguageSpec) (idx : Z) (w : world os),
    let n := Z.of_nat (List.length LANGUAGES) in
    ((idx < - n \/ n <= idx)%Z ->
     run (Web.execute_language str_exc WORKSPACE LANGUAGES idx) w
     = (Raise IndexError, w, []))
    /\ ((- n <= idx < 0)%Z ->
        Web.execute_language str_exc WORKSPACE LANGUAGES idx
        = Web.execute_language str_exc WORKSPACE LANGUAGES (idx + n))
    /\ ((- n <= idx < n)%Z ->
        outcome (run (Web.execute_language str_exc WORKSPACE LANGUAGES idx) w)
        <> Raise IndexError).
Proof.
  intros os str_exc WORKSPACE LANGUAGES idx w n. split; [| split].
  - intros H. unfold Web.execute_language. now rewrite py_index_outside.
  - intros H. unfold Web.execute_language. now rewrite py_index_negative.
  - intros H.
    destruct (run (Web.execute_language str_exc WORKSPACE LANGUAGES idx) w)
      as [[out w'] l] eqn:E.
    unfold outcome. simpl. apply run_traces in E.
    apply web_execute_language_traces in E.
    destruct E as [(Hnone & _) | (spec & l0 & l1 & _ & _ & _ & H1)].
    + destruct (@py_index_inside _ LANGUAGES idx H) as [x Hx]. congruence.
    + destruct H1 as [(_ & msg & ->) | H1]; [discriminate |].
      apply web_stages_spec in H1. destruct out as [r | e | ]; try discriminate.
      destruct H1 as [msg ->]. discriminate.
Qed.

(* ================================================================== *)
(** * The progress bars of the graphical variant                       *)
(* ================================================================== *)

Lemma band_ge_40 (n i : nat) : (40 <= band n i)%Q.
Proof.
  unfold band. rewrite <- (Qplus_0_r 40) at 1. apply Qplus_le_r.
  apply Qmult_le_0_compat.
  - change 0%Q with (inject_Z 0). rewrite <- Zle_Qle. lia.
  - apply Qinv_le_0_compat. change 0%Q with (inject_Z 0). rewrite <- Zle_Qle. lia.
Qed.

Lemma band_mono (n i : nat) : (band n i <= band n (S i))%Q.
Proof.
  unfold band. apply Qplus_le_r. apply Qmult_le_compat_r.
  - rewrite <- Zle_Qle. lia.
  - apply Qinv_le_0_compat. change 0%Q with (inject_Z 0). rewrite <- Zle_Qle. lia.
Qed.

Lemma band_le_70 (n i : nat) : i < n -> (band n i <= 70)%Q.
Proof.
  intros H. unfold band. setoid_replace 70%Q with (40 + 30)%Q by reflexivity.
  apply Qplus_le_r. apply Qle_shift_div_r.
  - change 0%Q with (inject_Z 0). rewrite <- Zlt_Qlt. lia.
  - change 30%Q with (inject_Z 30). rewrite <- inject_Z_mult, <- Zle_Qle. lia.
Qed.

Lemma nondecreasingQ_cons (x : Q) (l : list Q) :
  nondecreasingQ l = true ->
  (forall y, hd_error l = Some y -> (x <= y)%Q) ->
  nondecreasingQ (x :: l) = true.
Proof.
  intros Hl Hx. destruct l as [| y l]; [reflexivity |].
  change (Qle_bool x y && nondecreasingQ (y :: l) = true).
  rewrite Hl, andb_true_r. apply Qle_bool_iff. now apply Hx.
Qed.

Lemma nondecreasingQ_bands (n j i : nat) (rest : list Q) :
  nondecreasingQ rest = true ->
  (forall y, hd_error rest = Some y -> j = 0 \/ (band n (i + j - 1) <= y)%Q) ->
  nondecreasingQ (map (band n) (seq i j) ++ rest) = true.
Proof.
  intros Hrest Hlast. revert i Hlast.
  induction j as [| j IH]; intros i Hlast; [exact Hrest |].
  cbn [seq map app]. apply nondecreasingQ_cons.
  - apply IH. intros y Hy. destruct (Hlast y Hy) as [E | H]; [discriminate |].
    destruct j; [left; reflexivity | right].
    replace (S i + S j - 1) with (i + S (S j) - 1) by lia. exact H.
  - intros y Hy. destruct j as [| j].
    + simpl in Hy. destruct (Hlast y Hy) as [E | H]; [discriminate |].
      replace (i + 1 - 1) with i in H by lia. exact H.
    + simpl in Hy. inversion Hy; subst. apply band_mono.
Qed.

Lemma nondecreasingQ_from_40 (n j : nat) (rest : list Q) :
  nondecreasingQ rest = true ->
  (forall y, hd_error rest = Some y ->
     (40 <= y)%Q /\ (j = 0 \/ (band n (j - 1) <= y)%Q)) ->
  nondecreasingQ ([10; 25; 40]%Q ++ map (band n) (seq 0 j) ++ rest) = true.
Proof.
  intros Hrest Hhd. cbn [app].
  apply nondecreasingQ_cons; [| intros y E; inversion E; subst; discriminate].
  apply nondecreasingQ_cons; [| intros y E; inversion E; subst; discriminate].
  apply nondecreasingQ_cons.
  - apply nondecreasingQ_bands; [exact Hrest |].
    intros y Hy. destruct (Hhd y Hy) as [_ [E | H]]; [left; exact E | right; exact H].
  - intros y Hy. destruct j as [| j].
    + simpl in Hy. apply (Hhd y Hy).
    + simpl in Hy. inversion Hy; subst. apply band_ge_40.
Qed.

(** The percentages of a pipeline of the graphical variant never go back. *)
Lemma graphical_shape_nondecreasing (n : nat) (ps : list Q) :
  graphical_shape n ps -> nondecreasingQ ps = true.
Proof.
  intros [-> | [(_ & ->) | [(j & Hj & ->) | (Hn & ->)]]]; try reflexivity.
  - apply nondecreasingQ_from_40; [reflexivity |].
    intros y Hy. simpl in Hy. inversion Hy; subst. clear Hy.
    destruct j as [| j].
    + simpl. split; [apply Qle_refl | left; reflexivity].
    + rewrite last_map_band. split; [apply band_ge_40 |]. right.
      replace (S j - 1) with j by lia. apply Qle_refl.
  - apply nondecreasingQ_from_40; [reflexivity |].
    intros y Hy. simpl in Hy. inversion Hy; subst. clear Hy.
    split; [discriminate |]. right. apply band_le_70. lia.
Qed.

(** X13.  In the graphical variant the threads of the languages run side by
    side, and still the progress bar of each panel never goes back: whatever
    the order in which the threads take their steps, and unless a launch
    raised an error the threads do not catch, the percentages shown for a
    language start at 10, never decrease, and end at 100 when the language
    is not marked as failed. *)
Theorem graphical_progress_never_goes_back :
  forall (os : OS) (str_exc : cmd -> Z -> text) (workspace : path)
         (LANGUAGES : list Graphical.LanguageSpec) (sched : list nat)
         (w w' : world os) (out : res unit) (l : list (event Graphical.ui)) (i : nat),
    Graphical.run_threads str_exc workspace LANGUAGES sched w = (out, w', l) ->
    existsb launch_raised l = false ->
    i < List.length LANGUAGES ->
    let ps := map Graphical.progress (Graphical.updates_of i l) in
    nondecreasingQ ps = true
    /\ hd_error ps = Some 10%Q
    /\ (Graphical.failed (Graphical.state_after l i) = false ->
        Graphical.progress (Graphical.state_after l i) = 100%Q).
Proof.
  intros os str_exc workspace LANGUAGES sched w w' out l i Hrun Hno Hi ps.
  apply run_threads_spec in Hrun. destruct Hrun as (_ & _ & Hth).
  destruct (Hth i Hi) as (li & outi & Ht & Hin & Hu).
  destruct (nth_error LANGUAGES i) as [spec |] eqn:Espec.
  2:{ apply nth_error_None in Espec. lia. }
  eapply graphical_thread_spec in Ht; [| exact Espec].
  destruct Ht as (_ & Ht). unfold ps, Graphical.state_after. rewrite Hu.
  destruct outi as [u | e | ].
  - cbv zeta in Ht. destruct Ht as (_ & _ & H100 & Hshape).
    split; [eapply graphical_shape_nondecreasing; exact Hshape |].
    split; [| exact H100].
    destruct Hshape as [-> | [(_ & ->) | [(j & Hj & ->) | (Hn & ->)]]]; reflexivity.
  - destruct Ht as (msg & _ & Hx). apply (existsb_incl _ Hin) in Hx. congruence.
  - contradiction.
Qed.

(** The table of the script on a machine whose tools work, the four threads
    taking their first steps in turn. *)
Lemma graphical_progress_witness :
  exists out w' l,
    @Graphical.run_threads str_called_process_error example_workspace
      Graphical.LANGUAGES machine_os [0; 1; 2; 3; 3; 2; 1; 0; 0; 1; 0; 2; 2; 2]
      machine_working = (out, w', l)
    /\ existsb launch_raised l = false
    /\ nondecreasingQ (map Graphical.progress (Graphical.updates_of 0 l)) = true
    /\ hd_error (map Graphical.progress (Graphical.updates_of 0 l)) = Some 10%Q
    /\ (Graphical.failed (Graphical.state_after l 0) = false ->
        Graphical.progress (Graphical.state_after l 0) = 100%Q).
Proof.
  assert (E : exists out w' l,
             @Graphical.run_threads str_called_process_error example_workspace
               Graphical.LANGUAGES machine_os [0; 1; 2; 3; 3; 2; 1; 0; 0; 1; 0; 2; 2; 2]
               machine_working = (out, w', l)
             /\ existsb launch_raised l = false).
  { do 3 eexists. split; vm_compute; reflexivity. }
  destruct E as (out & w' & l & Hrun & Hno).
  exists out, w', l. split; [exact Hrun |]. split; [exact Hno |].
  apply (@graphical_progress_never_goes_back machine_os str_called_process_error
           example_workspace Graphical.LANGUAGES
           [0; 1; 2; 3; 3; 2; 1; 0; 0; 1; 0; 2; 2; 2] machine_working w' out l 0
           Hrun Hno).
  vm_compute. lia.
Defined.

(* ================================================================== *)
(** * animated_hello.py: the typing animation                          *)
(* ================================================================== *)

Lemma split_aux_not_nil (cur s : text) : Animated.split_aux cur s <> [].
Proof.
  revert cur. induction s as [| c r IH]; intros cur; simpl; [discriminate |].
  destruct (c =? 10)%N; [discriminate | apply IH].
Qed.

Lemma join_split_aux (cur s : text) :
  join newline (Animated.split_aux cur s) = rev cur ++ s.
Proof.
  revert cur. induction s as [| c r IH]; intros cur.
  - simpl. now rewrite app_nil_r.
  - cbn [Animated.split_aux]. destruct (c =? 10)%N eqn:Ec.
    + apply N.eqb_eq in Ec. subst c.
      pose proof (split_aux_not_nil [] r) as Hne. specialize (IH []).
      destruct (Animated.split_aux [] r) as [| p ps]; [contradiction |].
      change (join newline (rev cur :: p :: ps))
        with (rev cur ++ newline ++ join newline (p :: ps)).
      rewrite IH. reflexivity.
    + rewrite IH. simpl. now rewrite <- app_assoc.
Qed.

(** Splitting a text at its newlines and joining the lines again gives the
    text back. *)
Lemma join_split_newline (s : text) : join newline (Animated.split_newline s) = s.
Proof. unfold Animated.split_newline. now rewrite join_split_aux. Qed.

Section AnimatedLoops.
Variable X : Type.
Variable f : Animated.ui -> list X.

Lemma anim_for_enumerate_emits {A} (body : nat -> A -> prog Animated.ui unit)
    (g : nat -> A -> list X) :
  (forall i x l out,
      traces (body i x) l out -> out = Ret tt /\ flat_map f (ui_events l) = g i x) ->
  forall xs k l out,
    traces (Animated.for_enumerate k xs body) l out ->
    out = Ret tt
    /\ flat_map f (ui_events l)
       = flat_map (fun p => g (fst p) (snd p)) (combine (seq k (List.length xs)) xs).
Proof.
  intros Hbody. induction xs as [| x rest IH]; intros k l out H.
  - simpl in H. destruct H as [-> ->]. auto.
  - cbn [Animated.for_enumerate] in H. apply traces_bind in H.
    destruct H as [(a & l1 & l2 & H1 & H2 & ->) | [(e & H1 & ->) | (H1 & ->)]];
      apply Hbody in H1; destruct H1 as [E1 Hf1]; try discriminate.
    apply IH in H2. destruct H2 as [-> Hf2]. split; [reflexivity |].
    rewrite ui_events_app, flat_map_app, Hf1, Hf2. reflexivity.
Qed.

Lemma anim_for_each_emits {A} (body : A -> prog Animated.ui unit) (g : A -> list X) :
  (forall x l out,
      traces (body x) l out -> out = Ret tt /\ flat_map f (ui_events l) = g x) ->
  forall xs l out,
    traces (Animated.for_each xs body) l out ->
    out = Ret tt /\ flat_map f (ui_events l) = flat_map g xs.
Proof.
  intros Hbody. induction xs as [| x rest IH]; intros l out H.
  - simpl in H. destruct H as [-> ->]. auto.
  - cbn [Animated.for_each] in H. apply traces_bind in H.
    destruct H as [(a & l1 & l2 & H1 & H2 & ->) | [(e & H1 & ->) | (H1 & ->)]];
      apply Hbody in H1; destruct H1 as [E1 Hf1]; try discriminate.
    apply IH in H2. destruct H2 as [-> Hf2]. split; [reflexivity |].
    rewrite ui_events_app, flat_map_app, Hf1, Hf2. reflexivity.
Qed.

Lemma flat_map_enumerate_select {A} (h : A -> list X) (idx : nat) (xs : list A) :
  forall k,
    flat_map (fun p => if Nat.eqb (fst p) idx then h (snd p) else [])
             (combine (seq k (List.length xs)) xs)
    = if k <=? idx
      then match nth_error xs (idx - k) with Some x => h x | None => [] end
      else [].
Proof.
  induction xs as [| x rest IH]; intros k.
  - simpl. destruct (k <=? idx); [| reflexivity]. now destruct (idx - k).
  - cbn [List.length seq combine flat_map fst snd]. rewrite IH.
    destruct (Nat.eqb k idx) eqn:E.
    + apply Nat.eqb_eq in E. subst k.
      replace (S idx <=? idx) with false by (symmetry; apply Nat.leb_gt; lia).
      rewrite Nat.leb_refl, Nat.sub_diag, app_nil_r. reflexivity.
    + apply Nat.eqb_neq in E. destruct (k <=? idx) eqn:E1.
      * apply Nat.leb_le in E1.
        replace (S k <=? idx) with true by (symmetry; apply Nat.leb_le; lia).
        replace (idx - k) with (S (idx - S k)) by lia. reflexivity.
      * apply Nat.leb_gt in E1.
        replace (S k <=? idx) with false by (symmetry; apply Nat.leb_gt; lia).
        reflexivity.
Qed.

Lemma flat_map_nil {A} (xs : list A) : flat_map (fun _ => @nil X) xs = [].
Proof. induction xs; simpl; auto. Qed.

End AnimatedLoops.

Lemma flat_map_nth_error_seq {A} (l : list A) (m : nat) :
  flat_map (fun k => match nth_error l k with Some x => [x] | None => [] end) (seq 0 m)
  = firstn m l.
Proof.
  induction m as [| m IH]; [reflexivity |].
  rewrite seq_S, flat_map_app, IH, firstn_S_nth_error. simpl.
  now rewrite app_nil_r.
Qed.

Lemma traces_emit_bind {U B} (u : U) (k : unit -> prog U B) l out :
  traces (bind (emit u) k) l out -> exists l', l = Ui u :: l' /\ traces (k tt) l' out.
Proof. intros H. exact H. Qed.

(** Step 1 of the animated variant sends the lines of the code of every
    language, in order. *)
Lemma anim_step1_spec (LANGUAGES : list Animated.Language) (idx : nat)
    (lang : Animated.Language) :
  nth_error LANGUAGES idx = Some lang ->
  forall l out,
    traces (Animated.step1 LANGUAGES) l out ->
    out = Ret tt
    /\ code_lines_of idx (ui_events l) = Animated.split_newline (Animated.code lang).
Proof.
  intros Hidx l out H. unfold Animated.step1 in H. unfold code_lines_of.
  set (f := fun u => match u with
                     | Animated.EvCodeLine i line => if Nat.eqb i idx then [line] else []
                     | _ => []
                     end).
  apply traces_emit_bind in H. destruct H as (l0 & -> & H).
  apply traces_bind in H.
  destruct H as [(a & l1 & l2 & H1 & H & ->) | [(e & H1 & ->) | (H1 & ->)]];
    apply (anim_for_enumerate_emits f _ (fun _ _ => [])) in H1;
    try (destruct H1 as [E1 _]; discriminate);
    try (intros i x l' out' H'; simpl in H'; repeat step_traces H'; auto).
  destruct H1 as [_ Hf1]. rewrite flat_map_nil in Hf1. cbv zeta in H.
  assert (Hne : map (fun lang => Animated.split_newline (Animated.code lang)) LANGUAGES
               <> []).
  { intros E. apply map_eq_nil in E. subst LANGUAGES. destruct idx; discriminate. }
  apply traces_bind in H.
  destruct H as [(u & l3 & l4 & H3 & H & ->) | [(e & H3 & ->) | (H3 & ->)]];
    destruct (map (fun lang => Animated.split_newline (Animated.code lang)) LANGUAGES)
      as [| c cs] eqn:Ecl; try contradiction;
    try (destruct H3 as [_ E3]; discriminate).
  destruct H3 as [-> _]. rewrite <- Ecl in H. clear Hne.
  assert (Hinner : forall x l' out',
             traces
               (Animated.for_enumerate 0
                  (map (fun lang => Animated.split_newline (Animated.code lang)) LANGUAGES)
                  (fun idx0 lines =>
                     match nth_error lines x with
                     | Some line =>
                         Animated.send_event (Animated.EvCodeLine idx0 line) ;;;
                         Animated.send_event
                           (Animated.EvProgress idx0
                              (Animated.typing_progress x (List.length lines)))
                     | None => ret tt
                     end)) l' out' ->
             out' = Ret tt
             /\ flat_map f (ui_events l')
                = match nth_error (Animated.split_newline (Animated.code lang)) x with
                  | Some line => [line]
                  | None => []
                  end).
  { intros x l' out' H'.
    apply (anim_for_enumerate_emits f _
             (fun i lines =>
                if Nat.eqb i idx
                then match nth_error lines x with Some line => [line] | None => [] end
                else [])) in H'.
    - destruct H' as [-> Hf]. split; [reflexivity |]. rewrite Hf.
      rewrite (flat_map_enumerate_select
                 (fun lines => match nth_error lines x with
                               | Some line => [line]
                               | None => []
                               end) idx _ 0).
      cbn [Nat.leb]. rewrite Nat.sub_0_r, nth_error_map, Hidx. reflexivity.
    - intros i lines l'' out'' H''.
      destruct (nth_error lines x) as [line |]; simpl in H''; repeat step_traces H'';
        simpl; [destruct (Nat.eqb i idx) |]; auto.
      now destruct (Nat.eqb i idx). }
  apply traces_bind in H.
  destruct H as [(u5 & l5 & l6 & H5 & H & ->) | [(e & H5 & ->) | (H5 & ->)]];
    apply (anim_for_each_emits f _
             (fun line_num =>
                match nth_error (Animated.split_newline (Animated.code lang)) line_num with
                | Some line => [line]
                | None => []
                end) Hinner) in H5;
    try (destruct H5 as [E5 _]; discriminate).
  destruct H5 as [_ Hf5].
  apply (anim_for_each_emits f _ (fun _ => [])) in H.
  2:{ intros x l' out' H'. simpl in H'. repeat step_traces H'. auto. }
  destruct H as [-> Hf6]. split; [reflexivity |].
  rewrite flat_map_nil in Hf6.
  change (ui_events (Ui (Animated.EvStep 1 (utf8 "📝 Step 1: 코드 작성 중..."))
                     :: l1 ++ [] ++ l5 ++ l6))
    with (Animated.EvStep 1 (utf8 "📝 Step 1: 코드 작성 중...")
          :: ui_events (l1 ++ [] ++ l5 ++ l6)).
  cbn [flat_map f app]. rewrite !ui_events_app, !flat_map_app, Hf1, Hf5, Hf6.
  cbn [ui_events flat_map app]. rewrite app_nil_r, flat_map_nth_error_seq.
  apply firstn_all2. apply fold_max_ge. rewrite map_map. apply in_map_iff.
  exists lang. split; [reflexivity |]. eapply nth_error_In; eauto.
Qed.

(** X14.  Step 1 of the animated variant, the typing animation, always
    returns and sends, for every language of the table, one [code_line]
    event for each line of its code, in order: the lines sent for a
    language are its code split at the newlines, and joined by newlines
    they are the very text step 2 writes to the source file. *)
Theorem animated_typing_sends_the_code :
  forall (os : OS) (LANGUAGES : list Animated.Language) (idx : nat)
         (lang : Animated.Language) (w : world os),
    nth_error LANGUAGES idx = Some lang ->
    let r := run (Animated.step1 LANGUAGES) w in
    outcome r = Ret tt
    /\ code_lines_of idx (ui_events (record r))
       = Animated.split_newline (Animated.code lang)
    /\ join newline (code_lines_of idx (ui_events (record r))) = Animated.code lang.
Proof.
  intros os LANGUAGES idx lang w Hidx r. subst r.
  destruct (run (Animated.step1 LANGUAGES) w) as [[out w'] l] eqn:E.
  apply run_traces in E. unfold outcome, record. cbn [fst snd].
  apply (anim_step1_spec _ Hidx) in E. destruct E as [-> E].
  split; [reflexivity |]. split; [exact E |].
  rewrite E. apply join_split_newline.
Qed.

(** The first entry of the table of the script. *)
Lemma animated_typing_witness :
  exists lang,
    nth_error Animated.LANGUAGES 0 = Some lang
    /\ let r := @run machine_os _ _ (Animated.step1 Animated.LANGUAGES) machine_working in
       outcome r = Ret tt
       /\ code_lines_of 0 (ui_events (record r))
          = Animated.split_newline (Animated.code lang)
       /\ join newline (code_lines_of 0 (ui_events (record r))) = Animated.code lang.
Proof.
  eexists. split; [reflexivity |].
  apply (@animated_typing_sends_the_code machine_os Animated.LANGUAGES 0 _
           machine_working).
  reflexivity.
Defined.

(* ================================================================== *)
(** * animated_hello.py: the [done] event                              *)
(* ================================================================== *)

(** Goals on programs that work in their workspace. *)
Ltac name_ok := first [ exact I | eassumption | idtac ].

Ltac inside_auto :=
  repeat match goal with
         | |- forall _, _ => intro
         | |- _ /\ _ => split
         | |- True => exact I
         | |- not_done _ => exact I
         | |- works_in _ _ _ => progress simpl
         | |- ?a = ?a => reflexivity
         | |- exists name, _ /\ _ = path_join _ name =>
             eexists; split; [| reflexivity]; name_ok
         | |- _ = _ \/ _ =>
             first [ left; reflexivity
                   | right; eexists; split; [| reflexivity]; name_ok ]
         | |- confined _ _ _ (bind _ _) => apply confined_bind
         | |- confined _ _ _ (match ?x with _ => _ end) => destruct x
         | |- confined _ _ _ (if ?x then _ else _) => destruct x
         | |- confined _ _ _ _ => progress simpl
         end.

Lemma done_events_app (a b : list Animated.ui) :
  done_events (a ++ b) = done_events a ++ done_events b.
Proof. apply flat_map_app. Qed.

Lemma done_events_confined (rq : req -> Prop) (l : list (event Animated.ui)) :
  Forall (event_confined rq not_done) l -> done_events (ui_events l) = [].
Proof.
  induction 1 as [| e l He Hl IH]; [reflexivity |].
  destruct e as [c | u]; simpl; [exact IH |].
  destruct u; simpl in *; try exact IH. contradiction.
Qed.

Section AnimatedDone.
Variable str_exc : cmd -> Z -> text.
Variable WORKSPACE : path.
Variable LANGUAGES : list Animated.Language.
Variable allowed : text -> Prop.

Local Abbreviation quiet p := (confined (works_in allowed WORKSPACE) not_done False p).

Lemma anim_for_enumerate_quiet {A} (body : nat -> A -> prog Animated.ui unit) :
  (forall i x, quiet (body i x)) ->
  forall xs k, quiet (Animated.for_enumerate k xs body).
Proof.
  intros Hb. induction xs as [| x rest IH]; intros k; [exact I |].
  cbn [Animated.for_enumerate]. apply confined_bind; [apply Hb | intros _; apply IH].
Qed.

Lemma anim_for_each_quiet {A} (body : A -> prog Animated.ui unit) :
  (forall x, quiet (body x)) -> forall xs, quiet (Animated.for_each xs body).
Proof.
  intros Hb. induction xs as [| x rest IH]; [exact I |].
  cbn [Animated.for_each]. apply confined_bind; [apply Hb | intros _; apply IH].
Qed.

Lemma anim_step1_quiet : quiet (Animated.step1 LANGUAGES).
Proof.
  unfold Animated.step1. apply confined_bind; [inside_auto |]. intros _.
  apply confined_bind.
  { apply anim_for_enumerate_quiet. intros i x. simpl. auto. }
  intros _. cbv zeta. apply confined_bind.
  { destruct (map _ LANGUAGES); exact I. }
  intros _. apply confined_bind.
  { apply anim_for_each_quiet. intros line_num. apply anim_for_enumerate_quiet.
    intros i lines. destruct (nth_error lines line_num); inside_auto. }
  intros _. apply anim_for_each_quiet. intros i. simpl. auto.
Qed.

Lemma anim_run_subprocess_quiet (c : cmd) :
  quiet (Animated.run_subprocess str_exc c WORKSPACE).
Proof. unfold Animated.run_subprocess, subprocess_run, limit_30s. inside_auto. Qed.

Lemma anim_compile_loop_quiet (idx : nat) (cmds : list cmd) :
  forall total last_cmd, quiet (Animated.compile_loop str_exc WORKSPACE idx total last_cmd cmds).
Proof.
  induction cmds as [| c rest IH]; intros total last_cmd; [exact I |].
  cbn [Animated.compile_loop]. cbv zeta. apply confined_bind; [inside_auto |]. intros _.
  apply confined_bind; [apply anim_run_subprocess_quiet |].
  intros [[[success elapsed] stdout] stderr].
  destruct success; cbn [negb]; cbv iota; [apply IH | inside_auto].
Qed.

Lemma anim_step2_body_quiet (idx : nat) (lang : Animated.Language) (timings : dict) :
  Forall allowed (anim_names lang) ->
  quiet (Animated.step2_body str_exc WORKSPACE idx lang timings).
Proof.
  intros Hok. apply Forall_inv in Hok.
  unfold Animated.step2_body. apply confined_bind; [inside_auto |]. intros _.
  apply confined_bind; [inside_auto |]. intros _.
  apply confined_bind; [inside_auto |]. intros [[msg |] elapsed]; [exact I |].
  cbv zeta. apply confined_bind; [apply anim_compile_loop_quiet |].
  intros [[total failed] last_cmd].
  apply confined_bind; [| intros _; exact I].
  destruct failed; inside_auto.
Qed.

Lemma anim_step3_body_quiet (idx : nat) (lang : Animated.Language) (timings : dict) :
  Forall allowed (anim_names lang) ->
  quiet (Animated.step3_body str_exc WORKSPACE idx lang timings).
Proof.
  intros Hok. apply Forall_inv_tail in Hok.
  unfold Animated.step3_body. cbv zeta. apply confined_bind.
  { destruct (_ =? 0)%N; [| exact I].
    destruct (Animated.run_cmd lang) as [| program rest]; [exact I |].
    apply Forall_inv in Hok. inside_auto. }
  intros [|]; [exact I |].
  apply confined_bind; [inside_auto |]. intros _.
  apply confined_bind; [inside_auto |]. intros _.
  apply confined_bind; [inside_auto |]. intros _.
  apply confined_bind; [apply anim_run_subprocess_quiet |].
  intros [[[success elapsed] stdout] stderr].
  apply confined_bind; [destruct success; inside_auto |]. intros _.
  simpl. auto.
Qed.

Lemma anim_for_languages_quiet
    (body : nat -> Animated.Language -> dict -> prog Animated.ui dict) :
  (forall i lang t, Forall allowed (anim_names lang) -> quiet (body i lang t)) ->
  forall langs,
    Forall (fun lang => Forall allowed (anim_names lang)) langs ->
    forall idx timings, quiet (Animated.for_languages body idx langs timings).
Proof.
  intros Hb. induction 1 as [| lang rest Hlang Hrest IH]; intros idx timings.
  - destruct timings; exact I.
  - destruct timings as [| t ts]; [exact I |].
    cbn [Animated.for_languages]. apply confined_bind; [now apply Hb |]. intros t'.
    apply confined_bind; [apply IH |]. intros r. exact I.
Qed.

(** What is true of a part of [run_animation] that ends with the [done]
    event. *)
Local Abbreviation ends_with_done p :=
  (forall l out,
      traces p l out ->
      match out with
      | Ret timings =>
          exists pre,
            ui_events l
            = pre ++ [Animated.EvDone (Animated.success_count timings)
                                      (List.length LANGUAGES)]
            /\ done_events pre = []
      | Raise _ => done_events (ui_events l) = []
      | Block => False
      end).

Lemma ends_with_done_bind {A} (m : prog Animated.ui A)
    (k : A -> prog Animated.ui (list dict)) :
  quiet m -> (forall a, ends_with_done (k a)) -> ends_with_done (bind m k).
Proof.
  intros Hm Hk l out H. apply traces_bind in H.
  destruct H as [(a & l1 & l2 & H1 & H2 & ->) | [(e & H1 & ->) | (H1 & ->)]];
    eapply confined_traces in H1; try exact Hm; destruct H1 as [Hl Hb].
  - apply done_events_confined in Hl. apply Hk in H2.
    destruct out as [timings | e | ]; [| | exact H2].
    + destruct H2 as (pre & Hu & Hd). exists (ui_events l1 ++ pre).
      rewrite ui_events_app, Hu, <- app_assoc, done_events_app, Hl, Hd. auto.
    + now rewrite ui_events_app, done_events_app, Hl, H2.
  - eapply done_events_confined; eassumption.
  - now apply Hb.
Qed.

Lemma run_animation_ends_with_done :
  Forall (fun lang => Forall allowed (anim_names lang)) LANGUAGES ->
  ends_with_done (Animated.run_animation str_exc WORKSPACE LANGUAGES).
Proof.
  intros Hok. unfold Animated.run_animation.
  apply ends_with_done_bind; [inside_auto |]. intros present.
  apply ends_with_done_bind.
  { destruct present; [| exact I]. inside_auto. }
  intros _. apply ends_with_done_bind.
  { inside_auto. }
  intros _. cbv zeta. apply ends_with_done_bind; [apply anim_step1_quiet |].
  intros _. apply ends_with_done_bind; [inside_auto |].
  intros _. apply ends_with_done_bind.
  { apply anim_for_languages_quiet; [apply anim_step2_body_quiet | exact Hok]. }
  intros timings2. apply ends_with_done_bind; [inside_auto |].
  intros _. apply ends_with_done_bind.
  { apply anim_for_languages_quiet; [apply anim_step3_body_quiet | exact Hok]. }
  intros timings3. apply ends_with_done_bind; [inside_auto |].
  intros _. apply ends_with_done_bind; [inside_auto |].
  intros _ l out H. simpl in H. repeat step_traces H.
  exists []. auto.
Qed.

End AnimatedDone.

(** X15.  The animated variant sends the [done] event, at which the browser's
    event stream is closed, exactly when [run_animation] returns: then it is
    the last event and the only [done] event.  The two numbers it carries are
    [success_count], which is the number of languages whose timings hold a
    run time above 0, whether that run succeeded or failed, and the number
    of languages.  When [run_animation] raises instead (for instance when the
    workspace cannot be prepared, a source file cannot be written, a command
    cannot be launched, or the table is empty) no [done] event is sent at
    all.  [run_animation] never waits for ever: every command runs under the
    time limit. *)
Theorem animated_done_event_only_on_return :
  forall (os : OS) (str_exc : cmd -> Z -> text) (WORKSPACE : path)
         (LANGUAGES : list Animated.Language) (w : world os),
    match run (Animated.run_animation str_exc WORKSPACE LANGUAGES) w with
    | (Ret timings, _, l) =>
        exists pre,
          ui_events l
          = pre ++ [Animated.EvDone (Animated.success_count timings)
                                    (List.length LANGUAGES)]
          /\ done_events pre = []
    | (Raise _, _, l) => done_events (ui_events l) = []
    | (Block, _, _) => False
    end.
Proof.
  intros os str_exc WORKSPACE LANGUAGES w.
  destruct (run (Animated.run_animation str_exc WORKSPACE LANGUAGES) w)
    as [[out w'] l] eqn:E.
  apply run_traces in E.
  apply run_animation_ends_with_done with (allowed := fun _ => True) in E; [exact E |].
  apply Forall_forall. intros lang _. apply Forall_forall. intros name _. exact I.
Qed.

(* ================================================================== *)
(** * educational_hello.py: the clean-up                               *)
(* ================================================================== *)

Lemma removals_only {U} (allowed : text -> Prop) (p : path) (ev : U -> Prop)
    (l : list (event U)) :
  Forall (event_confined (works_in allowed p) ev) l ->
  Forall (fun r => fst r = p) (removals l).
Proof.
  induction 1 as [| e l He Hl IH]; [constructor |].
  destruct e as [[c cwd lim b | q c r | q r | q r] | u]; simpl in *; auto.
Qed.

Section RunReturns.
Context {os : OS} {U : Type}.

Lemma run_bind_ret_inv {A B} (m : prog U A) (k : A -> prog U B) :
  forall (w w' : world os) (b : B) l,
    run (bind m k) w = (Ret b, w', l) ->
    exists a w1 l1 l2,
      run m w = (Ret a, w1, l1) /\ run (k a) w1 = (Ret b, w', l2) /\ l = l1 ++ l2.
Proof.
  intros w w' b l H. apply run_bind_inv in H.
  destruct H as [H | [(e & _ & E) | (_ & E)]]; [exact H | discriminate | discriminate].
Qed.

End RunReturns.

Section EducationalMain.
Variable WORKSPACE : path.
Variable LANGUAGES : list Educational.LanguageSpec.
Variable allowed : text -> Prop.

Local Abbreviation tidy p :=
  (confined (works_in allowed WORKSPACE) (fun _ : Educational.ui => True) True p).

Lemma edu_run_subprocess_tidy (c : cmd) :
  tidy (Educational.run_subprocess c WORKSPACE).
Proof.
  unfold Educational.run_subprocess, subprocess_run, expired. inside_auto.
Qed.

Lemma edu_compile_loop_tidy (index total_steps n_cmds : nat) (cmds : list cmd) :
  forall cmd_index state compile_time,
    tidy (Educational.compile_loop WORKSPACE index total_steps n_cmds cmd_index state
            compile_time cmds).
Proof.
  induction cmds as [| c rest IH]; intros cmd_index state compile_time; [exact I |].
  cbn [Educational.compile_loop]. cbv zeta.
  apply confined_bind; [apply edu_run_subprocess_tidy |].
  intros [[[ok elapsed] stdout] stderr].
  destruct ok; cbn [negb]; cbv iota.
  - apply confined_bind; [inside_auto |]. intros _. apply IH.
  - simpl. auto.
Qed.

Lemma edu_step2_body_tidy (index : nat) (spec : Educational.LanguageSpec)
    (state : Educational.LanguageState) :
  allowed (Educational.filename spec) ->
  tidy (Educational.step2_body WORKSPACE index spec state).
Proof.
  intros Hok. unfold Educational.step2_body. cbv zeta. apply confined_bind.
  { unfold Educational.write_source_file. inside_auto. }
  intros [[ok elapsed] msg]. apply confined_bind; [inside_auto |]. intros _.
  destruct ok; cbn [negb]; cbv iota; [| inside_auto].
  destruct (Educational.compile_cmds spec) as [| c rest]; [inside_auto |].
  apply confined_bind; [apply edu_compile_loop_tidy |].
  intros [state' t]. destruct (Educational.failed state'); inside_auto.
Qed.

Lemma edu_step3_body_tidy (index : nat) (spec : Educational.LanguageSpec)
    (state : Educational.LanguageState) :
  allowed (Educational.filename spec) ->
  tidy (Educational.step3_body WORKSPACE index spec state).
Proof.
  intros _. unfold Educational.step3_body. destruct (Educational.failed state); [exact I |].
  cbv zeta. apply confined_bind; [apply edu_run_subprocess_tidy |].
  intros [[[ok elapsed] stdout] stderr]. destruct ok; exact I.
Qed.

Lemma edu_for_languages_tidy
    (body : nat -> Educational.LanguageSpec -> Educational.LanguageState
            -> prog Educational.ui Educational.LanguageState) :
  (forall i spec s, allowed (Educational.filename spec) -> tidy (body i spec s)) ->
  forall specs,
    Forall (fun spec => allowed (Educational.filename spec)) specs ->
    forall index states, tidy (Educational.for_languages body index specs states).
Proof.
  intros Hb. induction 1 as [| spec rest Hspec Hrest IH]; intros index states.
  - destruct states; exact I.
  - destruct states as [| s ss]; [exact I |].
    cbn [Educational.for_languages]. apply confined_bind; [now apply Hb |]. intros s'.
    apply confined_bind; [apply IH |]. intros r. exact I.
Qed.

Lemma edu_add_tasks_tidy (specs : list Educational.LanguageSpec) :
  forall index, tidy (Educational.add_tasks index specs).
Proof.
  induction specs as [| spec rest IH]; intros index; [exact I |].
  cbn [Educational.add_tasks]. apply confined_bind; [inside_auto |]. intros _. apply IH.
Qed.

Lemma edu_cleanup_workspace_tidy : tidy (Educational.cleanup_workspace WORKSPACE).
Proof.
  unfold Educational.cleanup_workspace. inside_auto.
Qed.

(** [main] removes nothing but its workspace. *)
Lemma edu_main_tidy :
  Forall (fun spec => allowed (Educational.filename spec)) LANGUAGES ->
  tidy (Educational.main WORKSPACE LANGUAGES).
Proof.
  intros Hok. unfold Educational.main. apply confined_bind; [inside_auto |]. intros total_start.
  cbv zeta. apply confined_bind; [apply edu_cleanup_workspace_tidy |]. intros _.
  apply confined_bind; [inside_auto |].
  intros _.
  apply confined_bind; [destruct (List.length LANGUAGES <? 4)%nat; exact I |].
  intros _. apply confined_bind; [destruct LANGUAGES; exact I |]. intros _.
  apply confined_bind; [apply edu_add_tasks_tidy |]. intros _.
  apply confined_bind.
  { apply edu_for_languages_tidy; [apply edu_step2_body_tidy | exact Hok]. }
  intros states2. apply confined_bind.
  { apply edu_for_languages_tidy; [apply edu_step3_body_tidy | exact Hok]. }
  intros states3. apply confined_bind; [inside_auto |]. intros t.
  apply confined_bind; [apply edu_cleanup_workspace_tidy |]. intros cleaned.
  simpl. auto.
Qed.

(** [cleanup_workspace]: it tells whether the workspace is gone. *)
Lemma edu_cleanup_workspace_spec {os : OS} :
  removal_law os ->
  forall (w w' : world os) out l,
    run (Educational.cleanup_workspace WORKSPACE) w = (out, w', l) ->
    exists cleaned,
      out = Ret cleaned
      /\ (cleaned = true -> fst (perform os (RExists WORKSPACE) w') = false)
      /\ (cleaned = false -> exists msg, l = [Os (Rmtree WORKSPACE (Some msg))]).
Proof.
  intros [Hkeep Hrm] w w' out l H.
  unfold Educational.cleanup_workspace, path_exists, shutil_rmtree, call in H.
  simpl in H.
  pose proof (Hkeep WORKSPACE w) as Hk.
  destruct (perform os (RExists WORKSPACE) w) as [present w1] eqn:E1.
  simpl in Hk. subst w1.
  destruct present; simpl in H.
  - pose proof (Hrm WORKSPACE w) as Hr.
    destruct (perform os (RRmtree WORKSPACE) w) as [exc w2] eqn:E2. simpl in Hr.
    destruct exc as [msg |]; simpl in H; inversion H; subst.
    + exists false. split; [reflexivity |]. split; [discriminate | eauto].
    + exists true. split; [reflexivity |].
      split; [intros _; apply Hr; reflexivity | discriminate].
  - inversion H; subst. exists true. split; [reflexivity |].
    split; [intros _; now rewrite E1 | discriminate].
Qed.

(** The end of [main], when it returns. *)
Lemma edu_main_end {os : OS} :
  removal_law os ->
  forall (w w' : world os) states l,
    run (Educational.main WORKSPACE LANGUAGES) w = (Ret states, w', l) ->
    exists before total cleaned,
      l = before ++ [Ui (Educational.PrintTotal total);
                     Ui (Educational.PrintCleanup cleaned)]
      /\ (cleaned = true -> fst (perform os (RExists WORKSPACE) w') = false)
      /\ (cleaned = false ->
          exists before' msg, before = before' ++ [Os (Rmtree WORKSPACE (Some msg))]).
Proof.
  intros Hlaw w w' states l H. unfold Educational.main in H.
  apply run_bind_ret_inv in H. destruct H as (t0 & w1 & l1 & r1 & _ & H & ->).
  cbv zeta in H.
  apply run_bind_ret_inv in H. destruct H as (c0 & w2 & l2 & r2 & _ & H & ->).
  apply run_bind_ret_inv in H. destruct H as (u3 & w3 & l3 & r3 & _ & H & ->).
  apply run_bind_ret_inv in H. destruct H as (u4 & w4 & l4 & r4 & _ & H & ->).
  apply run_bind_ret_inv in H. destruct H as (u5 & w5 & l5 & r5 & _ & H & ->).
  apply run_bind_ret_inv in H. destruct H as (u50 & w50 & l50 & r50 & _ & H & ->).
  apply run_bind_ret_inv in H. destruct H as (s6 & w6 & l6 & r6 & _ & H & ->).
  apply run_bind_ret_inv in H. destruct H as (s7 & w7 & l7 & r7 & _ & H & ->).
  apply run_bind_ret_inv in H. destruct H as (t8 & w8 & l8 & r8 & _ & H & ->).
  apply run_bind_ret_inv in H. destruct H as (cleaned & w9 & l9 & r9 & Hc & H & ->).
  simpl in H. inversion H; subst. clear H.
  eapply edu_cleanup_workspace_spec in Hc; [| exact Hlaw].
  destruct Hc as (cleaned' & E & Habs & Hfail). inversion E; subst cleaned'. clear E.
  exists (l1 ++ l2 ++ l3 ++ l4 ++ l5 ++ l50 ++ l6 ++ l7 ++ l8 ++ l9), (t8 - t0)%N, cleaned.
  split; [now rewrite <- !app_assoc |]. split; [exact Habs |].
  intros Hf. destruct (Hfail Hf) as [msg ->].
  exists (l1 ++ l2 ++ l3 ++ l4 ++ l5 ++ l50 ++ l6 ++ l7 ++ l8), msg.
  now rewrite <- !app_assoc.
Qed.

End EducationalMain.

Lemma removals_app_ui {U} (l : list (event U)) (us : list U) :
  removals (l ++ map Ui us) = removals l.
Proof.
  rewrite removals_app. replace (removals (map (@Ui U) us)) with (@nil (path * option text)).
  - apply app_nil_r.
  - induction us; simpl; auto.
Qed.

(** X16.  The educational variant removes nothing but its workspace,
    whatever happens.  And whenever [main] returns, the record ends with the
    total time and the report on the clean-up, which says that the workspace
    is gone exactly when it was absent or its removal succeeded, after which
    it does not exist; when the report says that the removal failed, the last
    removal asked for is that of the workspace and it raised an error, so the
    workspace is left behind. *)
Theorem educational_main_cleans_up_its_workspace :
  forall (os : OS) (WORKSPACE : path) (LANGUAGES : list Educational.LanguageSpec)
         (w w' : world os) out l,
    removal_law os ->
    run (Educational.main WORKSPACE LANGUAGES) w = (out, w', l) ->
    Forall (fun r => fst r = WORKSPACE) (removals l)
    /\ match out with
       | Ret _ =>
           exists pre total cleaned,
             ui_events l
             = pre ++ [Educational.PrintTotal total; Educational.PrintCleanup cleaned]
             /\ (cleaned = true -> fst (perform os (RExists WORKSPACE) w') = false)
             /\ (cleaned = false ->
                 exists msg,
                   last (removals l) (WORKSPACE, None) = (WORKSPACE, Some msg))
       | _ => True
       end.
Proof.
  intros os WORKSPACE LANGUAGES w w' out l Hlaw Hrun. split.
  - apply run_traces in Hrun.
    assert (Ht : confined (works_in (fun _ => True) WORKSPACE)
                   (fun _ : Educational.ui => True) True
                   (Educational.main WORKSPACE LANGUAGES)).
    { apply edu_main_tidy. apply Forall_forall. intros spec _. exact I. }
    eapply confined_traces in Hrun; [| exact Ht].
    eapply removals_only, Hrun.
  - destruct out as [states | e | ]; [| exact I | exact I].
    eapply edu_main_end in Hrun; [| exact Hlaw].
    destruct Hrun as (before & total & cleaned & -> & Habs & Hfail).
    exists (ui_events before), total, cleaned.
    split; [now rewrite ui_events_app |]. split; [exact Habs |].
    intros Hf. destruct (Hfail Hf) as (before' & msg & ->). exists msg.
    change [Ui (Educational.PrintTotal total); Ui (Educational.PrintCleanup cleaned)]
      with (map (@Ui Educational.ui)
                [Educational.PrintTotal total; Educational.PrintCleanup cleaned]).
    rewrite removals_app_ui, removals_app. apply last_app_cons.
Qed.

(** The table of the script on a machine whose tools work: [main] returns
    and the workspace is gone at the end. *)
Lemma educational_main_witness :
  exists states w' l,
    @run machine_os _ _ (Educational.main example_workspace Educational.LANGUAGES)
      machine_working = (Ret states, w', l)
    /\ Forall (fun r => fst r = example_workspace) (removals l)
    /\ exists pre total cleaned,
         ui_events l
         = pre ++ [Educational.PrintTotal total; Educational.PrintCleanup cleaned]
         /\ (cleaned = true -> present w' example_workspace = false)
         /\ (cleaned = false ->
             exists msg,
               last (removals l) (example_workspace, None)
               = (example_workspace, Some msg)).
Proof.
  assert (E : exists states w' l,
             @run machine_os _ _
               (Educational.main example_workspace Educational.LANGUAGES)
               machine_working = (Ret states, w', l)).
  { do 3 eexists. vm_compute. reflexivity. }
  destruct E as (states & w' & l & E). exists states, w', l.
  split; [exact E |].
  exact (@educational_main_cleans_up_its_workspace machine_os example_workspace
           Educational.LANGUAGES machine_working w' (Ret states) l
           machine_removal_law E).
Defined.

(* ================================================================== *)
(** * Every variant keeps to its workspace                             *)
(* ================================================================== *)

Section PoolConfined.
Context {os : OS} {U : Type}.
Variable rq : req -> Prop.
Variable ev : U -> Prop.




End PoolConfined.



Section WebInside.
Variable str_exc : cmd -> Z -> text.
Variable WORKSPACE : path.
Variable LANGUAGES : list Web.LanguageSpec.
Variable allowed : text -> Prop.

Local Abbreviation within p :=
  (confined (works_in allowed WORKSPACE) (fun _ : Web.note => True) True p).





End WebInside.

Section ConsoleInside.
Variable workspace : path.
Variable LANGUAGES : list MultiLang.Language.
Variable allowed : text -> Prop.

Local Abbreviation within p :=
  (confined (works_in allowed workspace) (fun _ : MultiLang.ui => True) True p).

Transparent MultiLang.run_command MultiLang.cleanup_workspace.



Opaque MultiLang.run_command MultiLang.cleanup_workspace.







End ConsoleInside.

Section GraphicalInside.
Variable str_exc : cmd -> Z -> text.
Variable workspace : path.
Variable LANGUAGES : list Graphical.LanguageSpec.
Variable allowed : text -> Prop.

Local Abbreviation within p :=
  (confined (works_in allowed workspace) (fun _ : Graphical.ui => True) True p).






End GraphicalInside.

Section AnimatedInside.
Variable str_exc : cmd -> Z -> text.
Variable WORKSPACE : path.
Variable LANGUAGES : list Animated.Language.
Variable allowed : text -> Prop.

Local Abbreviation within p :=
  (confined (works_in allowed WORKSPACE) (fun _ : Animated.ui => True) True p).



End AnimatedInside.









(* ================================================================== *)
(** * animated_hello.py: which languages step 3 runs                   *)
(* ================================================================== *)

Section AnimatedGuard.
Variable str_exc : cmd -> Z -> text.
Variable WORKSPACE : path.

Local Abbreviation binary_of program :=
  (path_join WORKSPACE (Animated.remove_dot_slash program)).

(** Step 3 on a language: the test it makes, and what it does then. *)
Lemma anim_step3_guard {os : OS} (idx : nat) (lang : Animated.Language) (timings : dict)
    (program : text) (args : list text) :
  Animated.run_cmd lang = program :: args ->
  forall (w w' : world os) out l,
    run (Animated.step3_body str_exc WORKSPACE idx lang timings) w = (out, w', l) ->
    if ((dict_get_default timings (utf8 "compile") 0 =? 0)%N
        && negb (fst (perform os (RExists (binary_of program)) w)))%bool
    then out = Ret timings /\ l = []
    else launched l = [Animated.run_cmd lang]
         /\ In (Animated.EvRunStart idx (join (utf8 " ") (Animated.run_cmd lang)))
               (ui_events l).
Proof.
  intros Hcmd w w' out l H. unfold Animated.step3_body in H. cbv zeta in H.
  rewrite Hcmd in H |- *.
  apply run_bind_inv in H.
  destruct H as [(skip & w1 & l1 & l2 & H1 & H2 & ->) | [(e & H1 & E) | (H1 & E)]].
  - assert (Hskip : skip = ((dict_get_default timings (utf8 "compile") 0 =? 0)%N
                            && negb (fst (perform os (RExists (binary_of program)) w)))%bool
                    /\ l1 = []).
    { destruct (dict_get_default timings (utf8 "compile") 0 =? 0)%N; simpl in H1.
      - destruct (perform os (RExists (binary_of program)) w) as [present w2].
        simpl in H1. inversion H1; subst. auto.
      - inversion H1; subst. auto. }
    destruct Hskip as [<- ->]. destruct skip.
    + simpl in H2. inversion H2; subst. auto.
    + apply run_traces in H2. do 3 step_traces H2. step_call H2 as x.
      destruct x as [rc o e d | msg d | msg | ]; simpl in H2.
      * destruct (expired limit_30s d); simpl in H2;
          [| destruct (rc =? 0)%Z; simpl in H2];
          repeat step_traces H2; simpl; auto.
      * repeat step_traces H2. simpl. auto.
      * repeat step_traces H2. simpl. auto.
      * repeat step_traces H2. simpl. auto.
  - exfalso. destruct (dict_get_default timings (utf8 "compile") 0 =? 0)%N; simpl in H1.
    + destruct (perform os (RExists (binary_of program)) w) as [present w2].
      simpl in H1. discriminate.
    + discriminate.
  - exfalso. destruct (dict_get_default timings (utf8 "compile") 0 =? 0)%N; simpl in H1.
    + destruct (perform os (RExists (binary_of program)) w) as [present w2].
      simpl in H1. discriminate.
    + discriminate.
Qed.

(** Step 3 on a language whose run command is empty, when no compile time
    was stored for it: [run_cmd[0]] raises. *)
Lemma anim_step3_empty_run_cmd {os : OS} (idx : nat) (lang : Animated.Language)
    (timings : dict) (w : world os) :
  Animated.run_cmd lang = [] ->
  dict_get_default timings (utf8 "compile") 0 = 0%N ->
  run (Animated.step3_body str_exc WORKSPACE idx lang timings) w = (Raise IndexError, w, []).
Proof.
  intros Hcmd Ht. unfold Animated.step3_body. rewrite Hcmd, Ht. reflexivity.
Qed.

(** Step 2 on a language without compile commands: the compile time it
    stores is 0. *)
Lemma anim_step2_interpreted (idx : nat) (lang : Animated.Language) (timings : dict) :
  Animated.compile_cmds lang = [] ->
  forall l timings2,
    traces (Animated.step2_body str_exc WORKSPACE idx lang timings) l (Ret timings2) ->
    launched l = [] /\ dict_get_default timings2 (utf8 "compile") 0 = 0%N.
Proof.
  intros Hc l timings2 H. unfold Animated.step2_body in H. rewrite Hc in H.
  do 2 step_traces H. step_call H as x. destruct x as [[msg |] elapsed]; simpl in H.
  - destruct H as [_ E]. discriminate.
  - repeat step_traces H. destruct H as [-> E]. inversion E; subst.
    split; [reflexivity |]. apply dict_get_default_set_same.
Qed.

End AnimatedGuard.

(** X19.  Step 3 of the animated variant decides by the compile time it
    finds and by one existence test whether it runs a language whose run
    command is [program :: args].  The path it tests is
    [WORKSPACE / program] with the [./] of [program] taken out, which is an
    entry of the workspace for a relative program and the program itself for
    an absolute one.  When the compile time stored for the language is 0 and
    nothing exists at that path, step 3 does nothing for the language: no
    event is sent, nothing is launched and the timings are left as they are.
    In every other case it sends [run_start] and launches the run command,
    once.  Step 2 stores the compile time 0 for a language without compile
    commands, so that such a language is run only when something exists at
    the path tested.  For an empty run command and the compile time 0, step
    3 raises [IndexError] before it sends or launches anything. *)
Theorem animated_step3_runs_only_compiled_languages :
  (forall (os : OS) (str_exc : cmd -> Z -> text) (WORKSPACE : path) (idx : nat)
          (lang : Animated.Language) (program : text) (args : list text)
          (timings : dict) (w w' : world os) out l,
      Animated.run_cmd lang = program :: args ->
      run (Animated.step3_body str_exc WORKSPACE idx lang timings) w = (out, w', l) ->
      if ((dict_get_default timings (utf8 "compile") 0 =? 0)%N
          && negb (fst (perform os
                          (RExists (path_join WORKSPACE
                                      (Animated.remove_dot_slash program))) w)))%bool
      then out = Ret timings /\ l = []
      else launched l = [Animated.run_cmd lang]
           /\ In (Animated.EvRunStart idx (join (utf8 " ") (Animated.run_cmd lang)))
                 (ui_events l))
  /\
  (forall (os : OS) (str_exc : cmd -> Z -> text) (WORKSPACE : path) (idx : nat)
          (lang : Animated.Language) (program : text) (args : list text)
          (timings : dict) (w w' : world os) timings2 l,
      Animated.compile_cmds lang = [] ->
      Animated.run_cmd lang = program :: args ->
      run (Animated.step2_body str_exc WORKSPACE idx lang timings) w
      = (Ret timings2, w', l) ->
      launched l = []
      /\ dict_get_default timings2 (utf8 "compile") 0 = 0%N
      /\ forall w2 : world os,
           fst (perform os
                  (RExists (path_join WORKSPACE
                              (Animated.remove_dot_slash program))) w2) = false ->
           exists w3,
             run (Animated.step3_body str_exc WORKSPACE idx lang timings2) w2
             = (Ret timings2, w3, []))
  /\
  (forall (os : OS) (str_exc : cmd -> Z -> text) (WORKSPACE : path) (idx : nat)
          (lang : Animated.Language) (timings : dict) (w : world os),
      Animated.run_cmd lang = [] ->
      dict_get_default timings (utf8 "compile") 0 = 0%N ->
      run (Animated.step3_body str_exc WORKSPACE idx lang timings) w
      = (Raise IndexError, w, [])).
Proof.
  split; [| split].
  - intros os str_exc WORKSPACE idx lang program args timings w w' out l Hcmd H.
    eapply anim_step3_guard; eauto.
  - intros os str_exc WORKSPACE idx lang program args timings w w' timings2 l Hc Hcmd H.
    apply run_traces in H. eapply anim_step2_interpreted in H; [| exact Hc].
    destruct H as [Hl Ht]. split; [exact Hl |]. split; [exact Ht |].
    intros w2 Habs.
    destruct (run (Animated.step3_body str_exc WORKSPACE idx lang timings2) w2)
      as [[o w3] l3] eqn:E.
    eapply anim_step3_guard in E; [| exact Hcmd]. rewrite Ht, Habs in E. simpl in E.
    destruct E as [-> ->]. eauto.
  - intros. now apply anim_step3_empty_run_cmd.
Qed.

(** The Python program of the console variant in the table of the animated
    variant, on a machine whose tools work: it is written and never run. *)
Lemma animated_interpreted_witness :
  let r := @run machine_os _ _
             (Animated.step2_body str_called_process_error example_workspace 0
                anim_python []) machine_working in
  let timings2 := match outcome r with Ret t => t | _ => [] end in
  Animated.compile_cmds anim_python = []
  /\ outcome r = Ret timings2
  /\ launched (record r) = []
  /\ dict_get_default timings2 (utf8 "compile") 0 = 0%N
  /\ exists w3,
       @run machine_os _ _
         (Animated.step3_body str_called_process_error example_workspace 0
            anim_python timings2) (final r)
       = (Ret timings2, w3, []).
Proof.
  intros r timings2.
  assert (Hc : Animated.compile_cmds anim_python = []) by (vm_compute; reflexivity).
  assert (Ho : outcome r = Ret timings2) by (vm_compute; reflexivity).
  assert (E : r = (Ret timings2, final r, record r)).
  { rewrite <- Ho. unfold final, outcome, record. now rewrite <- !surjective_pairing. }
  split; [exact Hc |]. split; [exact Ho |].
  destruct (proj1 (proj2 animated_step3_runs_only_compiled_languages) machine_os
              str_called_process_error example_workspace 0 anim_python
              (utf8 "python3") [utf8 "hello.py"] []
              machine_working (final r) timings2 (record r) Hc eq_refl E)
    as (Hl & Ht & Hskip).
  split; [exact Hl |]. split; [exact Ht |].
  apply Hskip. vm_compute. reflexivity.
Defined.
(* ================================================================== *)
(** * graphical_hello.py: the summary                                  *)
(* ================================================================== *)

(** X20.  Whenever [run_all] of the graphical variant gives a result, its
    threads were all joined and its record ends with the removal of the
    workspace and the summary.  The summary reports as successes the
    languages whose state is not marked failed and as failures those whose
    state is; the two counts add up to the number of languages, and the time
    reported is the reading of the clock after the threads were joined less
    the reading when [run_all] started.  When no launch raised an error
    that the launcher does not catch, the successes are the languages whose
    state is the state of a successful run. *)
Theorem graphical_summary_counts :
  forall (os : OS) (str_exc : cmd -> Z -> text) (workspace : path)
          (LANGUAGES : list Graphical.LanguageSpec) (sched : list nat)
          (w w' : world os) out l,
      Graphical.run_all str_exc workspace LANGUAGES sched w = (out, w', l) ->
      exists lt w1 exc sc fc cleaned,
        Graphical.run_threads str_exc workspace LANGUAGES sched (snd (perform os RNow w))
        = (Ret tt, w1, lt)
        /\ l = lt ++ [Os (Rmtree workspace exc);
                      Ui (Graphical.GlobalStatus sc fc
                            (fst (perform os RNow w1) - fst (perform os RNow w))%N
                            cleaned)]
        /\ sc = List.length (filter (fun s => negb (Graphical.failed s))
                               (Graphical.states_after LANGUAGES lt))
        /\ fc = List.length (filter Graphical.failed (Graphical.states_after LANGUAGES lt))
        /\ sc + fc = List.length LANGUAGES
        /\ (existsb launch_raised l = false ->
            sc = List.length (filter Graphical.succeeded
                                (Graphical.states_after LANGUAGES lt))).
Proof.
  intros os str_exc workspace LANGUAGES sched w w' out l Hrun.
  apply run_all_spec in Hrun.
  destruct Hrun as (lt & w1 & Ht & Hr & -> & -> & Hl). cbv zeta in Hl.
  unfold Graphical.finish_execution in Hl. cbv zeta in Hl.
  eexists lt, w1, _, _, _, _. split; [exact Ht |]. split; [exact Hl |].
  split; [reflexivity |].
  assert (Hn : List.length (Graphical.states_after LANGUAGES lt)
               = List.length LANGUAGES).
  { unfold Graphical.states_after. now rewrite length_map, length_seq. }
  split; [apply filter_negb_length |].
  split.
  { rewrite <- Hn.
    pose proof (filter_length Graphical.failed (Graphical.states_after LANGUAGES lt)).
    pose proof (filter_length_le (fun s => negb (Graphical.failed s))
                  (Graphical.states_after LANGUAGES lt)).
    lia. }
  intros Hno. f_equal. unfold Graphical.states_after.
  apply filter_ext_in. intros s Hs. apply in_map_iff in Hs.
  destruct Hs as (i & <- & Hi). apply in_seq in Hi.
  symmetry. eapply states_after_threads; [exact Ht | | lia].
  rewrite Hl, existsb_app in Hno. apply orb_false_iff in Hno. tauto.
Qed.

(** The table of the script on a machine whose compiler is not installed:
    three successes, one failure. *)
Lemma graphical_summary_witness :
  exists w' l lt w1 exc cleaned,
    @Graphical.run_all str_called_process_error example_workspace Graphical.LANGUAGES
      machine_os [0; 1; 2; 3; 3; 2; 1; 0] machine_gcc_missing = (Ret tt, w', l)
    /\ l = lt ++ [Os (Rmtree example_workspace exc);
                  Ui (Graphical.GlobalStatus 3 1
                        (fst (perform machine_os RNow w1)
                         - fst (perform machine_os RNow machine_gcc_missing))%N
                        cleaned)].
Proof.
  assert (E : exists w' l,
             @Graphical.run_all str_called_process_error example_workspace
               Graphical.LANGUAGES machine_os [0; 1; 2; 3; 3; 2; 1; 0]
               machine_gcc_missing = (Ret tt, w', l)).
  { do 2 eexists. vm_compute. reflexivity. }
  destruct E as (w' & l & E).
  destruct (@graphical_summary_counts machine_os str_called_process_error
              example_workspace Graphical.LANGUAGES [0; 1; 2; 3; 3; 2; 1; 0]
              machine_gcc_missing w' (Ret tt) l E)
    as (lt & w1 & exc & sc & fc & cleaned & Ht & Hl & Hsc & Hfc & _).
  exists w', l, lt, w1, exc, cleaned. split; [exact E |].
  assert (Esc : sc = 3 /\ fc = 1).
  { subst sc fc. apply (f_equal snd) in Ht. cbn [snd] in Ht. rewrite <- Ht.
    vm_compute. split; reflexivity. }
  destruct Esc as [-> ->]. exact Hl.
Defined.
